(** * Porter request chatbot: the SQL repair pipeline, the explainer,
      the chart decision, the executor wrapper and the orchestrator of
      [main.py], embedded as Rocq functions, with the properties of the
      specification stated and settled against them; then the error
      analysis and the formatter of [main.py], the validation of
      [config.py] and the handlers of [api.py], with properties read off
      the code.

    Text.  A Python [str] is a sequence of code points.  The embedding covers
    the code points below 256 (Latin-1, which contains ASCII, the alphabet of
    the generated SQL): a character is an [ascii] read as its code point and a
    [str] is a [list ascii].  On that range the character classes of [re]
    ([\s], [\d], [\w]), [str.lower], [str.upper], [str.strip] and the
    case-insensitive comparison of [re.IGNORECASE] are written out exactly as
    CPython 3 computes them. *)

From Stdlib Require Import Ascii String DecimalString.
From Stdlib Require Import Bool Arith NArith ZArith Lia List.
Import ListNotations.
Open Scope list_scope.

Arguments Ascii.eqb : simpl never.

(* ===================================================================== *)
(** ** Python strings                                                     *)
(* ===================================================================== *)

Definition str := list ascii.

(** A string literal of the source. *)
Definition L (s : string) : str := list_ascii_of_string s.

Definition code (c : ascii) : N := N_of_ascii c.

Definition in_range (lo hi : N) (c : ascii) : bool :=
  ((lo <=? code c) && (code c <=? hi))%N.

Definition is_code (n : N) (c : ascii) : bool := (code c =? n)%N.

(** [str.isspace] on one character, which is also the class [\s] of [re] and
    the set removed by [str.strip()]: TAB..CR, FS..US, space, NEL, NBSP. *)
Definition isspace (c : ascii) : bool :=
  in_range 9 13 c || in_range 28 32 c || is_code 133 c || is_code 160 c.

(** The class [\d]: the decimal digits; below 256 these are 0..9. *)
Definition isdecimal (c : ascii) : bool := in_range 48 57 c.

(** The class [\w]: alphanumeric characters and the underscore.  Below 256
    the alphanumerics are the ASCII letters and digits, the ordinal
    indicators, the micro sign, the superscript digits, the vulgar fractions
    and the Latin-1 letters. *)
Definition isword (c : ascii) : bool :=
  in_range 48 57 c || in_range 65 90 c || in_range 97 122 c || is_code 95 c
  || is_code 170 c || is_code 178 c || is_code 179 c || is_code 181 c
  || is_code 185 c || is_code 186 c || in_range 188 190 c
  || in_range 192 214 c || in_range 216 246 c || in_range 248 255 c.

(** [str.lower] on one character: A..Z and the Latin-1 capitals (all of
    192..222 but the multiplication sign) move up by 32. *)
Definition lower_char (c : ascii) : ascii :=
  if in_range 65 90 c || (in_range 192 222 c && negb (is_code 215 c))
  then ascii_of_N (code c + 32) else c.

(** [str.upper] on one character.  The sharp s becomes the two characters
    SS.  The micro sign and y with diaeresis have capitals above 255
    (U+039C, U+0178); they are kept as they are, which stands for a
    character that is not ASCII: [upper] is only ever searched for ASCII
    keywords, and such a search gives the same answer. *)
Definition upper_char (c : ascii) : str :=
  if is_code 223 c then L "SS"
  else if in_range 97 122 c || (in_range 224 254 c && negb (is_code 247 c))
  then [ascii_of_N (code c - 32)] else [c].

Definition lower (s : str) : str := map lower_char s.
Definition upper (s : str) : str := flat_map upper_char s.

(** [s.startswith(p)]. *)
Fixpoint startswith (p s : str) : bool :=
  match p, s with
  | [], _ => true
  | _ :: _, [] => false
  | a :: p', b :: s' => Ascii.eqb a b && startswith p' s'
  end.

(** The same comparison under [re.IGNORECASE]: characters are compared after
    lowering (the patterns of this program are ASCII, and below 256 only the
    two cases of an ASCII letter match it). *)
Fixpoint startswith_ci (p s : str) : bool :=
  match p, s with
  | [], _ => true
  | _ :: _, [] => false
  | a :: p', b :: s' =>
      Ascii.eqb (lower_char a) (lower_char b) && startswith_ci p' s'
  end.

(** [needle in s]. *)
Fixpoint contains (needle s : str) : bool :=
  startswith needle s ||
  match s with
  | [] => false
  | _ :: s' => contains needle s'
  end.

(** [any(word in s for word in words)]. *)
Definition any_in (words : list str) (s : str) : bool :=
  existsb (fun w => contains w s) words.

Fixpoint dropwhile (f : ascii -> bool) (s : str) : str :=
  match s with
  | [] => []
  | c :: s' => if f c then dropwhile f s' else s
  end.

Fixpoint takewhile (f : ascii -> bool) (s : str) : str :=
  match s with
  | [] => []
  | c :: s' => if f c then c :: takewhile f s' else []
  end.

(** [s.lstrip()], [s.rstrip()], [s.strip()] and [s.rstrip(';')]. *)
Definition lstrip (s : str) : str := dropwhile isspace s.
Definition rstrip_by (f : ascii -> bool) (s : str) : str :=
  rev (dropwhile f (rev s)).
Definition strip (s : str) : str := rstrip_by isspace (lstrip s).
Definition rstrip_semicolon (s : str) : str := rstrip_by (is_code 59) s.

(** [s.zfill(4)] for a string of digits (no sign to step over). *)
Definition zfill4 (s : str) : str := repeat "0"%char (4 - length s) ++ s.

(** [", ".join(parts)]. *)
Fixpoint join (sep : str) (parts : list str) : str :=
  match parts with
  | [] => []
  | [p] => p
  | p :: rest => p ++ sep ++ join sep rest
  end.

(** [str(n)] / [f"{n}"] for an [int]. *)
Definition str_of_int (z : Z) : str := L (NilZero.string_of_int (Z.to_int z)).

(* ===================================================================== *)
(** ** [re.sub] and [str.replace]                                         *)
(* ===================================================================== *)

(** A compiled pattern together with its replacement: given the character
    before the current position (for [\b]) and the text from the current
    position on, the length of the match that starts here and the text that
    replaces it.  No pattern of this program matches the empty string. *)
Definition matcher := option ascii -> str -> option (nat * str).

(** The scan of [re.sub] and of [str.replace]: from left to right, at each
    position try the pattern; on a match emit the replacement and go on after
    the match (matches do not overlap), else copy the character.  [skip]
    counts the characters of the current match still to be passed over. *)
Fixpoint sub_scan (m : matcher) (skip : nat) (prev : option ascii) (s : str)
  : str :=
  match s with
  | [] => []
  | c :: s' =>
      match skip with
      | S k => sub_scan m k (Some c) s'
      | O =>
          match m prev s with
          | Some (n, rep) => rep ++ sub_scan m (pred n) (Some c) s'
          | None => c :: sub_scan m 0 (Some c) s'
          end
      end
  end.

Definition re_sub (m : matcher) (s : str) : str := sub_scan m 0 None s.

(** A pattern that is a plain string, and [s.replace(old, new)]. *)
Definition m_literal (old new : str) : matcher :=
  fun _ s => if startswith old s then Some (length old, new) else None.

Definition replace (old new s : str) : str := re_sub (m_literal old new) s.

(** A plain string under [re.IGNORECASE]. *)
Definition m_literal_ci (old new : str) : matcher :=
  fun _ s => if startswith_ci old s then Some (length old, new) else None.

(** Pieces of patterns.  A piece reads a prefix of the text and gives what
    is left, or fails.  A greedy repetition of a character class takes the
    longest run; in every pattern below the piece that follows a repetition
    starts with a character outside the class (or the pattern ends), so the
    longest run is the only one [re] can succeed with. *)
Definition piece := str -> option str.

Definition p_lit (p : str) : piece :=
  fun s => if startswith p s then Some (skipn (length p) s) else None.

Definition p_lit_ci (p : str) : piece :=
  fun s => if startswith_ci p s then Some (skipn (length p) s) else None.

Definition p_star (f : ascii -> bool) : piece :=
  fun s => Some (dropwhile f s).

Definition p_plus (f : ascii -> bool) : piece :=
  fun s => match s with
           | c :: _ => if f c then Some (dropwhile f s) else None
           | [] => None
           end.

Definition p_seq (p q : piece) : piece :=
  fun s => match p s with Some s' => q s' | None => None end.

Infix ">>" := p_seq (at level 61, left associativity).

(** The pattern made of a piece, with a constant replacement. *)
Definition m_piece (p : piece) (rep : str) : matcher :=
  fun _ s => match p s with
             | Some rest => Some (length s - length rest, rep)
             | None => None
             end.

(* ===================================================================== *)
(** ** Pass 1: [_fix_facility_id_format]                                  *)
(* ===================================================================== *)

(** [r"facility_id\s*=\s*(\d+)"] with [re.IGNORECASE]; the replacement is
    computed from group 1 by [replace_facility_id]. *)
Definition replace_facility_id (facility_num : str) : str :=
  L "facility_id = '" ++ zfill4 facility_num ++ L "'".

Definition facility_id_prefix : piece :=
  p_lit_ci (L "facility_id") >> p_star isspace >> p_lit (L "=")
  >> p_star isspace.

Definition m_facility_id : matcher :=
  fun _ s =>
    match facility_id_prefix s with
    | Some rest =>
        match takewhile isdecimal rest with
        | [] => None
        | digits =>
            Some (length s - length rest + length digits,
                  replace_facility_id digits)
        end
    | None => None
    end.

Definition _fix_facility_id_format (sql_query : str) : str :=
  re_sub m_facility_id sql_query.

(* ===================================================================== *)
(** ** Pass 2: [_fix_sql_functions]                                       *)
(* ===================================================================== *)

Definition word_before (prev : option ascii) : bool :=
  match prev with Some p => isword p | None => false end.

Definition word_at (s : str) : bool :=
  match s with c :: _ => isword c | [] => false end.

(** [r'\bCOUNTIf\b'] replaced by ['countIf'] (case-sensitive).  The pattern
    starts and ends with a word character, so [\b] holds before it when no
    word character precedes and after it when no word character follows. *)
Definition m_countif : matcher :=
  fun prev s =>
    if startswith (L "COUNTIf") s
       && negb (word_before prev)
       && negb (word_at (skipn 7 s))
    then Some (7, L "countIf") else None.

Definition fix_countif (sql_query : str) : str := re_sub m_countif sql_query.

(** [r'round\(AVG\(dateDiff\([^)]+\)\)/60\.0, 2\) AS avg_time_minutes'] and
    its canonical replacement. *)
Definition not_rparen (c : ascii) : bool := negb (is_code 41 c).

Definition avg_time_canonical : str :=
  L "round(AVG(dateDiff('second', scheduled_time, completed_time))/60.0, 2) AS avg_time_minutes".

Definition m_avg_time : matcher :=
  m_piece (p_lit (L "round(AVG(dateDiff(") >> p_plus not_rparen
           >> p_lit (L "))/60.0, 2) AS avg_time_minutes"))
          avg_time_canonical.

(** The body shared by the two missing-GROUP-BY repairs. *)
Definition add_group_by (sql_query : str) : str :=
  if contains (L "ORDER BY") (upper sql_query)
  then replace (L "ORDER BY") (L "GROUP BY porter_user_id ORDER BY") sql_query
  else rstrip_semicolon sql_query ++ L " GROUP BY porter_user_id".

Definition fix_priority (sql_query : str) : str :=
  if contains (L "priority > 0") sql_query
  then replace (L "priority > 0") (L "priority = 1") sql_query
  else sql_query.

Definition fix_avg_time (sql_query : str) : str :=
  if contains (L "dateDiff") sql_query && contains (L "AVG(") sql_query
     && contains (L "avg_time") sql_query
  then re_sub m_avg_time sql_query
  else sql_query.

Definition fix_count_group_by (sql_query : str) : str :=
  if contains (L "COUNT(") (upper sql_query)
     && negb (contains (L "GROUP BY") (upper sql_query))
     && contains (L "porter_user_id") sql_query
  then add_group_by sql_query
  else sql_query.

Definition fix_round_group_by (sql_query : str) : str :=
  if contains (L "SELECT porter_user_id") sql_query
     && contains (L "round(") sql_query
     && negb (contains (L "GROUP BY") (upper sql_query))
  then add_group_by sql_query
  else sql_query.

Definition _fix_sql_functions (sql_query : str) : str :=
  fix_round_group_by
    (fix_count_group_by (fix_avg_time (fix_priority (fix_countif sql_query)))).

(* ===================================================================== *)
(** ** Pass 3: [_fix_null_empty_handling]                                 *)
(* ===================================================================== *)

(** ["(field IS NULL OR field = '')"]. *)
Definition both_conditions (field : str) : str :=
  L "(" ++ field ++ L " IS NULL OR " ++ field ++ L " = '')".

(** [field\s+IS\s+NULL] and [field\s*=\s*''], both with [re.IGNORECASE]. *)
Definition m_is_null (field : str) : matcher :=
  m_piece (p_lit_ci field >> p_plus isspace >> p_lit_ci (L "IS")
           >> p_plus isspace >> p_lit_ci (L "NULL"))
          (both_conditions field).

Definition m_eq_empty (field : str) : matcher :=
  m_piece (p_lit_ci field >> p_star isspace >> p_lit_ci (L "=")
           >> p_star isspace >> p_lit_ci (L "''"))
          (both_conditions field).

Definition nullable_fields : list str :=
  [L "comments"; L "remarks"; L "porter_user_id"; L "patient_id"].

Definition fix_comp_manually (question_lower sql_query : str) : str :=
  if contains (L "comp_manually") question_lower then
    if contains (L "null") question_lower
    then re_sub (m_is_null (L "comp_manually")) sql_query
    else if contains (L "empty") question_lower
    then re_sub (m_eq_empty (L "comp_manually")) sql_query
    else sql_query
  else sql_query.

Definition fix_field (question_lower : str) (sql_query field : str) : str :=
  if contains field question_lower
  then re_sub (m_eq_empty field) (re_sub (m_is_null field) sql_query)
  else sql_query.

Definition _fix_null_empty_handling (sql_query user_question : str) : str :=
  let question_lower := lower user_question in
  if contains (L "null") question_lower || contains (L "empty") question_lower
  then fold_left (fix_field question_lower) nullable_fields
                 (fix_comp_manually question_lower sql_query)
  else sql_query.

(* ===================================================================== *)
(** ** Pass 4: [_enhance_date_queries]                                    *)
(* ===================================================================== *)

Definition to_date (col : str) : str := L "toDate(" ++ col ++ L ")".

Definition to_date_tz (col : str) : str :=
  L "toDate(toTimeZone(" ++ col ++ L ", 'Asia/Kolkata'))".

(** One rewrite [toDate(col)] to [toDate(toTimeZone(col, 'Asia/Kolkata'))];
    the pattern [toDate\(col\)] is a plain string. *)
Definition localize_to_date (sql_query col : str) : str :=
  re_sub (m_literal (to_date col) (to_date_tz col)) sql_query.

(** The columns the first step rewrites: [scheduled_time], then the list of
    the loop. *)
Definition localized_columns : list str :=
  [L "scheduled_time"; L "start_time"; L "end_time"; L "completed_time";
   L "assigned_time"].

Definition timestamp_cols : list str :=
  [L "scheduled_time"; L "start_time"; L "end_time"; L "assigned_time";
   L "accepted_time"; L "arrived_time"; L "cancelled_time"; L "onhold_time";
   L "inprogress_time"; L "rejected_time"; L "completed_time"].

Definition basic_columns : list str :=
  [L "id"; L "facility_id"; L "requester_user_id"; L "porter_user_id";
   L "request_performer_status"; L "priority"; L "comments"].

Definition select_clause : str :=
  L "SELECT " ++
  join (L ", ")
       (basic_columns ++
        map (fun col => L "toTimeZone(" ++ col ++ L ", 'Asia/Kolkata') as " ++ col)
            timestamp_cols).

Definition expand_select_star (question_lower sql_query : str) : str :=
  if contains (L "SELECT *") sql_query
     && any_in [L "show"; L "list"; L "display"] question_lower
     && negb (contains (L "count") question_lower)
  then replace (L "SELECT *") select_clause sql_query
  else sql_query.

Definition lit_sub (old new sql_query : str) : str :=
  re_sub (m_literal old new) sql_query.

Definition fix_june_2 (question_lower sql_query : str) : str :=
  if contains (L "june 2") question_lower then
    let sql_query := lit_sub (L "'2025-06-01'") (L "'2025-06-02'") sql_query in
    let sql_query := lit_sub (L "'06-01'") (L "'2025-06-02'") sql_query in
    let sql_query := lit_sub (L "'06-02'") (L "'2025-06-02'") sql_query in
    if negb (contains (to_date_tz (L "scheduled_time")) sql_query)
       && contains (to_date (L "scheduled_time")) sql_query
    then replace (to_date (L "scheduled_time"))
                 (to_date_tz (L "scheduled_time")) sql_query
    else sql_query
  else sql_query.

Definition fix_june_1 (question_lower sql_query : str) : str :=
  if contains (L "june 1") question_lower then
    lit_sub (L "'06-02'") (L "'2025-06-01'")
            (lit_sub (L "'2025-06-02'") (L "'2025-06-01'") sql_query)
  else sql_query.

Definition fix_may_31 (question_lower sql_query : str) : str :=
  if contains (L "may 31") question_lower then
    re_sub (m_literal_ci (L "'May 31'") (L "'2025-05-31'"))
           (lit_sub (L "'05-31'") (L "'2025-05-31'") sql_query)
  else sql_query.

Definition fix_last_request (question_lower sql_query : str) : str :=
  if contains (L "last request") question_lower
     && negb (contains (L "order by") (lower sql_query))
  then rstrip_semicolon sql_query ++ L " ORDER BY scheduled_time DESC LIMIT 1"
  else sql_query.

Definition hour_select : str :=
  L "toHour(toTimeZone(scheduled_time, 'Asia/Kolkata')) AS request_hour".

Definition hour_range_select : str :=
  L "concat(toString(toHour(toTimeZone(scheduled_time, 'Asia/Kolkata'))), ':00 - ', toString(toHour(toTimeZone(scheduled_time, 'Asia/Kolkata'))), ':59') AS time_range, toHour(toTimeZone(scheduled_time, 'Asia/Kolkata')) AS hour_number".

Definition fix_hourly (question_lower sql_query : str) : str :=
  if contains (L "hourly") question_lower
     || contains (L "hour by hour") question_lower
  then
    if contains hour_select sql_query
    then replace (L "GROUP BY request_hour ORDER BY request_hour")
                 (L "GROUP BY toHour(toTimeZone(scheduled_time, 'Asia/Kolkata')) ORDER BY hour_number")
                 (replace hour_select hour_range_select sql_query)
    else sql_query
  else sql_query.

(** [(january|...|december)\s+2025], searched in the lowered question; the
    value is the number the dictionary gives the month that matched. *)
Definition months : list (str * Z) :=
  [(L "january", 1%Z); (L "february", 2%Z); (L "march", 3%Z);
   (L "april", 4%Z); (L "may", 5%Z); (L "june", 6%Z); (L "july", 7%Z);
   (L "august", 8%Z); (L "september", 9%Z); (L "october", 10%Z);
   (L "november", 11%Z); (L "december", 12%Z)].

Definition month_here (s : str) (m : str * Z) : bool :=
  match (p_lit (fst m) >> p_plus isspace >> p_lit (L "2025")) s with
  | Some _ => true
  | None => false
  end.

Definition month_at (s : str) : option Z :=
  option_map snd (find (month_here s) months).

Fixpoint month_search (s : str) : option Z :=
  match month_at s with
  | Some n => Some n
  | None => match s with
            | [] => None
            | _ :: s' => month_search s'
            end
  end.

Definition fix_month (question_lower sql_query : str) : str :=
  match month_search question_lower with
  | Some month_num =>
      if contains (L "per day") question_lower
         && negb (contains (L "GROUP BY") (upper sql_query))
      then
        let sql_query :=
          replace (L "FROM fact_porter_request")
                  (L "FROM fact_porter_request WHERE toYear(toTimeZone(scheduled_time, 'Asia/Kolkata')) = 2025 AND toMonth(toTimeZone(scheduled_time, 'Asia/Kolkata')) = "
                   ++ str_of_int month_num)
                  sql_query in
        if contains (L "SELECT") (upper sql_query)
           && negb (contains (L "GROUP BY") (upper sql_query))
        then replace (L "ORDER BY")
                     (L "GROUP BY toDate(toTimeZone(scheduled_time, 'Asia/Kolkata')) ORDER BY")
                     sql_query
        else sql_query
      else sql_query
  | None => sql_query
  end.

Definition _enhance_date_queries (sql_query user_question : str) : str :=
  let question_lower := lower user_question in
  let sql_query := fold_left localize_to_date localized_columns sql_query in
  let sql_query := expand_select_star question_lower sql_query in
  let sql_query := fix_june_2 question_lower sql_query in
  let sql_query := fix_june_1 question_lower sql_query in
  let sql_query := fix_may_31 question_lower sql_query in
  let sql_query := fix_last_request question_lower sql_query in
  let sql_query := fix_hourly question_lower sql_query in
  fix_month question_lower sql_query.

(** The repair pipeline of [convert_to_sql]: passes 1 to 4 in order. *)
Definition repair (sql_query user_question : str) : str :=
  _enhance_date_queries
    (_fix_null_empty_handling
       (_fix_sql_functions (_fix_facility_id_format sql_query))
       user_question)
    user_question.

(* ===================================================================== *)
(** ** The explainer: [_generate_explanation]                             *)
(* ===================================================================== *)

(** The value is [None] where the Python function falls off its end: its
    last [else] branch only defines a nested function and returns nothing. *)
Definition _generate_explanation (question sql : str) : option str :=
  let question_lower := lower question in
  let sql_lower := lower sql in
  let q := fun w => contains w question_lower in
  (* Count-based queries *)
  if any_in [L "count"; L "how many"; L "number of"] question_lower then
    if q (L "facility") then
      Some (L "This query counts the total number of requests for each facility in the database.")
    else if q (L "porter") then
      Some (L "This query counts how many requests each porter has handled.")
    else if q (L "status") then
      Some (L "This query breaks down the total requests by their current status.")
    else if q (L "asset category") then
      Some (L "This query shows the distribution of requests across different asset categories.")
    else if q (L "service group") then
      Some (L "This query counts requests grouped by their service group classification.")
    else if q (L "priority") then
      Some (L "This query shows how many requests exist at each priority level.")
    else
      Some (L "This query counts records and groups them by the specified criteria.")
  (* TAT (Turnaround Time) queries *)
  else if any_in [L "tat"; L "turnaround"; L "average time"] question_lower then
    if q (L "minimum") || q (L "min") then
      Some (L "This query finds which porter has the fastest average turnaround time (from scheduled to completed).")
    else if q (L "maximum") || q (L "max") then
      Some (L "This query identifies which porter has the slowest average turnaround time.")
    else if q (L "facility") then
      Some (L "This query calculates the average turnaround time for each facility, showing operational efficiency.")
    else if q (L "porter") then
      Some (L "This query shows each porter's average turnaround time performance.")
    else if q (L "over") && q (L "minutes") then
      Some (L "This query finds all requests that took longer than the specified time to complete.")
    else
      Some (L "This query calculates turnaround time (the duration from when a request was scheduled to when it was completed).")
  (* Status-based queries *)
  else if any_in [L "cancelled"; L "completed"; L "in progress"; L "assigned"]
                 question_lower then
    if q (L "cancelled") then
      if q (L "facility") then
        Some (L "This query shows all cancelled requests for the specified facility.")
      else
        Some (L "This query retrieves all requests that were cancelled before completion.")
    else if q (L "completed") then
      Some (L "This query shows all successfully completed requests.")
    else if q (L "in progress") then
      Some (L "This query finds all requests that are currently being worked on.")
    else if q (L "assigned") then
      Some (L "This query shows requests that have been assigned to porters but may not have started yet.")
    else
      Some (L "This query filters requests based on their current status.")
  (* Date-based queries *)
  else if any_in [L "today"; L "yesterday"; L "may"; L "june"; L "date";
                  L "last week"; L "between"] question_lower then
    if q (L "today") then
      Some (L "This query shows all requests scheduled for today.")
    else if q (L "yesterday") then
      Some (L "This query shows all requests from yesterday.")
    else if q (L "last week") || q (L "past") then
      Some (L "This query retrieves requests from the specified time period.")
    else if q (L "between") then
      Some (L "This query shows requests within the specified date range.")
    else
      Some (L "This query filters requests based on their scheduled date.")
  (* Porter-related queries *)
  else if q (L "porter") then
    if q (L "most") then
      Some (L "This query identifies the porter who has handled the highest number of requests.")
    else if q (L "performance") then
      Some (L "This query analyzes porter performance metrics including completion rates and efficiency.")
    else if q (L "workload") then
      Some (L "This query shows how requests are distributed among different porters.")
    else if q (L "efficiency") then
      Some (L "This query calculates various efficiency metrics for each porter.")
    else
      Some (L "This query analyzes porter-related data and performance.")
  (* Facility-related queries *)
  else if q (L "facility") then
    if q (L "most") then
      Some (L "This query identifies which facility generates the highest volume of requests.")
    else if q (L "zero") then
      Some (L "This query finds facilities that have no cancelled requests.")
    else
      Some (L "This query analyzes data grouped by facility.")
  (* Percentage/rate queries *)
  else if any_in [L "percentage"; L "rate"; L "%"] question_lower then
    Some (L "This query calculates percentage or rate metrics to show proportional relationships in the data.")
  (* Discovery queries *)
  else if any_in [L "unique"; L "distribution"; L "common"; L "patterns"]
                 question_lower then
    Some (L "This query explores data patterns and distributions to provide insights.")
  (* Complex queries *)
  else if q (L "and") || q (L "with") then
    Some (L "This query applies multiple filters to find records matching all specified criteria.")
  (* Default based on SQL structure *)
  else if contains (L "group by") sql_lower then
    Some (L "This query groups data by specific criteria and provides aggregate information.")
  else if contains (L "order by") sql_lower && contains (L "desc") sql_lower then
    Some (L "This query sorts results in descending order to show the highest values first.")
  else if contains (L "join") sql_lower then
    Some (L "This query combines data from multiple tables to provide enriched information.")
  else
    None.

(* ===================================================================== *)
(** ** The result table and the chart decision                            *)
(* ===================================================================== *)

(** The kinds of column types pandas distinguishes. *)
Inductive dtype : Type :=
| dt_int | dt_uint | dt_float | dt_complex | dt_bool
| dt_object | dt_datetime | dt_timedelta | dt_category | dt_string.

(** [pd.api.types.is_numeric_dtype]. *)
Definition is_numeric_dtype (t : dtype) : bool :=
  match t with
  | dt_int | dt_uint | dt_float | dt_complex | dt_bool => true
  | _ => false
  end.

(** A [pd.DataFrame] as far as the modelled code looks at it: the named,
    typed columns and the number of rows (the length of the index).  No
    modelled function reads a cell. *)
Record DataFrame : Type := {
  columns : list (str * dtype);
  index_length : nat
}.

(** [len(df)] and [df.empty] (some axis has length 0). *)
Definition len (df : DataFrame) : nat := index_length df.

Definition empty (df : DataFrame) : bool :=
  (length (columns df) =? 0)%nat || (index_length df =? 0)%nat.

(** [pd.DataFrame()]. *)
Definition empty_frame : DataFrame := {| columns := []; index_length := 0 |}.

Definition chart_keywords : list str :=
  [L "count"; L "average"; L "sum"; L "total"; L "by"; L "group";
   L "distribution"; L "trends"; L "patterns"; L "volume"; L "per day";
   L "daily"; L "hourly"].

Definition should_create_chart (df : DataFrame) (question : str) : bool :=
  if empty df || (100 <? len df) then false
  else
    let has_numeric :=
      existsb (fun col => is_numeric_dtype (snd col)) (columns df) in
    let has_categorical := 2 <=? length (columns df) in
    let should_chart :=
      any_in chart_keywords (lower question) && has_numeric
      && has_categorical && (2 <=? len df) in
    if any_in [L "daily"; L "hourly"; L "per day"; L "trends";
               L "distribution"; L "patterns"] (lower question)
    then true
    else should_chart.

(* ===================================================================== *)
(** ** The executor wrapper: [ClickHouseConnection.execute_query]         *)
(* ===================================================================== *)

(** The condition of the [if]: [limit and limit > 0 and
    query.strip().upper().startswith('SELECT') and
    'LIMIT' not in query.upper()]. *)
Definition limit_applies (query : str) (limit : option Z) : bool :=
  match limit with
  | None => false
  | Some n =>
      negb (n =? 0)%Z && (0 <? n)%Z
      && startswith (L "SELECT") (upper (strip query))
      && negb (contains (L "LIMIT") (upper query))
  end.

(** The text handed to [client.query_df]. *)
Definition sent_query (query : str) (limit : option Z) : str :=
  match limit with
  | Some n =>
      if limit_applies query limit
      then query ++ L " LIMIT " ++ str_of_int n
      else query
  | None => query
  end.

(* ===================================================================== *)
(** ** The orchestrator: [PorterChatbot]                                  *)
(* ===================================================================== *)

(** A step that may raise: the value, or the text of the exception. *)
Definition raising (A : Type) : Type := (A + str)%type.

Definition bind_raising {A B : Type} (x : raising A) (k : A -> raising B)
  : raising B :=
  match x with
  | inl a => k a
  | inr e => inr e
  end.

Notation "x <- c ;; k" := (bind_raising c (fun x => k))
  (at level 100, c at next level, right associativity).

Inductive Chart : Type := chart_of (df : DataFrame) (question : str).

(** What lies outside the modelled code: the text-generation backend, the
    database client, the clock and the three formatter functions whose
    bodies work on cell data.  Each may raise. *)
Record Env : Type := {
  chat_completion : str -> raising str;
  query_df : str -> raising DataFrame;
  now_isoformat : str;
  format_timezone : DataFrame -> raising DataFrame;
  generate_summary : DataFrame -> str -> raising str;
  create_chart : DataFrame -> str -> raising (option Chart)
}.

(** An entry of the conversation history: the dictionary [log_entry] or
    [error_log]; a key that is absent is [None]. *)
Record LogEntry : Type := {
  log_timestamp : str;
  log_question : str;
  log_sql : option str;
  log_row_count : option nat;
  log_success : bool;
  log_error : option str
}.

(** The mutable state a request can touch: the session's conversation
    history and the queries handed to the database client so far. *)
Record Session : Type := {
  conversation_history : list LogEntry;
  queries_run : list str
}.

(** The dictionary [process_query] returns. *)
Inductive Response : Type :=
| Succeeded (summary : str) (data : DataFrame) (chart : option Chart)
            (explanation : option str) (sql : str) (row_count : nat)
| Failed (error : str) (summary : str) (sql : option str).

Definition success (r : Response) : bool :=
  match r with Succeeded _ _ _ _ _ _ => true | Failed _ _ _ => false end.

(** The cross mark U+274C that starts the failure summaries lies outside the
    range of the embedding; it is written as its three UTF-8 bytes.  These
    texts are only returned, never inspected. *)
Definition cross_mark : str :=
  [ascii_of_N 226; ascii_of_N 157; ascii_of_N 140].

Definition summary_not_understood : str :=
  cross_mark ++ L " Unable to understand your question. Please try rephrasing.".

Definition summary_query_failed : str :=
  cross_mark ++ L " Database query failed. Please try a different question.".

Definition summary_exception : str :=
  cross_mark ++ L " An error occurred while processing your request.".

(** [convert_to_sql]: any exception of the backend call is caught and turned
    into an empty query with an error explanation. *)
Definition convert_to_sql (env : Env) (user_question : str)
  : str * option str :=
  match chat_completion env user_question with
  | inl content =>
      let sql_query := strip content in
      let sql_query :=
        strip (replace (L "```") [] (replace (L "```sql") [] sql_query)) in
      let sql_query := repair sql_query user_question in
      (sql_query, _generate_explanation user_question sql_query)
  | inr e => ([], Some (L "Error generating SQL: " ++ e))
  end.

(** [execute_query]: the query, with its LIMIT when that applies, is handed
    to the client; an exception gives an empty frame and [False]. *)
Definition execute_query (env : Env) (query : str) (limit : option Z)
  (st : Session) : (DataFrame * bool) * Session :=
  let query := sent_query query limit in
  let st := {| conversation_history := conversation_history st;
               queries_run := queries_run st ++ [query] |} in
  match query_df env query with
  | inl result => ((result, true), st)
  | inr _ => ((empty_frame, false), st)
  end.

(** [_log_interaction]: append, then keep only the last 200. *)
Definition keep_last (n : nat) (h : list LogEntry) : list LogEntry :=
  skipn (length h - n) h.

Definition _log_interaction (log_entry : LogEntry) (st : Session) : Session :=
  let history := conversation_history st ++ [log_entry] in
  {| conversation_history :=
       if 200 <? length history then keep_last 200 history else history;
     queries_run := queries_run st |}.

(** The part of [process_query] after a successful execution, up to the
    point where the entry is logged; an exception anywhere in it reaches the
    handler of [process_query]. *)
Definition present (env : Env) (df : DataFrame) (user_question : str)
  : raising (DataFrame * str * option Chart) :=
  df_formatted <- format_timezone env df ;;
  summary <- generate_summary env df user_question ;;
  chart <- (if should_create_chart df user_question
            then create_chart env df user_question
            else inl None) ;;
  inl (df_formatted, summary, chart).

Definition process_query (env : Env) (user_question : str)
  (row_limit : option Z) (st : Session) : Response * Session :=
  let '(sql_query, explanation) := convert_to_sql env user_question in
  match sql_query with
  | [] =>
      (Failed (L "Failed to generate SQL query") summary_not_understood None,
       st)
  | _ :: _ =>
      let '((df, ok), st) := execute_query env sql_query row_limit st in
      if negb ok then
        (Failed (L "Query execution failed") summary_query_failed
                (Some sql_query), st)
      else
        match present env df user_question with
        | inl (df_formatted, summary, chart) =>
            let log_entry :=
              {| log_timestamp := now_isoformat env;
                 log_question := user_question;
                 log_sql := Some sql_query;
                 log_row_count := Some (len df);
                 log_success := true;
                 log_error := None |} in
            (Succeeded summary df_formatted chart explanation sql_query
                       (len df),
             _log_interaction log_entry st)
        | inr e =>
            let error_log :=
              {| log_timestamp := now_isoformat env;
                 log_question := user_question;
                 log_sql := None;
                 log_row_count := None;
                 log_success := false;
                 log_error := Some e |} in
            (Failed e summary_exception None, _log_interaction error_log st)
        end
  end.

(* ===================================================================== *)
(** ** The error analysis of the page: [analyze_error]                    *)
(* ===================================================================== *)

(** [str.isdigit] on one character: below 256, the decimal digits and the
    superscript digits one, two and three. *)
Definition isdigit (c : ascii) : bool :=
  in_range 48 57 c || is_code 178 c || is_code 179 c || is_code 185 c.

Definition analyze_error (question sql error : str) : str :=
  let question_lower := lower question in
  let error_lower := lower error in
  (* No results vs actual errors *)
  if contains (L "no results") error_lower then
    if any_in [L "facility"; L "porter"] question_lower
       && existsb isdigit question then
      L "The specified facility/porter ID might not exist in the database."
    else if any_in [L "may"; L "june"; L "date"; L "year"] question_lower then
      L "The specified date might be outside the available data range."
    else if contains (L "null") question_lower then
      L "No records found with NULL values for the specified field."
    else if contains (L "future") question_lower then
      L "No requests are scheduled for future dates."
    else if contains (L "negative") question_lower then
      L "No records found with negative values (which is expected)."
    else
      L "No records match your search criteria."
  (* SQL syntax errors *)
  else if contains (L "syntax error") error_lower
          || contains (L "parse") error_lower then
    L "The generated SQL query has syntax issues. Try rephrasing your question."
  (* Column errors *)
  else if contains (L "column") error_lower
          && contains (L "exist") error_lower then
    L "The query references a column that doesn't exist in the database."
  (* Function errors *)
  else if contains (L "function") error_lower then
    if contains (L "countif") (lower sql) then
      L "The database doesn't support the COUNTIf function. Try rephrasing the query."
    else
      L "The query uses a function that's not supported by this database."
  (* Data type errors *)
  else if contains (L "type") error_lower
          || contains (L "convert") error_lower then
    L "There's a data type mismatch in the query. Check date formats or numeric values."
  (* Permission errors *)
  else if contains (L "permission") error_lower
          || contains (L "access") error_lower then
    L "Database access permission issue."
  (* Connection errors *)
  else if contains (L "connection") error_lower
          || contains (L "timeout") error_lower then
    L "Database connection problem. Please try again."
  else
    L "An unexpected database error occurred.".

(** What the page of [main] hands to [analyze_error] for a response that
    failed: [analyze_error(user_input, result.get('sql', ''),
    result.get('error', ''))].  A response that succeeded is not analysed. *)
Definition error_analysis (user_input : str) (result : Response)
  : option str :=
  match result with
  | Failed error _ sql =>
      Some (analyze_error user_input
              (match sql with Some q => q | None => [] end) error)
  | Succeeded _ _ _ _ _ _ => None
  end.

(* ===================================================================== *)
(** ** The formatter: [ResultFormatter]                                   *)
(* ===================================================================== *)

(** The call a figure is made with: which [plotly.express] function, on
    which two columns, with which title.  A title or a label is made from a
    column name by [col.replace('_', ' ').title()]; it is kept as the name
    of the column it is made from. *)
Inductive chart_kind : Type := line_chart | pie_chart | bar_chart.

Inductive chart_title : Type :=
| title_over_time (y_col : str)
| title_distribution_of (y_col : str)
| title_distribution_by (x_col : str)
| title_average_by (y_col x_col : str)
| title_data_visualization.

Record Figure : Type := {
  fig_kind : chart_kind;
  fig_x : str;
  fig_y : str;
  fig_title : chart_title;
  fig_labels : list str;
  fig_markers : bool
}.

Module ResultFormatter.

(** The check mark U+2705, as its three UTF-8 bytes. *)
Definition check_mark : str :=
  [ascii_of_N 226; ascii_of_N 156; ascii_of_N 133].

(** [f"{n:,}"] for a natural number: the decimal numeral with a comma
    before every group of three digits, counted from the right. *)
Fixpoint commas_rev (r : str) : str :=
  match r with
  | a :: b :: c :: ((_ :: _) as rest) =>
      a :: b :: c :: ","%char :: commas_rev rest
  | _ => r
  end.

Definition with_commas (n : nat) : str :=
  rev (commas_rev (rev (str_of_int (Z.of_nat n)))).

Definition count_column (col : str * dtype) : bool :=
  contains (L "count") (lower (fst col)).

(** [generate_summary].  [count_text df col] stands for
    [f"{df.iloc[0][col]:,}"], the formatted cell of the first row: it works
    on cell data and may raise. *)
Definition generate_summary (count_text : DataFrame -> str -> raising str)
  (df : DataFrame) (question : str) : raising str :=
  if empty df then inl (cross_mark ++ L " No results found for your query.")
  else
    let row_count := len df in
    let q := lower question in
    if any_in [L "count"; L "how many"; L "number"] q then
      if (row_count =? 1)%nat && existsb count_column (columns df) then
        (* Single count result *)
        match find count_column (columns df) with
        | Some count_col =>
            count_value <- count_text df (fst count_col) ;;
            inl (check_mark ++ L " Found " ++ count_value
                 ++ L " records matching your criteria.")
        | None => inr []
        end
      else
        inl (check_mark ++ L " Found " ++ with_commas row_count
             ++ L " different groups/categories in the results.")
    else if any_in [L "average"; L "avg"; L "mean"] q then
      inl (check_mark ++ L " Calculated average values across "
           ++ with_commas row_count ++ L " records.")
    else if any_in [L "minimum"; L "min"; L "lowest"] q then
      inl (check_mark ++ L " Found the minimum value from the dataset.")
    else if any_in [L "maximum"; L "max"; L "highest"; L "most"] q then
      inl (check_mark ++ L " Found the maximum value from the dataset.")
    else if contains (L "tat") q || contains (L "turnaround") q then
      inl (check_mark ++ L " Analyzed turnaround time data for "
           ++ with_commas row_count ++ L " records.")
    else if any_in [L "over"; L "above"; L "greater than"] q then
      inl (check_mark ++ L " Found " ++ with_commas row_count
           ++ L " records that meet your criteria.")
    else if any_in [L "daily"; L "hourly"; L "trends"; L "patterns"] q then
      inl (check_mark ++ L " Analyzed " ++ with_commas row_count
           ++ L " time periods showing the requested patterns.")
    else if any_in [L "facility"; L "porter"; L "status"] q then
      inl (check_mark ++ L " Retrieved " ++ with_commas row_count
           ++ L " records grouped by your specified criteria.")
    else
      inl (check_mark ++ L " Retrieved " ++ with_commas row_count
           ++ L " records matching your query.").

(** The loop of [create_chart] over the columns: the last column whose
    lowered name holds [time] or [hour], and the last of the others whose
    lowered name holds [count]. *)
Definition time_column (col : str) : bool :=
  contains (L "time") (lower col) || contains (L "hour") (lower col).

Definition find_step (found : option str * option str) (col : str)
  : option str * option str :=
  if time_column col then (Some col, snd found)
  else if contains (L "count") (lower col) then (fst found, Some col)
  else found.

Definition find_columns (cols : list str) : option str * option str :=
  fold_left find_step cols (None, None).

(** The truth value of a column name or [None]. *)
Definition truthy (col : option str) : bool :=
  match col with Some (_ :: _) => true | _ => false end.

(** [create_chart]: [None] for fewer than two columns, else the figure. *)
Definition create_chart (df : DataFrame) (question : str) : option Figure :=
  let cols := map fst (columns df) in
  match cols with
  | first :: second :: _ =>
      let '(x_col, y_col) :=
        if contains (L "hourly") (lower question)
           || contains (L "hour") (lower question)
        then
          let '(time_col, count_col) := find_columns cols in
          if truthy time_col && truthy count_col
          then (match time_col with Some c => c | None => first end,
                match count_col with Some c => c | None => second end)
          else (first, second)
        else (first, second) in
      let question_lower := lower question in
      Some
        (if any_in [L "daily"; L "hourly"; L "trends"; L "over time";
                    L "per day"; L "patterns"] question_lower then
           {| fig_kind := line_chart; fig_x := x_col; fig_y := y_col;
              fig_title := title_over_time y_col;
              fig_labels := [x_col; y_col]; fig_markers := true |}
         else if any_in [L "distribution"; L "percentage"; L "%"]
                        question_lower
                 && (len df <=? 10)%nat then
           {| fig_kind := pie_chart; fig_x := x_col; fig_y := y_col;
              fig_title := title_distribution_of y_col;
              fig_labels := []; fig_markers := false |}
         else if contains (L "count") question_lower
                 || contains (L "number") question_lower then
           {| fig_kind := bar_chart; fig_x := x_col; fig_y := y_col;
              fig_title := title_distribution_by x_col;
              fig_labels := [x_col; y_col]; fig_markers := false |}
         else if contains (L "average") question_lower
                 || contains (L "avg") question_lower then
           {| fig_kind := bar_chart; fig_x := x_col; fig_y := y_col;
              fig_title := title_average_by y_col x_col;
              fig_labels := [x_col; y_col]; fig_markers := false |}
         else
           {| fig_kind := bar_chart; fig_x := x_col; fig_y := y_col;
              fig_title := title_data_visualization;
              fig_labels := [x_col; y_col]; fig_markers := false |})
  | _ => None
  end.

End ResultFormatter.

(* ===================================================================== *)
(** ** The configuration: [config.py] and the choice of the backend       *)
(* ===================================================================== *)

(** The attributes of [Config] that hold texts the modelled code reads. *)
Record Config : Type := {
  AZURE_OPENAI_ENDPOINT : str;
  AZURE_OPENAI_API_KEY : str;
  AZURE_OPENAI_DEPLOYMENT : str;
  AZURE_OPENAI_API_VERSION : str;
  OPENAI_API_KEY : str;
  OPENAI_MODEL : str;
  CLICKHOUSE_HOST : str;
  CLICKHOUSE_PASSWORD : str
}.

(** [os.getenv(name, default)] over an environment. *)
Definition getenv (environ : str -> option str) (name default : str) : str :=
  match environ name with Some v => v | None => default end.

(** [float(text)] and [int(text)] as the class body applies them to the
    numeric settings: the value, or the text of the [ValueError] raised for
    a text that is no number.  The two conversions are parameters of the
    model, and so is the type of the values of [float]. *)
Record Builtins : Type := {
  float_value : Type;
  py_float : str -> raising float_value;
  py_int : str -> raising Z
}.

(** The class body of [Config], statement by statement, for the attributes
    above: the texts are read with their defaults, and each numeric setting
    is converted where the class body converts it.  A conversion that raises
    ends the class body, and then there is no class [Config] at all; the
    values of the numeric settings are read by none of the modelled code. *)
Definition Config_of (builtins : Builtins) (environ : str -> option str)
  : raising Config :=
  let azure_openai_endpoint := getenv environ (L "AZURE_OPENAI_ENDPOINT") [] in
  let azure_openai_api_key := getenv environ (L "AZURE_OPENAI_API_KEY") [] in
  let azure_openai_deployment :=
    getenv environ (L "AZURE_OPENAI_DEPLOYMENT") (L "gpt-4o-mini") in
  let azure_openai_api_version :=
    getenv environ (L "AZURE_OPENAI_API_VERSION") (L "2025-01-01-preview") in
  let openai_api_key := getenv environ (L "OPENAI_API_KEY") [] in
  let openai_model := getenv environ (L "OPENAI_MODEL") (L "gpt-4") in
  openai_temperature <-
    py_float builtins (getenv environ (L "OPENAI_TEMPERATURE") (L "0.1")) ;;
  openai_max_tokens <-
    py_int builtins (getenv environ (L "OPENAI_MAX_TOKENS") (L "1000")) ;;
  let clickhouse_host :=
    getenv environ (L "CLICKHOUSE_HOST") (L "172.188.240.120") in
  clickhouse_port <-
    py_int builtins (getenv environ (L "CLICKHOUSE_PORT") (L "8123")) ;;
  let clickhouse_password :=
    getenv environ (L "CLICKHOUSE_PASSWORD") (L "OviCli2$5") in
  max_query_timeout <-
    py_int builtins (getenv environ (L "MAX_QUERY_TIMEOUT") (L "30")) ;;
  default_row_limit <-
    py_int builtins (getenv environ (L "DEFAULT_ROW_LIMIT") (L "100")) ;;
  flask_port <-
    py_int builtins (getenv environ (L "FLASK_PORT") (L "5000")) ;;
  inl {| AZURE_OPENAI_ENDPOINT := azure_openai_endpoint;
         AZURE_OPENAI_API_KEY := azure_openai_api_key;
         AZURE_OPENAI_DEPLOYMENT := azure_openai_deployment;
         AZURE_OPENAI_API_VERSION := azure_openai_api_version;
         OPENAI_API_KEY := openai_api_key;
         OPENAI_MODEL := openai_model;
         CLICKHOUSE_HOST := clickhouse_host;
         CLICKHOUSE_PASSWORD := clickhouse_password |}.

(** A numeric setting converts: the conversion accepts the text read for
    it, its default when it is not set. *)
Definition converts {A : Type} (conversion : str -> raising A)
  (environ : str -> option str) (name default : str) : Prop :=
  exists value, conversion (getenv environ name default) = inl value.

Definition numeric_settings_convert (builtins : Builtins)
  (environ : str -> option str) : Prop :=
  converts (py_float builtins) environ (L "OPENAI_TEMPERATURE") (L "0.1")
  /\ converts (py_int builtins) environ (L "OPENAI_MAX_TOKENS") (L "1000")
  /\ converts (py_int builtins) environ (L "CLICKHOUSE_PORT") (L "8123")
  /\ converts (py_int builtins) environ (L "MAX_QUERY_TIMEOUT") (L "30")
  /\ converts (py_int builtins) environ (L "DEFAULT_ROW_LIMIT") (L "100")
  /\ converts (py_int builtins) environ (L "FLASK_PORT") (L "5000").

(** The truth value of a text: it is not empty. *)
Definition nonempty (s : str) : bool :=
  match s with [] => false | _ :: _ => true end.

Fixpoint str_eqb (a b : str) : bool :=
  match a, b with
  | [], [] => true
  | x :: a', y :: b' => Ascii.eqb x y && str_eqb a' b'
  | _, _ => false
  end.

(** [getattr(cls, var)]; [None] stands for [AttributeError]. *)
Definition getattr (cls : Config) (var : str) : option str :=
  if str_eqb var (L "AZURE_OPENAI_ENDPOINT") then Some (AZURE_OPENAI_ENDPOINT cls)
  else if str_eqb var (L "AZURE_OPENAI_API_KEY") then Some (AZURE_OPENAI_API_KEY cls)
  else if str_eqb var (L "AZURE_OPENAI_DEPLOYMENT") then Some (AZURE_OPENAI_DEPLOYMENT cls)
  else if str_eqb var (L "AZURE_OPENAI_API_VERSION") then Some (AZURE_OPENAI_API_VERSION cls)
  else if str_eqb var (L "OPENAI_API_KEY") then Some (OPENAI_API_KEY cls)
  else if str_eqb var (L "OPENAI_MODEL") then Some (OPENAI_MODEL cls)
  else if str_eqb var (L "CLICKHOUSE_HOST") then Some (CLICKHOUSE_HOST cls)
  else if str_eqb var (L "CLICKHOUSE_PASSWORD") then Some (CLICKHOUSE_PASSWORD cls)
  else None.

(** The loop that collects the names of the required attributes that are
    empty. *)
Fixpoint missing_vars (cls : Config) (required_vars : list str)
  : raising (list str) :=
  match required_vars with
  | [] => inl []
  | var :: rest =>
      match getattr cls var with
      | None =>
          inr (L "type object 'Config' has no attribute '" ++ var ++ L "'")
      | Some value =>
          more <- missing_vars cls rest ;;
          inl (if nonempty value then more else var :: more)
      end
  end.

(** [Config.validate_config]: [True], or the text of the [ValueError]. *)
Definition validate_config (cls : Config) : raising bool :=
  let required_vars := [L "CLICKHOUSE_HOST"; L "CLICKHOUSE_PASSWORD"] in
  let has_azure_openai :=
    nonempty (AZURE_OPENAI_ENDPOINT cls) && nonempty (AZURE_OPENAI_API_KEY cls) in
  let has_regular_openai := nonempty (OPENAI_API_KEY cls) in
  let required_vars :=
    if negb has_azure_openai && negb has_regular_openai
    then required_vars ++ [L "AZURE_OPENAI_ENDPOINT"; L "AZURE_OPENAI_API_KEY"]
    else required_vars in
  missing <- missing_vars cls required_vars ;;
  match missing with
  | [] => inl true
  | _ :: _ =>
      inr (L "Missing required configuration variables: "
           ++ join (L ", ") missing)
  end.

(** The client [NLPToSQLConverter.__init__] builds, with the model it will
    ask for. *)
Inductive Client : Type :=
| AzureOpenAI (azure_endpoint api_key api_version : str)
| OpenAI (api_key : str).

Record NLPToSQLConverter : Type := {
  client : Client;
  model : str;
  is_azure : bool
}.

(** [NLPToSQLConverter.__init__], the constant schema text apart: the
    converter, or the text of the [ValueError]. *)
Definition NLPToSQLConverter_init (cfg : Config) : raising NLPToSQLConverter :=
  if nonempty (AZURE_OPENAI_ENDPOINT cfg) && nonempty (AZURE_OPENAI_API_KEY cfg)
  then inl {| client := AzureOpenAI (AZURE_OPENAI_ENDPOINT cfg)
                                    (AZURE_OPENAI_API_KEY cfg)
                                    (AZURE_OPENAI_API_VERSION cfg);
              model := AZURE_OPENAI_DEPLOYMENT cfg;
              is_azure := true |}
  else if nonempty (OPENAI_API_KEY cfg)
  then inl {| client := OpenAI (OPENAI_API_KEY cfg);
              model := OPENAI_MODEL cfg;
              is_azure := false |}
  else inr (L "No OpenAI configuration found").

(* ===================================================================== *)
(** ** The HTTP interface: [api.py]                                       *)
(* ===================================================================== *)

(** A parsed JSON value, as [request.get_json()] gives it.  Of a float the
    code only looks at whether it is zero. *)
#[local] Set Warnings "-register-all".
Inductive json : Type :=
| JNull
| JBool (b : bool)
| JInt (n : Z)
| JFloat (nonzero : bool)
| JString (s : str)
| JArray (items : list json)
| JObject (members : list (str * json)).

(** The truth value of a parsed JSON value. *)
Definition json_truthy (v : json) : bool :=
  match v with
  | JNull => false
  | JBool b => b
  | JInt n => negb (n =? 0)%Z
  | JFloat nonzero => nonzero
  | JString s => nonempty s
  | JArray items => match items with [] => false | _ :: _ => true end
  | JObject members => match members with [] => false | _ :: _ => true end
  end.

(** The text of the [AttributeError] for a method a value does not have. *)
Definition type_name (v : json) : str :=
  match v with
  | JNull => L "NoneType"
  | JBool _ => L "bool"
  | JInt _ => L "int"
  | JFloat _ => L "float"
  | JString _ => L "str"
  | JArray _ => L "list"
  | JObject _ => L "dict"
  end.

Definition no_attribute (v : json) (attribute : str) : str :=
  L "'" ++ type_name v ++ L "' object has no attribute '" ++ attribute
  ++ L "'".

(** [data.get(key)] on a parsed object: of the members with the same key the
    last one counts. *)
Fixpoint dict_get (members : list (str * json)) (key : str) : option json :=
  match members with
  | [] => None
  | (k, v) :: rest =>
      match dict_get rest key with
      | Some w => Some w
      | None => if str_eqb k key then Some v else None
      end
  end.

Definition get_default (members : list (str * json)) (key : str)
  (default : json) : json :=
  match dict_get members key with Some v => v | None => default end.

(** The dictionary of [format_response]; a key that is absent is [None]. *)
Record ApiResponse (D : Type) : Type := {
  r_success : bool;
  r_timestamp : str;
  r_message : str;
  r_data : option D;
  r_error : option str
}.
Arguments r_success {D}.
Arguments r_timestamp {D}.
Arguments r_message {D}.
Arguments r_data {D}.
Arguments r_error {D}.

(** The dictionary of [serialize_dataframe]; [s_data] is the frame whose
    [to_dict('records')] is sent, [None] for the empty list. *)
Record Serialized : Type := {
  s_columns : list str;
  s_data : option DataFrame;
  s_row_count : nat
}.

(** The [data] of the answer to [/query]; [q_chart_data] is the chart whose
    JSON is sent. *)
Record QueryData : Type := {
  q_summary : str;
  q_results : Serialized;
  q_explanation : option str;
  q_row_count : nat;
  q_chart_data : option Chart;
  q_chart_error : option str
}.

(** The [data] of the answer to [/health]. *)
Record HealthData : Type := {
  api_status : str;
  chatbot_status : str;
  database_status : str;
  h_timestamp : str
}.

(** What lies outside [api.py]: the parsed body of the request (or the
    exception of [get_json]), the clock, the truth value and the JSON of a
    figure, and [jsonify] on the data of a successful answer (the other
    answers hold texts and truth values only). *)
Record Flask : Type := {
  get_json : raising json;
  now : str;
  chart_truthy : Chart -> bool;
  chart_to_json : Chart -> raising unit;
  jsonify_data : QueryData -> raising unit;
  DEFAULT_ROW_LIMIT : Z
}.

Module api.

(** [PorterChatbot.process_query], which [api.process_query] calls. *)
Definition chatbot_process_query := process_query.

Definition format_response {D : Type} (now : str) (success : bool)
  (data : option D) (message error : str) : ApiResponse D :=
  {| r_success := success;
     r_timestamp := now;
     r_message := message;
     r_data := if success then data else None;
     r_error := if negb success && nonempty error then Some error else None |}.

Definition serialize_dataframe (df : DataFrame) : Serialized :=
  if empty df
  then {| s_columns := []; s_data := None; s_row_count := 0 |}
  else {| s_columns := map fst (columns df);
          s_data := Some df;
          s_row_count := len df |}.

(** The handler of [POST /query]: the answer, its status and the session
    afterwards.  [chatbot] is the global, [None] before it is set. *)
Definition process_query (chatbot : option Env) (flask : Flask)
  (st : Session) : (ApiResponse QueryData * nat) * Session :=
  let failed (error : str) (status : nat) (st : Session) :=
    ((format_response (now flask) false None [] error, status), st) in
  match chatbot with
  | None => failed (L "Chatbot not initialized") 500 st
  | Some env =>
      match get_json flask with
      | inr e => failed e 500 st
      | inl data =>
          if negb (json_truthy data)
          then failed (L "No JSON data provided") 400 st
          else
            match data with
            | JObject members =>
                match get_default members (L "question") (JString []) with
                | JString s =>
                    let question := strip s in
                    if negb (nonempty question)
                    then failed (L "Question is required") 400 st
                    else
                      let limit :=
                        get_default members (L "limit")
                                    (JInt (DEFAULT_ROW_LIMIT flask)) in
                      let include_chart :=
                        get_default members (L "include_chart")
                                    (JBool false) in
                      let '(result, st) :=
                        chatbot_process_query env question None st in
                      match result with
                      | Failed error summary _ =>
                          ((format_response (now flask) false None summary
                                            error, 400), st)
                      | Succeeded summary data chart explanation _ row_count =>
                          let with_chart :=
                            match chart with
                            | Some fig =>
                                if json_truthy include_chart
                                   && chart_truthy flask fig
                                then
                                  match chart_to_json flask fig with
                                  | inl _ => (Some fig, None)
                                  | inr _ =>
                                      (None,
                                       Some (L "Chart generation failed"))
                                  end
                                else (None, None)
                            | None => (None, None)
                            end in
                          let response_data :=
                            {| q_summary := summary;
                               q_results := serialize_dataframe data;
                               q_explanation := explanation;
                               q_row_count := row_count;
                               q_chart_data := fst with_chart;
                               q_chart_error := snd with_chart |} in
                          match jsonify_data flask response_data with
                          | inl _ =>
                              ((format_response (now flask) true
                                  (Some response_data)
                                  (L "Query processed successfully") [],
                                200), st)
                          | inr e => failed e 500 st
                          end
                      end
                | v => failed (no_attribute v (L "strip")) 500 st
                end
            | v => failed (no_attribute v (L "get")) 500 st
            end
      end
  end.

(** The handler of [GET /health]. *)
Definition health_check (chatbot : option Env) (flask : Flask)
  (st : Session) : (ApiResponse HealthData * nat) * Session :=
  let '(db_status, st) :=
    match chatbot with
    | Some env =>
        let '((test_df, success), st) :=
          execute_query env (L "SELECT 1 as test_connection LIMIT 1") None st in
        (if success then L "connected" else L "disconnected", st)
    | None => (L "not_initialized", st)
    end in
  ((format_response (now flask) true
      (Some {| api_status := L "running";
               chatbot_status :=
                 match chatbot with
                 | Some _ => L "ready"
                 | None => L "not_initialized"
                 end;
               database_status := db_status;
               h_timestamp := now flask |})
      (L "API is healthy") [], 200), st).

End api.


(* ===================================================================== *)
(** ** Notions used to state the properties of the rewrites               *)
(* ===================================================================== *)

(** The character before the position reached after reading [x], when [p]
    was the character before [x]. *)
Definition prev_after (p : option ascii) (x : str) : option ascii :=
  fold_left (fun _ c => Some c) x p.

(** The scan of [sub_scan] as a relation between the text and the result:
    each step copies a character where the pattern fails, or replaces a
    non-empty match. *)
Inductive scans (m : matcher) : option ascii -> str -> str -> Prop :=
| scans_nil p : scans m p [] []
| scans_copy p c s o :
    m p (c :: s) = None ->
    scans m (Some c) s o ->
    scans m p (c :: s) (c :: o)
| scans_match p x rest rep o :
    x <> [] ->
    m p (x ++ rest) = Some (length x, rep) ->
    scans m (prev_after p x) rest o ->
    scans m p (x ++ rest) (rep ++ o).

(** A pattern never matches the empty string, nor beyond the text. *)
Definition wf_matcher (m : matcher) : Prop :=
  forall p s n rep, m p s = Some (n, rep) -> 1 <= n <= length s.

(** [fires r p s]: the test [r] succeeds at some position of [s], where [p]
    is the character before [s]. *)
Fixpoint fires (r : option ascii -> str -> bool) (p : option ascii) (s : str)
  : bool :=
  match s with
  | [] => false
  | c :: s' => r p s || fires r (Some c) s'
  end.

(** The pattern matches at this position. *)
Definition matches_at (m : matcher) (p : option ascii) (s : str) : bool :=
  match m p s with Some _ => true | None => false end.

(** The text is empty or starts with [f] or [F]: no match of the facility
    pattern that started earlier can go on into it. *)
Definition fstop (y : str) : bool :=
  match y with
  | [] => true
  | c :: _ => Ascii.eqb (lower_char c) "f"%char
  end.

(** One of the two strings is a prefix of the other. *)
Definition comparable (a b : str) : bool := startswith a b || startswith b a.

(** The non-empty suffixes of a string. *)
Fixpoint tails1 (s : str) : list str :=
  match s with
  | [] => []
  | _ :: s' => s :: tails1 s'
  end.

(** A whole-word occurrence of [w] starts here: the test of [\bw\b] for a
    word [w] that starts and ends with a word character. *)
Definition word_here (w : str) (p : option ascii) (s : str) : bool :=
  startswith w s && negb (word_before p) && negb (word_at (skipn (length w) s)).

(** [s] has a whole-word occurrence of [w]: [w] stands in [s] with no word
    character right before it and none right after it. *)
Definition whole_word_occurrence (w s : str) : Prop :=
  exists pre post,
    s = pre ++ w ++ post
    /\ word_before (prev_after None pre) = false
    /\ word_at post = false.

(** The pattern [facility_id\s*=\s*\d] read one character at a time: the
    text starts with what is left of the column name, then blanks, [=],
    blanks and a digit. *)
Fixpoint acc_dig (s : str) : bool :=
  match s with
  | [] => false
  | c :: s' => if isspace c then acc_dig s' else isdecimal c
  end.

Fixpoint acc_eq (s : str) : bool :=
  match s with
  | [] => false
  | c :: s' =>
      if isspace c then acc_eq s'
      else if Ascii.eqb c "="%char then acc_dig s' else false
  end.

Fixpoint acc_lit (l : str) (s : str) : bool :=
  match l with
  | [] => acc_eq s
  | a :: l' =>
      match s with
      | [] => false
      | c :: s' => Ascii.eqb (lower_char a) (lower_char c) && acc_lit l' s'
      end
  end.

(** The same readers on a text that may go on: they also answer [true] when
    the text ends before the pattern is refuted. *)
Fixpoint alv_dig (s : str) : bool :=
  match s with
  | [] => true
  | c :: s' => if isspace c then alv_dig s' else isdecimal c
  end.

Fixpoint alv_eq (s : str) : bool :=
  match s with
  | [] => true
  | c :: s' =>
      if isspace c then alv_eq s'
      else if Ascii.eqb c "="%char then alv_dig s' else false
  end.

Fixpoint alv_lit (l : str) (s : str) : bool :=
  match l with
  | [] => alv_eq s
  | a :: l' =>
      match s with
      | [] => true
      | c :: s' => Ascii.eqb (lower_char a) (lower_char c) && alv_lit l' s'
      end
  end.

Definition facility_here (_ : option ascii) (s : str) : bool :=
  acc_lit (L "facility_id") s.

(** A replacement text cannot carry on a facility pattern that started
    before it, and no facility pattern starts inside it, whatever follows. *)
Definition cont_ok_F (rep : str) : bool :=
  negb (alv_dig rep) && negb (alv_eq rep)
  && forallb (fun l => negb (alv_lit l rep)) (tails1 (L "facility_id")).

Definition in_ok_F (rep : str) : bool :=
  forallb (fun r2 => negb (alv_lit (L "facility_id") r2)) (tails1 rep).

Definition rep_ok_F (rep : str) : bool := cont_ok_F rep && in_ok_F rep.

(** What a rewrite must satisfy to keep a text free of facility patterns:
    its replacements neither carry on a pattern nor hold the start of one. *)
Record tame_F (m : matcher) : Prop := {
  tf_dig : forall p s n rep t,
      m p s = Some (n, rep) -> acc_dig (rep ++ t) = false;
  tf_eq : forall p s n rep t,
      m p s = Some (n, rep) -> acc_eq (rep ++ t) = false;
  tf_lit : forall p s n rep t l,
      m p s = Some (n, rep) -> In l (tails1 (L "facility_id")) ->
      acc_lit l (rep ++ t) = false;
  tf_in : forall p s n rep t r1 r2,
      m p s = Some (n, rep) -> rep = r1 ++ r2 -> r2 <> [] ->
      acc_lit (L "facility_id") (r2 ++ t) = false
}.

(** The mis-cased function name, and the test of [\bCOUNTIf\b]. *)
Definition countif_word : str := L "COUNTIf".

Definition countif_here : option ascii -> str -> bool :=
  word_here countif_word.

(** The last character of a text is a word character. *)
Definition word_last (x : str) : bool := word_before (prev_after None x).

(** A replacement text can neither complete nor start an occurrence of
    [COUNTIf], whatever stands around it. *)
Definition rep_ok_W (rep : str) : bool :=
  match rep with [] => false | _ :: _ => true end
  && forallb (fun w => negb (comparable w rep)) (tails1 countif_word)
  && forallb (fun r2 => negb (comparable countif_word r2)) (tails1 rep).

(** A replacement does not make a word boundary where the replaced text had
    none: where it starts (ends) with a character that is not a word
    character, so did the text it replaces. *)
Definition edge_ok (old new : str) : bool :=
  (word_at new || negb (word_at old))
  && (word_last new || negb (word_last old)).

(** What a rewrite must satisfy to keep a text free of whole-word
    occurrences of [COUNTIf]. *)
Record tame_W (m : matcher) : Prop := {
  tw_nonempty : forall p s n rep, m p s = Some (n, rep) -> rep <> [];
  tw_cont : forall p s n rep t w,
      m p s = Some (n, rep) -> In w (tails1 countif_word) ->
      startswith w (rep ++ t) = false;
  tw_in : forall p s n rep t r1 r2,
      m p s = Some (n, rep) -> rep = r1 ++ r2 -> r2 <> [] ->
      startswith countif_word (r2 ++ t) = false;
  tw_head : forall p s n rep,
      m p s = Some (n, rep) -> word_at rep = false -> word_at s = false;
  tw_last : forall p s n rep,
      m p s = Some (n, rep) -> word_last rep = false ->
      word_last (firstn n s) = false
}.

(** The text has no whole-word occurrence of [COUNTIf], [p] being the
    character before it. *)
Definition countif_free (p : option ascii) (s : str) : Prop :=
  fires countif_here p s = false.

(** A rewrite keeps a text free of facility patterns, or free of whole-word
    occurrences of [COUNTIf]. *)
Definition keepsF (f : str -> str) : Prop :=
  forall s, fires facility_here None s = false ->
            fires facility_here None (f s) = false.

Definition keepsW (f : str -> str) : Prop :=
  forall s, countif_free None s -> countif_free None (f s).

(** A literal rewrite that keeps both properties: checked by computation. *)
Definition lit_ok (old new : str) : bool :=
  match old with [] => false | _ :: _ => true end
  && rep_ok_F new && rep_ok_W new && edge_ok old new.

(** A text appended after [rstrip(';')] that keeps both properties. *)
Definition tail_ok (z : str) : bool :=
  rep_ok_F z && rep_ok_W z && negb (word_at z).

(** The text has no facility pattern in it: pass 1 finds nothing to do. *)
Definition facility_free (s : str) : Prop :=
  fires facility_here None s = false.

(** The text has a comparison of the facility column with a bare integer:
    the column name in any case, optional blanks, [=], optional blanks and a
    digit. *)
Definition bare_facility_comparison (s : str) : Prop :=
  exists pre name ws1 ws2 d post,
    s = pre ++ name ++ ws1 ++ L "=" ++ ws2 ++ d :: post
    /\ lower name = L "facility_id"
    /\ forallb isspace ws1 = true
    /\ forallb isspace ws2 = true
    /\ isdecimal d = true.

(** The text starts with a character that is not a digit, or is empty. *)
Definition no_digit_at (s : str) : bool :=
  match s with c :: _ => negb (isdecimal c) | [] => true end.

(** A piece is blind to what follows a stop: it succeeds on [x ++ y] exactly
    when it succeeds on [x], leaving [y] untouched. *)
Definition blind (P : piece) : Prop :=
  forall x y, fstop y = true ->
    P (x ++ y) = option_map (fun r => r ++ y) (P x).

(** The facility pattern after its first character. *)
Definition after_f : piece :=
  p_lit_ci (L "acility_id") >> p_star isspace >> p_lit (L "=")
  >> p_star isspace.

(** A piece gives back a suffix of what it was given. *)
Definition suffix_piece (P : piece) : Prop :=
  forall s rest, P s = Some rest -> length rest <= length s.

(** A piece that reads at least one character. *)
Definition consuming (P : piece) : Prop :=
  forall s rest, P s = Some rest -> length rest < length s.

(** The decimal numerals of 1..9999: digits only, at most four of them. *)
Definition numeral_ok (n : nat) : bool :=
  let ds := str_of_int (Z.of_nat n) in
  forallb isdecimal ds && (1 <=? length ds) && (length (zfill4 ds) =? 4).

(** How the characters before two matching positions of the result and of
    the text are related: a boundary in the result is one in the text. *)
Definition rel_W (q p : option ascii) : Prop :=
  word_before q = false -> word_before p = false.

(** The padded comparison that pass 1 writes, for the digits [d4]. *)
Definition padded_prefix : str := L "facility_id = '".

Definition padded (d4 : str) : str := padded_prefix ++ d4 ++ L "'".

(** The text holds the padded comparison. *)
Definition holds_padded (d4 s : str) : Prop :=
  exists a b, s = a ++ padded d4 ++ b.

(** A pattern as it is tried in front of a text [z] that follows. *)
Definition ahead (m : matcher) (z : str) : matcher :=
  fun p s => m p (s ++ z).

(** What a rewrite must satisfy to leave a padded comparison where it is: a
    match that starts before it ends before it; no match starts inside it
    before its closing quote; and a match that starts at its closing quote
    has a replacement that starts with a quote. *)
Record respects (m : matcher) : Prop := {
  rs_before : forall d4 p a b n rep,
      forallb isdecimal d4 = true -> a <> [] ->
      m p (a ++ padded d4 ++ b) = Some (n, rep) -> n <= length a;
  rs_inside : forall d4 p t1 t2 b,
      forallb isdecimal d4 = true -> padded_prefix ++ d4 = t1 ++ t2 ->
      t2 <> [] -> m p (t2 ++ L "'" ++ b) = None;
  rs_quote : forall p b n rep,
      m p (L "'" ++ b) = Some (n, rep) -> startswith (L "'") rep = true
}.

(** No match starts at a quote. *)
Definition strict (m : matcher) : Prop :=
  forall p b, m p (L "'" ++ b) = None.

Definition keepsT (f : str -> str) : Prop :=
  forall d4 s, forallb isdecimal d4 = true ->
               holds_padded d4 s -> holds_padded d4 (f s).

(** The padded comparison up to its opening quote. *)
Definition padded_name : str := L "facility_id = ".

(** A literal that starts with a quote does not go on with digits and a
    quote, so it cannot match at the opening quote of a padded comparison;
    and its replacement starts with a quote, so a match at the closing quote
    puts the quote back. *)
Definition quote_ok (old new : str) : bool :=
  match old with
  | [] => false
  | c :: rest =>
      if Ascii.eqb c "'"%char
      then match dropwhile isdecimal rest with
           | c3 :: _ => negb (Ascii.eqb c3 "'"%char)
           | [] => false
           end
           && startswith (L "'") new
      else true
  end.

(** A literal rewrite that leaves padded comparisons where they are: checked
    by computation. *)
Definition lit_ok_T (old new : str) : bool :=
  forallb (fun r => negb (comparable r padded_name)) (tails1 old)
  && forallb (fun t => negb (comparable old t)) (tails1 padded_name)
  && no_digit_at old && quote_ok old new.

(** The frame of the average-duration pattern of pass 2: what it reads
    before and after the stretch [[^)]+]. *)
Definition avg_time_opening : str := L "round(AVG(dateDiff(".

Definition avg_time_closing : str := L "))/60.0, 2) AS avg_time_minutes".

(** The text [a] holds the opening of the pattern with no closing
    parenthesis after it; the text [b] goes on, before any closing
    parenthesis, with the closing of the pattern.  A text between such an
    [a] and such a [b] lies inside a match of the pattern. *)
Definition opens_here (_ : option ascii) (s : str) : bool :=
  startswith avg_time_opening s && forallb not_rparen s.

Definition opens_avg_time (a : str) : bool := fires opens_here None a.

Definition closes_avg_time (b : str) : bool :=
  startswith avg_time_closing (dropwhile not_rparen b).

Definition inside_avg_time (a b : str) : bool :=
  opens_avg_time a && closes_avg_time b.

(** A replacement text that holds no closing parenthesis and can neither
    complete nor start a part of the frame, whatever stands around it. *)
Definition rep_ok_frame (rep : str) : bool :=
  forallb not_rparen rep
  && forallb (fun w => negb (comparable w rep))
             (tails1 avg_time_opening ++ tails1 avg_time_closing)
  && forallb (fun r2 => negb (comparable avg_time_opening r2)) (tails1 rep).

(** What a rewrite must satisfy to neither build nor break the frame of the
    average-duration pattern around a text it leaves alone. *)
Record frame_safe (m : matcher) : Prop := {
  fs_old : forall p s n rep,
      m p s = Some (n, rep) -> forallb not_rparen (firstn n s) = true;
  fs_new : forall p s n rep,
      m p s = Some (n, rep) -> forallb not_rparen rep = true;
  fs_cont : forall p s n rep t w,
      m p s = Some (n, rep) ->
      In w (tails1 avg_time_opening ++ tails1 avg_time_closing) ->
      startswith w (rep ++ t) = false;
  fs_in : forall p s n rep t r1 r2,
      m p s = Some (n, rep) -> rep = r1 ++ r2 -> r2 <> [] ->
      startswith avg_time_opening (r2 ++ t) = false
}.

(** A rewrite keeps a padded comparison that does not lie inside the frame
    of the average-duration pattern, and does not build the frame around
    it. *)
Definition keepsE (f : str -> str) : Prop :=
  forall d4 a b,
    forallb isdecimal d4 = true -> inside_avg_time a b = false ->
    exists a' b',
      f (a ++ padded d4 ++ b) = a' ++ padded d4 ++ b'
      /\ inside_avg_time a' b' = false.

(** A piece that reads characters of the class [q] only. *)
Definition eats (q : ascii -> bool) (P : piece) : Prop :=
  forall s rest, P s = Some rest ->
                 exists x, s = x ++ rest /\ forallb q x = true.

(** The fields whose tests pass 3 rewrites. *)
Definition tested_fields : list str := L "comp_manually" :: nullable_fields.

(** One of the two strings is a prefix of the other, cases apart. *)
Definition comparable_ci (a b : str) : bool :=
  startswith_ci a b || startswith_ci b a.

(** What pass 3 can turn into a word boundary after a [COUNTIf]: the text
    that follows is empty, or starts with a character that is no word
    character, or starts with the name of a tested field, in any case. *)
Definition open_after (v : str) : bool :=
  negb (word_at v)
  || existsb (fun field => startswith_ci field v) tested_fields.

(** A [COUNTIf] that is a whole word or that pass 3 can make one.  Pass 3
    replaces a test [field IS NULL] or [field = ''] by a text in
    parentheses: it makes a word boundary after a [COUNTIf] that the name of
    the field follows, and before a [COUNTIf] that follows [NULL].
    [exposed_here] is the test at a [COUNTIf] that no word character
    precedes, [exposed_after_null] the test at a [NULL], in any case, that
    a [COUNTIf] follows. *)
Definition exposed_here (p : option ascii) (s : str) : bool :=
  startswith countif_word s && negb (word_before p)
  && open_after (skipn 7 s).

Definition exposed_after_null (_ : option ascii) (s : str) : bool :=
  startswith_ci (L "null") s && startswith countif_word (skipn 4 s)
  && open_after (skipn 11 s).

Definition exposes_countif (s : str) : bool :=
  fires exposed_here None s || fires exposed_after_null None s.

(** What the patterns of pass 3 have in common: the replacement is the text
    in parentheses for a tested field whose name starts the match, and the
    match ends with a quote or with [NULL]. *)
Record wraps (m : matcher) : Prop := {
  wr_rep : forall p s n rep,
      m p s = Some (n, rep) ->
      exists field,
        In field tested_fields /\ rep = both_conditions field
        /\ startswith_ci field s = true;
  wr_last : forall p s n rep,
      m p s = Some (n, rep) ->
      word_last (firstn n s) = false
      \/ exists x0 n4,
           firstn n s = x0 ++ n4 /\ length n4 = 4
           /\ startswith_ci (L "null") n4 = true
}.

(** A replacement of pass 3 holds no [COUNTIf], and no [NULL] of it can
    stand right before one. *)
Definition wrap_ok (rep : str) : bool :=
  forallb (fun r2 => negb (comparable countif_word r2)) (tails1 rep)
  && forallb (fun r2 =>
                negb (comparable_ci (L "null") r2)
                || (4 <=? length r2)
                   && negb (comparable countif_word (skipn 4 r2)))
             (tails1 rep).

(** A rewrite keeps a text free of exposed [COUNTIf]. *)
Definition keepsX (f : str -> str) : Prop :=
  forall s, exposes_countif s = false -> exposes_countif (f s) = false.

(** A column name that no part of a padded comparison can start, and that
    holds no [f]. *)
Record field_apart (field : str) : Prop := {
  fa_nonempty : field <> [];
  fa_no_f : Forall (fun a => lower_char a <> "f"%char) field;
  fa_name : forall t0 r, In t0 (tails1 padded_name) ->
                         p_lit_ci field (t0 ++ r) = None;
  fa_quote : forall r, p_lit_ci field ("'"%char :: r) = None;
  fa_digit : forall c r, isdecimal c = true -> p_lit_ci field (c :: r) = None
}.

(** No character of [rep] occurs in [w]. *)
Definition avoids (w rep : str) : bool :=
  forallb (fun c => negb (existsb (Ascii.eqb c) w)) rep.

(** The explanations of the turnaround-time branch. *)
Definition tat_explanations : list str :=
  [L "This query finds which porter has the fastest average turnaround time (from scheduled to completed).";
   L "This query identifies which porter has the slowest average turnaround time.";
   L "This query calculates the average turnaround time for each facility, showing operational efficiency.";
   L "This query shows each porter's average turnaround time performance.";
   L "This query finds all requests that took longer than the specified time to complete.";
   L "This query calculates turnaround time (the duration from when a request was scheduled to when it was completed)."].


(** The Markdown code fence. *)
Definition fence : str := L "```".

(** The number of backticks a text starts with. *)
Definition ticks (s : str) : nat :=
  length (takewhile (Ascii.eqb "`"%char) s).

(** A rewrite that cannot make a fence appear. *)
Definition keepsA (f : str -> str) : Prop :=
  forall s, contains fence s = false -> contains fence (f s) = false.

(** A literal rewrite whose replacement is not empty and holds no backtick:
    checked by computation. *)
Definition lit_ok_A (old new : str) : bool :=
  match old with [] => false | _ :: _ => true end
  && match new with [] => false | _ :: _ => true end
  && avoids fence new.


(* ===================================================================== *)
(** ** Concrete inputs used by the examples below                         *)
(* ===================================================================== *)

Definition two_by_three : DataFrame :=
  {| columns := [(L "porter_user_id", dt_object); (L "request_count", dt_int)];
     index_length := 3 |}.

Definition hourly_101 : DataFrame :=
  {| columns := [(L "request_hour", dt_int); (L "request_count", dt_int)];
     index_length := 101 |}.

Definition no_session : Session :=
  {| conversation_history := []; queries_run := [] |}.

(** A backend that is down, in front of a healthy database. *)
Definition env_backend_down : Env :=
  {| chat_completion := fun _ => inr (L "Connection error.");
     query_df := fun _ => inl two_by_three;
     now_isoformat := L "2025-06-23T10:30:00";
     format_timezone := fun df => inl df;
     generate_summary := fun _ _ => inl (L "summary");
     create_chart := fun df q => inl (Some (chart_of df q)) |}.

(** A backend that answers every question with the same query, in front of
    a database that rejects it. *)
Definition env_database_down : Env :=
  {| chat_completion :=
       fun _ => inl (L "SELECT * FROM fact_porter_request WHERE priority = 1");
     query_df := fun _ => inr (L "Code: 60. Unknown table");
     now_isoformat := L "2025-06-23T10:30:00";
     format_timezone := fun df => inl df;
     generate_summary := fun _ _ => inl (L "summary");
     create_chart := fun df q => inl (Some (chart_of df q)) |}.

(** A request with the given body, in front of a server whose figures and
    data can be written as JSON. *)
Definition flask_request (body : raising json) : Flask :=
  {| get_json := body;
     now := L "2025-06-23T10:30:00";
     chart_truthy := fun _ => true;
     chart_to_json := fun _ => inl tt;
     jsonify_data := fun _ => inl tt;
     DEFAULT_ROW_LIMIT := 100 |}.

(** A backend that answers with white space only, and one that answers with
    a fenced block tagged in upper case. *)
Definition env_blank_answer : Env :=
  {| chat_completion := fun _ => inl (L "  ");
     query_df := fun _ => inr (L "Code: 62. Syntax error");
     now_isoformat := L "2025-06-23T10:30:00";
     format_timezone := fun df => inl df;
     generate_summary := fun _ _ => inl (L "summary");
     create_chart := fun df q => inl None |}.

Definition env_upper_case_tag : Env :=
  {| chat_completion := fun _ => inl (L "```SQL" ++ L " SELECT 1 " ++ L "```");
     query_df := fun _ => inr (L "Code: 62. Syntax error");
     now_isoformat := L "2025-06-23T10:30:00";
     format_timezone := fun df => inl df;
     generate_summary := fun _ _ => inl (L "summary");
     create_chart := fun df q => inl None |}.

(** A configuration with the OpenAI key only. *)
Definition openai_only : Config :=
  {| AZURE_OPENAI_ENDPOINT := [];
     AZURE_OPENAI_API_KEY := [];
     AZURE_OPENAI_DEPLOYMENT := L "gpt-4o-mini";
     AZURE_OPENAI_API_VERSION := L "2025-01-01-preview";
     OPENAI_API_KEY := L "sk-test";
     OPENAI_MODEL := L "gpt-4";
     CLICKHOUSE_HOST := L "172.188.240.120";
     CLICKHOUSE_PASSWORD := L "OviCli2$5" |}.

(** Conversions that accept plain decimal numerals only: digits for [int],
    digits with at most one point among them for [float] (kept as the text
    read).  They convert every default of the class body. *)
Definition decimal_value (digits : str) : Z :=
  fold_left (fun n c => (10 * n + (Z.of_N (code c) - 48))%Z) digits 0%Z.

Definition plain_int (text : str) : raising Z :=
  if nonempty text && forallb isdecimal text
  then inl (decimal_value text)
  else inr (L "invalid literal for int() with base 10: '" ++ text ++ L "'").

Definition plain_float (text : str) : raising str :=
  let whole := takewhile isdecimal text in
  let rest := dropwhile isdecimal text in
  let ok :=
    match rest with
    | [] => nonempty whole
    | c :: fraction =>
        is_code 46 c && forallb isdecimal fraction
        && (nonempty whole || nonempty fraction)
    end in
  if ok then inl text
  else inr (L "could not convert string to float: '" ++ text ++ L "'").

Definition plain_builtins : Builtins :=
  {| float_value := str; py_float := plain_float; py_int := plain_int |}.

(* ===================================================================== *)
(** ** Lists and strings: basic facts                                     *)
(* ===================================================================== *)

Lemma startswith_app (p s : str) : startswith p (p ++ s) = true.
Proof.
  induction p as [|a p IH]; simpl; [reflexivity|].
  now rewrite Ascii.eqb_refl, IH.
Qed.

Lemma startswith_split (p s : str) :
  startswith p s = true -> s = p ++ skipn (length p) s.
Proof.
  revert s; induction p as [|a p IH]; intros [|b s]; simpl; try easy.
  intros H. apply andb_true_iff in H as [Hab Hps].
  apply Ascii.eqb_eq in Hab. subst b. f_equal. now apply IH.
Qed.

Lemma contains_here (p s : str) : startswith p s = true -> contains p s = true.
Proof. destruct s; simpl; intros ->; reflexivity. Qed.

Lemma contains_app_r (p pre s : str) :
  contains p s = true -> contains p (pre ++ s) = true.
Proof.
  intros H. induction pre as [|c pre IH]; simpl; [exact H|].
  rewrite IH. apply orb_true_r.
Qed.

Lemma contains_infix (p pre post : str) : contains p (pre ++ p ++ post) = true.
Proof. apply contains_app_r, contains_here, startswith_app. Qed.

Lemma contains_spec (p s : str) :
  contains p s = true <-> exists pre post, s = pre ++ p ++ post.
Proof.
  split.
  - induction s as [|c s IH]; simpl; intros H.
    + rewrite orb_false_r in H. exists [], []. simpl.
      destruct p; [reflexivity | discriminate].
    + apply orb_true_iff in H as [H|H].
      * exists [], (skipn (length p) (c :: s)).
        now apply startswith_split.
      * destruct (IH H) as (pre & post & ->). now exists (c :: pre), post.
  - intros (pre & post & ->). apply contains_infix.
Qed.

Lemma upper_app (a b : str) : upper (a ++ b) = upper a ++ upper b.
Proof. apply flat_map_app. Qed.

Lemma lower_app (a b : str) : lower (a ++ b) = lower a ++ lower b.
Proof. apply map_app. Qed.

Ltac each_char c :=
  destruct c as [[] [] [] [] [] [] [] []]; vm_compute; try reflexivity;
  try discriminate; try congruence.

(** A character that lowers to an ASCII lower-case letter is that letter or
    its capital, and uppers to the capital. *)
Lemma upper_of_lower_letter (c l : ascii) :
  in_range 97 122 l = true -> lower_char c = l ->
  upper_char c = upper_char l.
Proof.
  intros Hl <-. revert Hl. each_char c.
Qed.

Lemma upper_of_lower (w v : str) :
  forallb (in_range 97 122) v = true -> lower w = v -> upper w = upper v.
Proof.
  revert v; induction w as [|c w IH]; intros [|l v]; simpl; try easy.
  intros Hv Heq. apply andb_true_iff in Hv as [Hl Hv].
  injection Heq as Hc Hw.
  now rewrite (upper_of_lower_letter c l Hl Hc), (IH v Hv Hw).
Qed.

(* ===================================================================== *)
(** ** The interaction log                                                *)
(* ===================================================================== *)

Lemma keep_last_split (n : nat) (h : list LogEntry) :
  h = firstn (length h - n) h ++ keep_last n h.
Proof. unfold keep_last. now rewrite firstn_skipn. Qed.

Lemma keep_last_length (n : nat) (h : list LogEntry) :
  length (keep_last n h) = Nat.min n (length h).
Proof. unfold keep_last. rewrite length_skipn. lia. Qed.

(** C9.  The interaction log is a FIFO of capacity 200.  Whatever the
    history was, after [_log_interaction] appends an entry: the history has
    at most 200 entries; it is the appended history with its oldest entries
    removed from the front, the others kept in insertion order; the number
    removed is the excess over 200 (none while the log is not full, and then
    exactly 200 entries remain); the entry just logged is the last one. *)
Theorem log_interaction_bounded_fifo (e : LogEntry) (st : Session) :
  let appended := conversation_history st ++ [e] in
  let history := conversation_history (_log_interaction e st) in
  length history <= 200
  /\ (exists evicted,
         appended = evicted ++ history
         /\ length evicted = length appended - 200)
  /\ (200 < length appended -> length history = 200)
  /\ (exists earlier, history = earlier ++ [e]).
Proof.
  cbv zeta. unfold _log_interaction. simpl.
  set (h := conversation_history st ++ [e]).
  assert (Hlen : length h = S (length (conversation_history st)))
    by (unfold h; rewrite length_app; simpl; lia).
  destruct (200 <? length h) eqn:Hfull.
  - apply Nat.ltb_lt in Hfull.
    repeat split.
    + rewrite keep_last_length. lia.
    + exists (firstn (length h - 200) h). split.
      * apply keep_last_split.
      * rewrite length_firstn. lia.
    + intros _. rewrite keep_last_length. lia.
    + unfold keep_last, h. rewrite skipn_app.
      replace (length (conversation_history st ++ [e]) - 200
               - length (conversation_history st)) with 0
        by (rewrite length_app; simpl; lia).
      now exists (skipn (length (conversation_history st ++ [e]) - 200)
                   (conversation_history st)).
  - apply Nat.ltb_ge in Hfull.
    repeat split.
    + exact Hfull.
    + exists []. split; [reflexivity | simpl; lia].
    + lia.
    + now exists (conversation_history st).
Qed.

Lemma log_interaction_bounded_fifo_witness :
  let e := {| log_timestamp := L "2025-06-23T10:30:00";
              log_question := L "Show cancelled requests";
              log_sql := None; log_row_count := None;
              log_success := false; log_error := Some (L "boom") |} in
  let st := {| conversation_history := repeat e 200; queries_run := [] |} in
  200 < length (conversation_history st ++ [e])
  /\ length (conversation_history (_log_interaction e st)) = 200.
Proof.
  cbv zeta.
  match goal with
  | |- 200 < length (conversation_history ?st ++ [?e]) /\ _ =>
      assert (H : 200 < length (conversation_history st ++ [e]))
        by (apply Nat.ltb_lt; vm_compute; reflexivity);
      split; [exact H|];
      exact (proj1 (proj2 (proj2 (log_interaction_bounded_fifo e st))) H)
  end.
Defined.

(* ===================================================================== *)
(** ** The chart decision                                                 *)
(* ===================================================================== *)

(** C8.  [should_create_chart] answers [False] for an empty result and for a
    result of more than 100 rows, whatever the question says. *)
Theorem should_create_chart_empty_or_large (df : DataFrame) (question : str) :
  empty df = true \/ 100 < len df ->
  should_create_chart df question = false.
Proof.
  intros H. unfold should_create_chart.
  destruct H as [-> | H]; [reflexivity|].
  apply Nat.ltb_lt in H. rewrite H. now rewrite orb_true_r.
Qed.

Lemma should_create_chart_empty_or_large_witness :
  (empty hourly_101 = true \/ 100 < len hourly_101)
  /\ should_create_chart hourly_101 (L "Show hourly trends and patterns") = false.
Proof.
  assert (H : empty hourly_101 = true \/ 100 < len hourly_101)
    by (right; vm_compute; lia).
  split; [exact H|].
  exact (should_create_chart_empty_or_large hourly_101
           (L "Show hourly trends and patterns") H).
Defined.

(* ===================================================================== *)
(** ** The executor wrapper                                               *)
(* ===================================================================== *)

Lemma upper_limit_occurrence (query pre w post : str) :
  query = pre ++ w ++ post -> lower w = L "limit" ->
  contains (L "LIMIT") (upper query) = true.
Proof.
  intros -> Hw. rewrite !upper_app.
  rewrite (upper_of_lower w (L "limit") eq_refl Hw).
  apply contains_infix.
Qed.

(** C10.  For a positive row limit, [execute_query] appends [ LIMIT n]
    exactly when the stripped, upper-cased query starts with [SELECT] and the
    upper-cased query has no [LIMIT] in it; what reaches the database client
    is that text.  So a query with the letters of "limit" anywhere in it, in
    any mix of cases, and a query that does not start with [SELECT], are
    sent as they are, without the row cap. *)
Theorem execute_query_limit_rule (env : Env) (query : str) (n : Z)
  (st : Session) :
  (0 < n)%Z ->
  sent_query query (Some n) =
    (if startswith (L "SELECT") (upper (strip query))
        && negb (contains (L "LIMIT") (upper query))
     then query ++ L " LIMIT " ++ str_of_int n
     else query)
  /\ queries_run (snd (execute_query env query (Some n) st)) =
       queries_run st ++ [sent_query query (Some n)]
  /\ ((exists pre w post, query = pre ++ w ++ post /\ lower w = L "limit") ->
      sent_query query (Some n) = query)
  /\ (startswith (L "SELECT") (upper (strip query)) = false ->
      sent_query query (Some n) = query).
Proof.
  intros Hn.
  assert (Hpos : (negb (n =? 0)%Z && (0 <? n)%Z) = true).
  { apply andb_true_iff. split.
    - apply negb_true_iff, Z.eqb_neq. lia.
    - now apply Z.ltb_lt. }
  assert (Heq : sent_query query (Some n) =
    (if startswith (L "SELECT") (upper (strip query))
        && negb (contains (L "LIMIT") (upper query))
     then query ++ L " LIMIT " ++ str_of_int n
     else query)).
  { unfold sent_query, limit_applies. now rewrite Hpos. }
  repeat split.
  - exact Heq.
  - unfold execute_query. now destruct (query_df env _).
  - intros (pre & w & post & Hq & Hw). rewrite Heq.
    rewrite (upper_limit_occurrence _ _ _ _ Hq Hw). simpl.
    now rewrite andb_false_r.
  - intros Hsel. rewrite Heq, Hsel. reflexivity.
Qed.

Lemma execute_query_limit_rule_witness :
  (0 < 50)%Z
  /\ sent_query (L "SELECT id AS Limit_reached FROM fact_porter_request")
                (Some 50%Z)
     = L "SELECT id AS Limit_reached FROM fact_porter_request".
Proof.
  assert (H : (0 < 50)%Z) by lia.
  split; [exact H|].
  destruct (execute_query_limit_rule env_backend_down
              (L "SELECT id AS Limit_reached FROM fact_porter_request")
              50%Z no_session H) as (_ & _ & Hin & _).
  apply Hin.
  exists (L "SELECT id AS "), (L "Limit"), (L "_reached FROM fact_porter_request").
  split; reflexivity.
Defined.

(* ===================================================================== *)
(** ** The explainer                                                      *)
(* ===================================================================== *)

(** C3.  The explainer does not give an explanation for every input: for a
    question outside all nine question categories and a query without
    GROUP BY, without ORDER BY ... DESC and without JOIN, the function
    reaches its last [else] branch, which returns nothing ([None]). *)
Theorem generate_explanation_falls_through :
  _generate_explanation
    (L "Show high priority requests")
    (L "SELECT * FROM fact_porter_request WHERE priority = 1") = None.
Proof. vm_compute. reflexivity. Qed.

(* ===================================================================== *)
(** ** The date pass                                                      *)
(* ===================================================================== *)

(** C4.  The date pass localizes [toDate(scheduled_time)] but leaves
    [toDate(accepted_time)] as it is: [accepted_time] is a timestamp column
    of the schema (and of the pass's own [timestamp_cols]) that the rewrite
    loop does not list. *)
Theorem enhance_date_queries_misses_accepted_time :
  _enhance_date_queries
    (L "SELECT COUNT(*) FROM fact_porter_request WHERE toDate(accepted_time) = '2025-06-01'")
    (L "How many requests were accepted on 2025-06-01")
  = L "SELECT COUNT(*) FROM fact_porter_request WHERE toDate(accepted_time) = '2025-06-01'"
  /\ _enhance_date_queries
       (L "SELECT COUNT(*) FROM fact_porter_request WHERE toDate(scheduled_time) = '2025-06-01'")
       (L "How many requests were accepted on 2025-06-01")
     = L "SELECT COUNT(*) FROM fact_porter_request WHERE toDate(toTimeZone(scheduled_time, 'Asia/Kolkata')) = '2025-06-01'"
  /\ In (L "accepted_time") timestamp_cols
  /\ ~ In (L "accepted_time") localized_columns.
Proof.
  split; [vm_compute; reflexivity|].
  split; [vm_compute; reflexivity|].
  split.
  - simpl. tauto.
  - simpl. intros [H|[H|[H|[H|[H|[]]]]]]; discriminate H.
Qed.

(* ===================================================================== *)
(** ** The orchestrator                                                   *)
(* ===================================================================== *)

Lemma convert_to_sql_backend_failure (env : Env) (user_question e : str) :
  chat_completion env user_question = inr e ->
  convert_to_sql env user_question = ([], Some (L "Error generating SQL: " ++ e)).
Proof. intros H. unfold convert_to_sql. now rewrite H. Qed.

(** C5.  When the backend call raises, [convert_to_sql] returns the empty
    query with an error explanation, and [process_query] returns the failure
    with the could-not-understand summary, leaving the session as it was: no
    query was handed to the database client (and nothing was logged). *)
Theorem backend_failure_stops_request (env : Env) (user_question e : str)
  (row_limit : option Z) (st : Session) :
  chat_completion env user_question = inr e ->
  convert_to_sql env user_question = ([], Some (L "Error generating SQL: " ++ e))
  /\ process_query env user_question row_limit st =
       (Failed (L "Failed to generate SQL query") summary_not_understood None,
        st)
  /\ queries_run (snd (process_query env user_question row_limit st)) =
       queries_run st.
Proof.
  intros H. pose proof (convert_to_sql_backend_failure env user_question e H) as Hc.
  assert (Hp : process_query env user_question row_limit st =
       (Failed (L "Failed to generate SQL query") summary_not_understood None,
        st))
    by (unfold process_query; now rewrite Hc).
  repeat split; [exact Hc | exact Hp | now rewrite Hp].
Qed.

Lemma backend_failure_stops_request_witness :
  chat_completion env_backend_down (L "Show cancelled requests for facility 184")
    = inr (L "Connection error.")
  /\ queries_run
       (snd (process_query env_backend_down
               (L "Show cancelled requests for facility 184") (Some 100%Z)
               no_session)) = [].
Proof.
  assert (H : chat_completion env_backend_down
                (L "Show cancelled requests for facility 184")
              = inr (L "Connection error.")) by reflexivity.
  split; [exact H|].
  exact (proj2 (proj2 (backend_failure_stops_request env_backend_down
                         (L "Show cancelled requests for facility 184")
                         (L "Connection error.") (Some 100%Z) no_session H))).
Defined.

(** C2.  Two terminal outcomes are not logged.  With the backend down
    (translation failure) and with the database rejecting the query
    (executor-reported failure), [process_query] returns its failure and the
    conversation history is still empty: no entry was appended. *)
Theorem failures_returned_early_are_not_logged :
  (let '(r, st) := process_query env_backend_down
                     (L "Show cancelled requests for facility 184")
                     (Some 100%Z) no_session in
   success r = false /\ conversation_history st = [])
  /\
  (let '(r, st) := process_query env_database_down
                     (L "Which requests have high priority")
                     (Some 100%Z) no_session in
   success r = false /\ conversation_history st = []
   /\ queries_run st =
        [L "SELECT * FROM fact_porter_request WHERE priority = 1 LIMIT 100"]).
Proof. vm_compute. repeat split; reflexivity. Qed.

(* ===================================================================== *)
(** ** The scan of [re.sub]                                               *)
(* ===================================================================== *)

Lemma prev_after_cons (p : option ascii) (c : ascii) (x : str) :
  prev_after p (c :: x) = prev_after (Some c) x.
Proof. reflexivity. Qed.

Lemma prev_after_app (p : option ascii) (x y : str) :
  prev_after p (x ++ y) = prev_after (prev_after p x) y.
Proof. apply fold_left_app. Qed.

Lemma prev_after_nonempty (p q : option ascii) (x : str) :
  x <> [] -> prev_after p x = prev_after q x.
Proof.
  destruct x as [|c x]; [congruence|]. intros _. reflexivity.
Qed.

Lemma sub_scan_skip (m : matcher) (x : str) :
  forall p s, sub_scan m (length x) p (x ++ s) = sub_scan m 0 (prev_after p x) s.
Proof.
  induction x as [|c x IH]; intros p s; simpl.
  - destruct s; reflexivity.
  - apply IH.
Qed.

Lemma sub_scan_match (m : matcher) (p : option ascii) (x rest rep : str) :
  x <> [] -> m p (x ++ rest) = Some (length x, rep) ->
  sub_scan m 0 p (x ++ rest) = rep ++ sub_scan m 0 (prev_after p x) rest.
Proof.
  destruct x as [|c x]; [congruence|]. intros _ H.
  change (sub_scan m 0 p ((c :: x) ++ rest))
    with (match m p ((c :: x) ++ rest) with
          | Some (n, rep) => rep ++ sub_scan m (pred n) (Some c) (x ++ rest)
          | None => c :: sub_scan m 0 (Some c) (x ++ rest)
          end).
  rewrite H. simpl pred. now rewrite sub_scan_skip.
Qed.

Lemma sub_scan_copy (m : matcher) (p : option ascii) (c : ascii) (s : str) :
  m p (c :: s) = None ->
  sub_scan m 0 p (c :: s) = c :: sub_scan m 0 (Some c) s.
Proof. intros H. simpl. now rewrite H. Qed.

Lemma sub_scan_scans (m : matcher) :
  wf_matcher m -> forall s p, scans m p s (sub_scan m 0 p s).
Proof.
  intros Hwf s.
  induction s as [s IH] using (induction_ltof1 _ (@length ascii)).
  unfold ltof in IH. intros p.
  destruct s as [|c s]; [constructor|].
  destruct (m p (c :: s)) as [[n rep]|] eqn:Hm.
  - destruct (Hwf _ _ _ _ Hm) as [Hn1 Hn2].
    remember (firstn n (c :: s)) as x eqn:Hx.
    remember (skipn n (c :: s)) as rest eqn:Hrest.
    assert (Hsplit : c :: s = x ++ rest)
      by (subst x rest; symmetry; apply firstn_skipn).
    assert (Hlen : length x = n) by (subst x; rewrite length_firstn; lia).
    assert (Hne : x <> [])
      by (intros E; rewrite E in Hlen; simpl in Hlen; lia).
    rewrite Hsplit in Hm |- *. rewrite <- Hlen in Hm.
    rewrite (sub_scan_match m p x rest rep Hne Hm).
    apply scans_match; [exact Hne | exact Hm |].
    apply IH. apply (f_equal (@length ascii)) in Hsplit.
    rewrite length_app in Hsplit. simpl in Hsplit. simpl. lia.
  - rewrite (sub_scan_copy m p c s Hm).
    apply scans_copy; [exact Hm|]. apply IH. simpl. lia.
Qed.


(** A scan splits at a point the pattern cannot read across: when no match
    that starts in [pre] depends on what follows it, [pre] is rewritten on
    its own.  [good] is what is known of [pre] (and of its suffixes). *)
Section ScanSplit.
Variable m : matcher.
Variable good : str -> Prop.
Variable stop : str -> bool.
Hypothesis m_wf : wf_matcher m.
Hypothesis good_suffix : forall a b, good (a ++ b) -> b <> [] -> good b.
Hypothesis m_stable :
  forall p x y, x <> [] -> good x -> stop y = true -> m p (x ++ y) = m p x.

Lemma sub_scan_app_stop (pre y : str) :
  stop y = true ->
  pre = [] \/ good pre ->
  forall p,
    sub_scan m 0 p (pre ++ y) =
    sub_scan m 0 p pre ++ sub_scan m 0 (prev_after p pre) y.
Proof.
  intros Hy.
  induction pre as [pre IH] using (induction_ltof1 _ (@length ascii)).
  unfold ltof in IH. intros Hgood p.
  destruct pre as [|c pre]; [reflexivity|].
  destruct Hgood as [Hgood|Hgood]; [discriminate|].
  assert (Hst : m p ((c :: pre) ++ y) = m p (c :: pre))
    by (apply m_stable; [discriminate | exact Hgood | exact Hy]).
  destruct (m p (c :: pre)) as [[n rep]|] eqn:Hm.
  - destruct (m_wf _ _ _ _ Hm) as [Hn1 Hn2].
    remember (firstn n (c :: pre)) as x eqn:Hx.
    remember (skipn n (c :: pre)) as rest eqn:Hrest.
    assert (Hsplit : c :: pre = x ++ rest)
      by (subst x rest; symmetry; apply firstn_skipn).
    assert (Hlen : length x = n) by (subst x; rewrite length_firstn; lia).
    assert (Hne : x <> [])
      by (intros E; rewrite E in Hlen; simpl in Hlen; lia).
    rewrite Hsplit in Hm, Hst, Hgood |- *. rewrite <- Hlen in Hm, Hst.
    rewrite <- app_assoc in Hst |- *.
    rewrite (sub_scan_match m p x (rest ++ y) rep Hne Hst).
    rewrite (sub_scan_match m p x rest rep Hne Hm).
    rewrite <- app_assoc. f_equal.
    rewrite IH.
    + now rewrite prev_after_app.
    + apply (f_equal (@length ascii)) in Hsplit.
      rewrite length_app in Hsplit. simpl in Hsplit. simpl. lia.
    + destruct rest as [|d rest]; [now left | right].
      apply (good_suffix x (d :: rest) Hgood). discriminate.
  - change ((c :: pre) ++ y) with (c :: (pre ++ y)) in Hst |- *.
    rewrite (sub_scan_copy m p c (pre ++ y) Hst).
    rewrite (sub_scan_copy m p c pre Hm).
    simpl. f_equal. apply IH; [simpl; lia|].
    destruct pre as [|d pre]; [now left | right].
    apply (good_suffix [c] (d :: pre) Hgood). discriminate.
Qed.
End ScanSplit.

(* ===================================================================== *)
(** ** Pass 1: the facility pattern                                       *)
(* ===================================================================== *)

Lemma lower_f_class (c : ascii) :
  lower_char c = "f"%char ->
  isspace c = false /\ isdecimal c = false /\ Ascii.eqb c "="%char = false.
Proof. each_char c; repeat split. Qed.

Lemma space_not_digit (c : ascii) : isspace c = true -> isdecimal c = false.
Proof. each_char c. Qed.

Lemma space_not_eq (c : ascii) : isspace c = true -> Ascii.eqb c "="%char = false.
Proof. each_char c. Qed.

Lemma fstop_head (c : ascii) (y : str) :
  fstop (c :: y) = true ->
  isspace c = false /\ isdecimal c = false /\ Ascii.eqb c "="%char = false.
Proof. simpl. intros H. apply Ascii.eqb_eq in H. now apply lower_f_class. Qed.

Lemma dropwhile_app_stop (f : ascii -> bool) (x y : str) :
  match y with [] => True | c :: _ => f c = false end ->
  dropwhile f (x ++ y) = dropwhile f x ++ y.
Proof.
  intros Hy. induction x as [|c x IH]; simpl.
  - destruct y as [|d y]; [reflexivity|]. simpl. now rewrite Hy.
  - destruct (f c); [exact IH | reflexivity].
Qed.

Lemma takewhile_app_stop (f : ascii -> bool) (x y : str) :
  match y with [] => True | c :: _ => f c = false end ->
  takewhile f (x ++ y) = takewhile f x.
Proof.
  intros Hy. induction x as [|c x IH]; simpl.
  - destruct y as [|d y]; [reflexivity|]. simpl. now rewrite Hy.
  - destruct (f c); [now rewrite IH | reflexivity].
Qed.

Lemma takewhile_all (f : ascii -> bool) (x y : str) :
  forallb f x = true ->
  match y with [] => True | c :: _ => f c = false end ->
  takewhile f (x ++ y) = x.
Proof.
  intros Hx Hy. rewrite (takewhile_app_stop f x y Hy).
  induction x as [|c x IH]; [reflexivity|]. simpl in *.
  apply andb_true_iff in Hx as [-> Hx]. now rewrite IH.
Qed.

Lemma dropwhile_all (f : ascii -> bool) (x y : str) :
  forallb f x = true -> dropwhile f (x ++ y) = dropwhile f y.
Proof.
  induction x as [|c x IH]; [reflexivity|]. simpl.
  intros H. apply andb_true_iff in H as [-> Hx]. now apply IH.
Qed.

Lemma blind_seq (P Q : piece) : blind P -> blind Q -> blind (P >> Q).
Proof.
  intros HP HQ x y Hy. unfold p_seq. rewrite (HP x y Hy).
  destruct (P x) as [x'|]; simpl; [now apply HQ | reflexivity].
Qed.

Lemma blind_star_space : blind (p_star isspace).
Proof.
  intros x y Hy. unfold p_star. simpl. f_equal.
  apply dropwhile_app_stop. destruct y as [|c y]; [exact I|].
  now destruct (fstop_head c y Hy).
Qed.

Lemma startswith_ci_shorter (l x : str) :
  startswith_ci l x = true -> length l <= length x.
Proof.
  revert x; induction l as [|a l IH]; intros [|c x]; simpl; try lia; try easy.
  intros H. apply andb_true_iff in H as [_ H]. apply IH in H. lia.
Qed.

Lemma startswith_shorter (l x : str) :
  startswith l x = true -> length l <= length x.
Proof.
  revert x; induction l as [|a l IH]; intros [|c x]; simpl; try lia; try easy.
  intros H. apply andb_true_iff in H as [_ H]. apply IH in H. lia.
Qed.

Lemma startswith_ci_app_stop (l x y : str) :
  Forall (fun a => lower_char a <> "f"%char) l -> fstop y = true ->
  startswith_ci l (x ++ y) = startswith_ci l x.
Proof.
  intros Hl Hy. revert x. induction Hl as [|a l Ha Hl IH]; intros x.
  - reflexivity.
  - destruct x as [|c x]; simpl.
    + destruct y as [|d y]; [reflexivity|]. simpl in Hy |- *.
      apply Ascii.eqb_eq in Hy. rewrite Hy.
      destruct (Ascii.eqb (lower_char a) "f") eqn:E; [|reflexivity].
      apply Ascii.eqb_eq in E. contradiction.
    + now rewrite IH.
Qed.

Lemma blind_lit_ci (l : str) :
  Forall (fun a => lower_char a <> "f"%char) l -> blind (p_lit_ci l).
Proof.
  intros Hl x y Hy. unfold p_lit_ci.
  rewrite (startswith_ci_app_stop l x y Hl Hy).
  destruct (startswith_ci l x) eqn:E; [|reflexivity]. simpl. f_equal.
  apply startswith_ci_shorter in E.
  rewrite skipn_app. replace (length l - length x) with 0 by lia.
  reflexivity.
Qed.

Lemma startswith_app_stop (l x y : str) :
  Forall (fun a => lower_char a <> "f"%char) l -> fstop y = true ->
  startswith l (x ++ y) = startswith l x.
Proof.
  intros Hl Hy. revert x. induction Hl as [|a l Ha Hl IH]; intros x.
  - reflexivity.
  - destruct x as [|c x]; simpl.
    + destruct y as [|d y]; [reflexivity|]. simpl in Hy |- *.
      apply Ascii.eqb_eq in Hy.
      destruct (Ascii.eqb a d) eqn:E; [|reflexivity].
      apply Ascii.eqb_eq in E. subst d. contradiction.
    + now rewrite IH.
Qed.

Lemma blind_lit (l : str) :
  Forall (fun a => lower_char a <> "f"%char) l -> blind (p_lit l).
Proof.
  intros Hl x y Hy. unfold p_lit.
  rewrite (startswith_app_stop l x y Hl Hy).
  destruct (startswith l x) eqn:E; [|reflexivity]. simpl. f_equal.
  apply startswith_shorter in E.
  rewrite skipn_app. replace (length l - length x) with 0 by lia.
  reflexivity.
Qed.

Lemma p_lit_ci_cons (a : ascii) (l : str) (c : ascii) (s : str) :
  p_lit_ci (a :: l) (c :: s) =
  if Ascii.eqb (lower_char a) (lower_char c) then p_lit_ci l s else None.
Proof.
  unfold p_lit_ci. simpl.
  destruct (Ascii.eqb (lower_char a) (lower_char c)); reflexivity.
Qed.

Lemma blind_after_f : blind after_f.
Proof.
  unfold after_f.
  repeat apply blind_seq;
    try apply blind_star_space;
    [apply blind_lit_ci | apply blind_lit];
    repeat constructor; vm_compute; discriminate.
Qed.

Lemma facility_id_prefix_cons (c : ascii) (s : str) :
  facility_id_prefix (c :: s) =
  if Ascii.eqb "f"%char (lower_char c) then after_f s else None.
Proof.
  unfold facility_id_prefix, after_f, p_seq.
  change (L "facility_id") with ("f"%char :: L "acility_id").
  rewrite p_lit_ci_cons.
  change (lower_char "f") with "f"%char.
  destruct (Ascii.eqb "f" (lower_char c)); reflexivity.
Qed.

Lemma facility_id_prefix_blind (x y : str) :
  x <> [] -> fstop y = true ->
  facility_id_prefix (x ++ y) =
  option_map (fun r => r ++ y) (facility_id_prefix x).
Proof.
  destruct x as [|c x]; [congruence|]. intros _ Hy.
  change ((c :: x) ++ y) with (c :: (x ++ y)).
  rewrite !facility_id_prefix_cons.
  destruct (Ascii.eqb "f" (lower_char c)); [|reflexivity].
  now apply blind_after_f.
Qed.

Lemma suffix_seq (P Q : piece) :
  suffix_piece P -> suffix_piece Q -> suffix_piece (P >> Q).
Proof.
  intros HP HQ s rest. unfold p_seq.
  destruct (P s) as [s'|] eqn:E; [|discriminate].
  intros H. apply HP in E. apply HQ in H. lia.
Qed.

Lemma dropwhile_length (f : ascii -> bool) (s : str) :
  length (dropwhile f s) <= length s.
Proof.
  induction s as [|c s IH]; simpl; [lia|].
  destruct (f c); simpl; lia.
Qed.

Lemma takewhile_length (f : ascii -> bool) (s : str) :
  length (takewhile f s) <= length s.
Proof.
  induction s as [|c s IH]; simpl; [lia|].
  destruct (f c); simpl; lia.
Qed.

Lemma suffix_star (f : ascii -> bool) : suffix_piece (p_star f).
Proof.
  intros s rest H. injection H as <-. apply dropwhile_length.
Qed.

Lemma suffix_plus (f : ascii -> bool) : suffix_piece (p_plus f).
Proof.
  intros [|c s] rest; simpl; [discriminate|].
  destruct (f c); [|discriminate]. intros H. injection H as <-.
  pose proof (dropwhile_length f s). lia.
Qed.

Lemma suffix_lit (l : str) : suffix_piece (p_lit l).
Proof.
  intros s rest. unfold p_lit. destruct (startswith l s); [|discriminate].
  intros H. injection H as <-. rewrite length_skipn. lia.
Qed.

Lemma suffix_lit_ci (l : str) : suffix_piece (p_lit_ci l).
Proof.
  intros s rest. unfold p_lit_ci. destruct (startswith_ci l s); [|discriminate].
  intros H. injection H as <-. rewrite length_skipn. lia.
Qed.

Lemma facility_id_prefix_consumes (s rest : str) :
  facility_id_prefix s = Some rest -> 12 + length rest <= length s.
Proof.
  unfold facility_id_prefix, p_seq, p_lit_ci, p_lit, p_star.
  destruct (startswith_ci (L "facility_id") s) eqn:E1; [|discriminate].
  remember (skipn (length (L "facility_id")) s) as s1 eqn:Hs1.
  destruct (startswith (L "=") (dropwhile isspace s1)) eqn:E2; [|discriminate].
  remember (skipn (length (L "=")) (dropwhile isspace s1)) as s2 eqn:Hs2.
  intros H. injection H as <-.
  pose proof (dropwhile_length isspace s2) as H1.
  pose proof (dropwhile_length isspace s1) as H2.
  apply startswith_shorter in E2. apply startswith_ci_shorter in E1.
  apply (f_equal (@length ascii)) in Hs1, Hs2.
  rewrite length_skipn in Hs1, Hs2.
  change (length (L "=")) with 1 in *.
  change (length (L "facility_id")) with 11 in *.
  lia.
Qed.

Lemma m_facility_id_wf : wf_matcher m_facility_id.
Proof.
  intros p s n rep. unfold m_facility_id.
  destruct (facility_id_prefix s) as [rest|] eqn:E; [|discriminate].
  destruct (takewhile isdecimal rest) as [|d ds] eqn:Ed; [discriminate|].
  intros H. injection H as <- _.
  apply facility_id_prefix_consumes in E.
  pose proof (takewhile_length isdecimal rest) as Ht. rewrite Ed in Ht.
  simpl in *. lia.
Qed.

Lemma m_facility_id_stable (p : option ascii) (x y : str) :
  x <> [] -> fstop y = true ->
  m_facility_id p (x ++ y) = m_facility_id p x.
Proof.
  intros Hx Hy. unfold m_facility_id.
  rewrite (facility_id_prefix_blind x y Hx Hy).
  destruct (facility_id_prefix x) as [x'|] eqn:E; [|reflexivity]. simpl.
  assert (Hd : takewhile isdecimal (x' ++ y) = takewhile isdecimal x').
  { apply takewhile_app_stop. destruct y as [|c y]; [exact I|].
    now destruct (fstop_head c y Hy) as (_ & ? & _). }
  rewrite Hd. destruct (takewhile isdecimal x'); [reflexivity|].
  apply facility_id_prefix_consumes in E.
  rewrite !length_app. do 2 f_equal. lia.
Qed.

Lemma m_facility_id_prev (p q : option ascii) (s : str) :
  m_facility_id p s = m_facility_id q s.
Proof. reflexivity. Qed.

Lemma sub_scan_facility_prev (s : str) (k : nat) (p q : option ascii) :
  sub_scan m_facility_id k p s = sub_scan m_facility_id k q s.
Proof. destruct s as [|c s]; reflexivity. Qed.

Lemma p_lit_ci_app (l name r : str) :
  lower name = lower l -> p_lit_ci l (name ++ r) = Some r.
Proof.
  intros H. unfold p_lit_ci.
  assert (Hs : startswith_ci l (name ++ r) = true /\
               skipn (length l) (name ++ r) = r).
  { revert name H. induction l as [|a l IH]; intros [|c name] H;
      simpl in H; try discriminate.
    - split; reflexivity.
    - injection H as Hc Hl. destruct (IH name Hl) as [I1 I2].
      simpl. rewrite Hc, Ascii.eqb_refl, I1. split; [reflexivity | exact I2]. }
  destruct Hs as [-> ->]. reflexivity.
Qed.

Lemma digit_not_space (c : ascii) : isdecimal c = true -> isspace c = false.
Proof. each_char c. Qed.

Lemma m_facility_id_occurrence (p : option ascii)
  (name ws1 ws2 ds post : str) :
  lower name = L "facility_id" ->
  forallb isspace ws1 = true -> forallb isspace ws2 = true ->
  forallb isdecimal ds = true -> ds <> [] ->
  no_digit_at post = true ->
  m_facility_id p ((name ++ ws1 ++ L "=" ++ ws2 ++ ds) ++ post) =
  Some (length (name ++ ws1 ++ L "=" ++ ws2 ++ ds), replace_facility_id ds).
Proof.
  intros Hname H1 H2 Hd Hne Hpost.
  assert (Hpre : facility_id_prefix
                   ((name ++ ws1 ++ L "=" ++ ws2 ++ ds) ++ post)
                 = Some (ds ++ post)).
  { unfold facility_id_prefix, p_seq.
    rewrite <- !app_assoc.
    rewrite (p_lit_ci_app (L "facility_id") name _ Hname).
    unfold p_star. rewrite (dropwhile_all isspace ws1 _ H1).
    change (dropwhile isspace (L "=" ++ ws2 ++ ds ++ post))
      with (L "=" ++ ws2 ++ ds ++ post).
    change (p_lit (L "=") (L "=" ++ ws2 ++ ds ++ post))
      with (Some (ws2 ++ ds ++ post)).
    cbv iota beta.
    rewrite (dropwhile_all isspace ws2 _ H2).
    destruct ds as [|d ds]; [congruence|]. simpl in Hd |- *.
    apply andb_true_iff in Hd as [Hd _].
    now rewrite (digit_not_space d Hd). }
  unfold m_facility_id. rewrite Hpre.
  assert (Ht : takewhile isdecimal (ds ++ post) = ds).
  { apply takewhile_all; [exact Hd|].
    destruct post as [|c post]; [exact I|]. simpl in Hpost.
    now apply negb_true_iff in Hpost. }
  rewrite Ht. destruct ds as [|d ds]; [congruence|].
  match goal with
  | |- Some (?a, _) = Some (?b, _) => replace a with b; [reflexivity|]
  end.
  repeat (rewrite length_app; simpl). lia.
Qed.

Lemma numerals_ok : forallb numeral_ok (seq 1 (Z.to_nat 9999)) = true.
Proof. vm_compute. reflexivity. Qed.

Lemma numeral_facts (N : Z) :
  (1 <= N <= 9999)%Z ->
  forallb isdecimal (str_of_int N) = true
  /\ str_of_int N <> []
  /\ length (zfill4 (str_of_int N)) = 4.
Proof.
  intros HN.
  pose proof (proj1 (forallb_forall numeral_ok (seq 1 (Z.to_nat 9999)))
                numerals_ok (Z.to_nat N)) as H.
  assert (Hin : In (Z.to_nat N) (seq 1 (Z.to_nat 9999)))
    by (apply in_seq; lia).
  apply H in Hin. unfold numeral_ok in Hin.
  rewrite Z2Nat.id in Hin by lia.
  apply andb_true_iff in Hin as [Hin H3].
  apply andb_true_iff in Hin as [H1 H2].
  apply Nat.leb_le in H2. apply Nat.eqb_eq in H3.
  repeat split; [exact H1 | | exact H3].
  intros E. rewrite E in H2. simpl in H2. lia.
Qed.

Lemma fstop_name (name rest : str) :
  lower name = L "facility_id" -> fstop (name ++ rest) = true.
Proof.
  destruct name as [|c name]; [discriminate|]. simpl.
  intros H. injection H as Hc _. rewrite Hc. reflexivity.
Qed.

(** Pass 1 on one comparison of the facility column with a bare integer:
    the comparison becomes the padded one, and the text on either side is
    rewritten on its own. *)
Lemma fix_facility_id_format_pads (pre name ws1 ws2 post : str) (N : Z) :
  lower name = L "facility_id" ->
  forallb isspace ws1 = true ->
  forallb isspace ws2 = true ->
  (1 <= N <= 9999)%Z ->
  no_digit_at post = true ->
  _fix_facility_id_format
    (pre ++ name ++ ws1 ++ L "=" ++ ws2 ++ str_of_int N ++ post)
  = _fix_facility_id_format pre
    ++ L "facility_id = '" ++ zfill4 (str_of_int N) ++ L "'"
    ++ _fix_facility_id_format post
  /\ length (zfill4 (str_of_int N)) = 4
  /\ zfill4 (str_of_int N)
     = repeat "0"%char (4 - length (str_of_int N)) ++ str_of_int N.
Proof.
  intros Hname H1 H2 HN Hpost.
  destruct (numeral_facts N HN) as (Hd & Hne & Hlen).
  split; [|split; [exact Hlen | reflexivity]].
  unfold _fix_facility_id_format, re_sub.
  set (occ := name ++ ws1 ++ L "=" ++ ws2 ++ str_of_int N).
  replace (pre ++ name ++ ws1 ++ L "=" ++ ws2 ++ str_of_int N ++ post)
    with (pre ++ (occ ++ post))
    by (unfold occ; now rewrite <- !app_assoc).
  rewrite (sub_scan_app_stop m_facility_id (fun _ => True) fstop
             m_facility_id_wf (fun _ _ _ _ => I)
             (fun p x y Hx _ Hy => m_facility_id_stable p x y Hx Hy)
             pre (occ ++ post));
    [| unfold occ; rewrite <- app_assoc; now apply fstop_name
     | destruct pre; [now left | now right]].
  f_equal.
  assert (Hocc : occ <> []).
  { unfold occ. destruct name; [discriminate Hname | discriminate]. }
  rewrite (sub_scan_match m_facility_id _ occ post
             (replace_facility_id (str_of_int N)) Hocc
             (m_facility_id_occurrence _ name ws1 ws2 (str_of_int N) post
                Hname H1 H2 Hd Hne Hpost)).
  unfold replace_facility_id. rewrite <- !app_assoc. do 3 f_equal.
  apply sub_scan_facility_prev.
Qed.

(* ===================================================================== *)
(** ** What a scan can make appear                                        *)
(* ===================================================================== *)


Lemma fires_app (r : option ascii -> str -> bool) (a b : str) :
  forall p,
    fires r p (a ++ b) = true ->
    (exists a1 a2, a = a1 ++ a2 /\ a2 <> [] /\ r (prev_after p a1) (a2 ++ b) = true)
    \/ fires r (prev_after p a) b = true.
Proof.
  induction a as [|c a IH]; intros p H.
  - now right.
  - simpl in H. apply orb_true_iff in H as [H|H].
    + left. exists [], (c :: a). repeat split; [discriminate | exact H].
    + destruct (IH _ H) as [(a1 & a2 & -> & Hne & Hr)|Hr].
      * left. exists (c :: a1), a2. repeat split; assumption.
      * now right.
Qed.

Lemma fires_suffix (r : option ascii -> str -> bool) (x s : str) :
  forall p, fires r (prev_after p x) s = true -> fires r p (x ++ s) = true.
Proof.
  induction x as [|c x IH]; intros p H; [exact H|].
  simpl. rewrite (IH _ H). apply orb_true_r.
Qed.

Lemma fires_here (r : option ascii -> str -> bool) (s1 s2 : str)
  (p : option ascii) :
  s2 <> [] -> r (prev_after p s1) s2 = true -> fires r p (s1 ++ s2) = true.
Proof.
  intros Hne H. apply fires_suffix. destruct s2 as [|c s2]; [congruence|].
  simpl. now rewrite H.
Qed.

(** If a test fires somewhere in the result of a scan, it fires in the
    scanned text at a position where the scan tried its pattern and failed,
    as soon as: a test that fires at the head of a result fires at the head
    of the text, which is then copied ([head_copied]); no test fires from
    inside a replacement ([inside_quiet]); the characters before the two
    positions stay related ([rel]). *)
Section Preserve.
Variable r : option ascii -> str -> bool.
Variable m : matcher.
Variable rel : option ascii -> option ascii -> Prop.

Hypothesis rel_copy : forall c, rel (Some c) (Some c).
Hypothesis rel_match :
  forall p x rest rep q,
    x <> [] -> m p (x ++ rest) = Some (length x, rep) ->
    rel (prev_after q rep) (prev_after p x).
Hypothesis head_copied :
  forall p s o q,
    scans m p s o -> rel q p -> r q o = true ->
    r p s = true /\ m p s = None.
Hypothesis inside_quiet :
  forall p x rest rep o q r1 r2,
    m p (x ++ rest) = Some (length x, rep) ->
    rep = r1 ++ r2 -> r1 <> [] -> r2 <> [] ->
    r (prev_after q r1) (r2 ++ o) = false.

Lemma fires_scans (p : option ascii) (s o : str) :
  scans m p s o ->
  forall q, rel q p -> fires r q o = true ->
  exists s1 s2,
    s = s1 ++ s2 /\ r (prev_after p s1) s2 = true
    /\ m (prev_after p s1) s2 = None.
Proof.
  intros Hsc. induction Hsc as [p|p c s o Hm Hsc IH|p x rest rep o Hx Hm Hsc IH];
    intros q Hq Hf.
  - discriminate.
  - simpl in Hf. apply orb_true_iff in Hf as [Hf|Hf].
    + destruct (head_copied p (c :: s) (c :: o) q
                  (scans_copy m p c s o Hm Hsc) Hq Hf) as [H1 H2].
      now exists [], (c :: s).
    + destruct (IH (Some c) (rel_copy c) Hf) as (s1 & s2 & -> & H1 & H2).
      now exists (c :: s1), s2.
  - apply fires_app in Hf as [(r1 & r2 & Hrep & Hne & Hf)|Hf].
    + destruct r1 as [|c1 r1].
      * simpl in Hrep, Hf. subst r2.
        destruct (head_copied p (x ++ rest) (rep ++ o) q
                    (scans_match m p x rest rep o Hx Hm Hsc) Hq Hf)
          as [_ H2].
        congruence.
      * rewrite (inside_quiet p x rest rep o q (c1 :: r1) r2 Hm Hrep)
          in Hf; [discriminate | discriminate | exact Hne].
    + destruct (IH (prev_after q rep) (rel_match p x rest rep q Hx Hm) Hf)
        as (s1 & s2 & -> & H1 & H2).
      exists (x ++ s1), s2. rewrite prev_after_app.
      repeat split; [now rewrite app_assoc | exact H1 | exact H2].
Qed.
End Preserve.

(* ===================================================================== *)
(** ** Texts without a facility pattern                                   *)
(* ===================================================================== *)

Lemma alv_dig_sound (r t : str) : acc_dig (r ++ t) = true -> alv_dig r = true.
Proof.
  induction r as [|c r IH]; simpl; [reflexivity|].
  destruct (isspace c); [exact IH | trivial].
Qed.

Lemma alv_eq_sound (r t : str) : acc_eq (r ++ t) = true -> alv_eq r = true.
Proof.
  induction r as [|c r IH]; simpl; [reflexivity|].
  destruct (isspace c); [exact IH|].
  destruct (Ascii.eqb c "="); [apply alv_dig_sound | trivial].
Qed.

Lemma alv_lit_sound (l r t : str) :
  acc_lit l (r ++ t) = true -> alv_lit l r = true.
Proof.
  revert r; induction l as [|a l IH]; intros r; simpl.
  - apply alv_eq_sound.
  - destruct r as [|c r]; simpl; [reflexivity|].
    intros H. apply andb_true_iff in H as [-> H]. now apply IH.
Qed.

Lemma tails1_in (r1 r2 : str) : r2 <> [] -> In r2 (tails1 (r1 ++ r2)).
Proof.
  intros Hne. induction r1 as [|c r1 IH]; simpl.
  - destruct r2; [congruence | now left].
  - now right.
Qed.

Lemma tails1_cons (a : ascii) (l l2 : str) :
  In l2 (tails1 l) -> In l2 (tails1 (a :: l)).
Proof. intros H. now right. Qed.

Lemma tails1_self (a : ascii) (l : str) : In (a :: l) (tails1 (a :: l)).
Proof. now left. Qed.

(** A rewrite whose replacement is one fixed text that passes the two
    checks is tame. *)
Lemma tame_F_const (m : matcher) (rep : str) :
  (forall p s n rep', m p s = Some (n, rep') -> rep' = rep) ->
  rep_ok_F rep = true -> tame_F m.
Proof.
  intros Hc Hok. unfold rep_ok_F, cont_ok_F, in_ok_F in Hok.
  apply andb_true_iff in Hok as [Hok Hin].
  apply andb_true_iff in Hok as [Hok Hlit].
  apply andb_true_iff in Hok as [Hdig Heq].
  apply negb_true_iff in Hdig, Heq.
  rewrite forallb_forall in Hlit, Hin.
  constructor.
  - intros p s n rep' t Hm. rewrite (Hc _ _ _ _ Hm).
    destruct (acc_dig (rep ++ t)) eqn:E; [|reflexivity].
    apply alv_dig_sound in E. congruence.
  - intros p s n rep' t Hm. rewrite (Hc _ _ _ _ Hm).
    destruct (acc_eq (rep ++ t)) eqn:E; [|reflexivity].
    apply alv_eq_sound in E. congruence.
  - intros p s n rep' t l Hm Hl. rewrite (Hc _ _ _ _ Hm).
    destruct (acc_lit l (rep ++ t)) eqn:E; [|reflexivity].
    apply alv_lit_sound in E. apply Hlit in Hl.
    rewrite E in Hl. discriminate.
  - intros p s n rep' t r1 r2 Hm Hrep Hne.
    rewrite (Hc _ _ _ _ Hm) in Hrep.
    destruct (acc_lit (L "facility_id") (r2 ++ t)) eqn:E; [|reflexivity].
    apply alv_lit_sound in E.
    assert (Hin2 : In r2 (tails1 rep)) by (subst rep; now apply tails1_in).
    apply Hin in Hin2. rewrite E in Hin2. discriminate.
Qed.

Section FacilityPreserved.
Variable m : matcher.
Hypothesis m_tame : tame_F m.

Lemma scans_acc_dig (p : option ascii) (s o : str) :
  scans m p s o -> acc_dig o = true -> acc_dig s = true.
Proof.
  intros Hsc. induction Hsc as [p|p c s o Hm Hsc IH|p x rest rep o Hx Hm Hsc IH].
  - trivial.
  - simpl. destruct (isspace c); [exact IH | trivial].
  - intros H. now rewrite (tf_dig m m_tame _ _ _ _ o Hm) in H.
Qed.

Lemma scans_acc_eq (p : option ascii) (s o : str) :
  scans m p s o -> acc_eq o = true -> acc_eq s = true.
Proof.
  intros Hsc. induction Hsc as [p|p c s o Hm Hsc IH|p x rest rep o Hx Hm Hsc IH].
  - trivial.
  - simpl. destruct (isspace c); [exact IH|].
    destruct (Ascii.eqb c "="); [|trivial].
    now apply scans_acc_dig with (p := Some c).
  - intros H. now rewrite (tf_eq m m_tame _ _ _ _ o Hm) in H.
Qed.

Lemma scans_acc_lit (l : str) :
  (forall l2, In l2 (tails1 l) -> In l2 (tails1 (L "facility_id"))) ->
  forall p s o,
    scans m p s o -> acc_lit l o = true ->
    acc_lit l s = true /\ (l <> [] -> m p s = None).
Proof.
  induction l as [|a l IH]; intros Hl p s o Hsc Ho.
  - split; [|congruence]. simpl in *. now apply scans_acc_eq with (p := p) (o := o).
  - assert (Hl' : forall l2, In l2 (tails1 l) ->
                             In l2 (tails1 (L "facility_id")))
      by (intros l2 H2; apply Hl; now apply tails1_cons).
    destruct Hsc as [p|p c s o Hm Hsc|p x rest rep o Hx Hm Hsc].
    + discriminate.
    + simpl in Ho |- *. apply andb_true_iff in Ho as [Hc Ho].
      destruct (IH Hl' (Some c) s o Hsc Ho) as [H1 _].
      rewrite Hc, H1. split; [reflexivity | now intros _].
    + rewrite (tf_lit m m_tame _ _ _ _ o (a :: l) Hm) in Ho;
        [discriminate | apply Hl, tails1_self].
Qed.

Lemma facility_head_copied (p : option ascii) (s o : str) (q : option ascii) :
  scans m p s o -> True -> facility_here q o = true ->
  facility_here p s = true /\ m p s = None.
Proof.
  intros Hsc _ Ho. unfold facility_here in *.
  destruct (scans_acc_lit (L "facility_id") (fun _ H => H) p s o Hsc Ho)
    as [H1 H2].
  split; [exact H1 | apply H2; discriminate].
Qed.

Lemma facility_fires_scans (p : option ascii) (s o : str) (q : option ascii) :
  scans m p s o -> fires facility_here q o = true ->
  exists s1 s2,
    s = s1 ++ s2 /\ facility_here (prev_after p s1) s2 = true
    /\ m (prev_after p s1) s2 = None.
Proof.
  intros Hsc Hf.
  apply (fires_scans facility_here m (fun _ _ => True)) with (o := o) (q := q);
    try exact I; try exact Hsc; try exact Hf.
  - intros; exact I.
  - intros; exact I.
  - exact facility_head_copied.
  - intros p0 x rest rep o0 q0 r1 r2 Hm Hrep Hr1 Hr2. unfold facility_here.
    exact (tf_in m m_tame _ _ _ _ o0 r1 r2 Hm Hrep Hr2).
Qed.

Lemma facility_free_sub (s : str) :
  wf_matcher m -> facility_free s -> facility_free (re_sub m s).
Proof.
  intros Hwf Hs. unfold facility_free in *.
  destruct (fires facility_here None (re_sub m s)) eqn:E; [|reflexivity].
  destruct (facility_fires_scans None s (re_sub m s) None
              (sub_scan_scans m Hwf s None) E) as (s1 & s2 & -> & H1 & _).
  assert (Hne : s2 <> []) by (intros ->; discriminate H1).
  rewrite (fires_here facility_here s1 s2 None Hne H1) in Hs.
  discriminate.
Qed.
End FacilityPreserved.

(** The reader [acc_lit] decides the same thing as the pattern of pass 1. *)
Lemma acc_dig_spec (s : str) :
  match takewhile isdecimal (dropwhile isspace s) with
  | [] => false
  | _ :: _ => true
  end = acc_dig s.
Proof.
  induction s as [|c s IH]; [reflexivity|]. simpl.
  destruct (isspace c) eqn:Hc; [exact IH|].
  simpl. destruct (isdecimal c); reflexivity.
Qed.

Lemma acc_eq_spec (s : str) :
  match (p_lit (L "=") >> p_star isspace) (dropwhile isspace s) with
  | Some rest => match takewhile isdecimal rest with
                 | [] => false
                 | _ :: _ => true
                 end
  | None => false
  end = acc_eq s.
Proof.
  induction s as [|c s IH]; [reflexivity|]. simpl.
  destruct (isspace c) eqn:Hc; [exact IH|].
  unfold p_seq, p_lit, p_star. simpl.
  rewrite andb_true_r, (Ascii.eqb_sym "=" c).
  destruct (Ascii.eqb c "="); simpl; [apply acc_dig_spec | reflexivity].
Qed.

Lemma acc_lit_spec (l s : str) :
  match p_lit_ci l s with
  | Some s1 => acc_eq s1
  | None => false
  end = acc_lit l s.
Proof.
  revert s; induction l as [|a l IH]; intros s.
  - reflexivity.
  - destruct s as [|c s]; [reflexivity|].
    rewrite p_lit_ci_cons. simpl.
    destruct (Ascii.eqb (lower_char a) (lower_char c)); [apply IH | reflexivity].
Qed.

Lemma m_facility_id_acc (p : option ascii) (s : str) :
  matches_at m_facility_id p s = facility_here p s.
Proof.
  unfold facility_here. rewrite <- acc_lit_spec.
  unfold matches_at, m_facility_id, facility_id_prefix.
  unfold p_seq at 1 2 3.
  destruct (p_lit_ci (L "facility_id") s) as [s1|]; [|reflexivity].
  rewrite <- acc_eq_spec. unfold p_star at 1. unfold p_seq.
  destruct (p_lit (L "=") (dropwhile isspace s1)) as [s3|]; [|reflexivity].
  unfold p_star.
  destruct (takewhile isdecimal (dropwhile isspace s3)); reflexivity.
Qed.

Lemma takewhile_forallb (f : ascii -> bool) (s : str) :
  forallb f (takewhile f s) = true.
Proof.
  induction s as [|c s IH]; [reflexivity|]. simpl.
  destruct (f c) eqn:E; [simpl; now rewrite E | reflexivity].
Qed.

Lemma digit_not_f (c : ascii) :
  isdecimal c = true -> lower_char c <> "f"%char.
Proof. each_char c. Qed.

Lemma acc_lit_head (c : ascii) (s : str) :
  lower_char c <> "f"%char -> acc_lit (L "facility_id") (c :: s) = false.
Proof.
  intros H. simpl. change (lower_char "f") with "f"%char.
  destruct (Ascii.eqb "f" (lower_char c)) eqn:E; [|reflexivity].
  apply Ascii.eqb_eq in E. congruence.
Qed.

Lemma acc_lit_inside (r r1 r2 t : str) :
  Forall (fun c => lower_char c <> "f"%char) r ->
  r = r1 ++ r2 -> r2 <> [] ->
  acc_lit (L "facility_id") (r2 ++ t) = false.
Proof.
  intros Hr -> Hne. apply Forall_app in Hr as [_ Hr].
  destruct r2 as [|c r2]; [congruence|].
  apply acc_lit_head. now inversion Hr.
Qed.

Lemma padded_no_f (ds : str) :
  forallb isdecimal ds = true ->
  Forall (fun c => lower_char c <> "f"%char)
         (L "acility_id = '" ++ zfill4 ds ++ L "'").
Proof.
  intros Hd. apply Forall_app. split.
  - repeat constructor; vm_compute; discriminate.
  - apply Forall_app. split; [|repeat constructor; vm_compute; discriminate].
    unfold zfill4. apply Forall_app. split.
    + apply Forall_forall. intros c Hc. apply repeat_spec in Hc. subst c.
      vm_compute. discriminate.
    + apply Forall_forall. intros c Hc. apply digit_not_f.
      rewrite forallb_forall in Hd. now apply Hd.
Qed.

Lemma m_facility_id_rep (p : option ascii) (s : str) (n : nat) (rep : str) :
  m_facility_id p s = Some (n, rep) ->
  exists ds, forallb isdecimal ds = true /\ rep = replace_facility_id ds.
Proof.
  unfold m_facility_id.
  destruct (facility_id_prefix s) as [rest|]; [|discriminate].
  pose proof (takewhile_forallb isdecimal rest) as Hd.
  destruct (takewhile isdecimal rest) as [|d ds]; [discriminate|].
  intros H. injection H as _ <-. now exists (d :: ds).
Qed.

Lemma m_facility_id_tame : tame_F m_facility_id.
Proof.
  constructor.
  - intros p s n rep t Hm.
    destruct (m_facility_id_rep p s n rep Hm) as (ds & _ & ->). reflexivity.
  - intros p s n rep t Hm.
    destruct (m_facility_id_rep p s n rep Hm) as (ds & _ & ->). reflexivity.
  - intros p s n rep t l Hm Hl.
    destruct (m_facility_id_rep p s n rep Hm) as (ds & _ & ->).
    simpl in Hl.
    repeat (destruct Hl as [<-|Hl]; [reflexivity|]). contradiction.
  - intros p s n rep t r1 r2 Hm Hrep Hne.
    destruct (m_facility_id_rep p s n rep Hm) as (ds & Hd & ->).
    destruct r1 as [|c1 r1].
    + simpl in Hrep. subst r2. reflexivity.
    + unfold replace_facility_id in Hrep.
      change (L "facility_id = '") with ("f"%char :: L "acility_id = '") in Hrep.
      simpl in Hrep. injection Hrep as _ Hrep.
      exact (acc_lit_inside _ r1 r2 t (padded_no_f ds Hd) Hrep Hne).
Qed.

(** After pass 1 no facility pattern is left, so pass 1 has nothing more to
    do on its own result, nor on any text without a facility pattern. *)
Lemma fix_facility_id_format_free (s : str) :
  facility_free (_fix_facility_id_format s).
Proof.
  unfold facility_free, _fix_facility_id_format.
  destruct (fires facility_here None (re_sub m_facility_id s)) eqn:E;
    [|reflexivity].
  destruct (facility_fires_scans m_facility_id m_facility_id_tame None s
              (re_sub m_facility_id s) None
              (sub_scan_scans m_facility_id m_facility_id_wf s None) E)
    as (s1 & s2 & _ & H1 & H2).
  rewrite <- m_facility_id_acc in H1. unfold matches_at in H1.
  rewrite H2 in H1. discriminate.
Qed.


(* ===================================================================== *)
(** ** Texts without a whole-word [COUNTIf]                               *)
(* ===================================================================== *)

Lemma startswith_app_comparable (w r t : str) :
  startswith w (r ++ t) = true -> comparable w r = true.
Proof.
  revert r; induction w as [|a w IH]; intros r H.
  - reflexivity.
  - destruct r as [|c r].
    + reflexivity.
    + simpl in H. apply andb_true_iff in H as [Hac H].
      apply IH in H. apply Ascii.eqb_eq in Hac. subst c.
      unfold comparable in *. simpl. rewrite Ascii.eqb_refl. exact H.
Qed.

Lemma word_at_app (r t : str) : r <> [] -> word_at (r ++ t) = word_at r.
Proof. destruct r; [congruence | reflexivity]. Qed.

Lemma tame_W_const (m : matcher) (rep : str) :
  (forall p s n rep', m p s = Some (n, rep') ->
     rep' = rep
     /\ (word_at rep = false -> word_at s = false)
     /\ (word_last rep = false -> word_last (firstn n s) = false)) ->
  rep_ok_W rep = true -> tame_W m.
Proof.
  intros Hc Hok. unfold rep_ok_W in Hok.
  apply andb_true_iff in Hok as [Hok Hin].
  apply andb_true_iff in Hok as [Hne Hcont].
  rewrite forallb_forall in Hcont, Hin.
  constructor.
  - intros p s n rep' Hm. destruct (Hc _ _ _ _ Hm) as (-> & _ & _).
    destruct rep; [discriminate | discriminate].
  - intros p s n rep' t w Hm Hw. destruct (Hc _ _ _ _ Hm) as (-> & _ & _).
    destruct (startswith w (rep ++ t)) eqn:E; [|reflexivity].
    apply startswith_app_comparable in E. apply Hcont in Hw.
    rewrite E in Hw. discriminate.
  - intros p s n rep' t r1 r2 Hm Hrep Hr2.
    destruct (Hc _ _ _ _ Hm) as (-> & _ & _).
    destruct (startswith countif_word (r2 ++ t)) eqn:E; [|reflexivity].
    apply startswith_app_comparable in E.
    assert (Hin2 : In r2 (tails1 rep)) by (subst rep; now apply tails1_in).
    apply Hin in Hin2. rewrite E in Hin2. discriminate.
  - intros p s n rep' Hm. destruct (Hc _ _ _ _ Hm) as (-> & H & _). exact H.
  - intros p s n rep' Hm. destruct (Hc _ _ _ _ Hm) as (-> & _ & H). exact H.
Qed.

Section CountifPreserved.
Variable m : matcher.
Hypothesis m_tame : tame_W m.

Lemma scans_startswith (w : str) :
  (forall w2, In w2 (tails1 w) -> In w2 (tails1 countif_word)) ->
  forall p s o,
    scans m p s o -> startswith w o = true ->
    startswith w s = true
    /\ (word_at (skipn (length w) o) = false ->
        word_at (skipn (length w) s) = false)
    /\ (w <> [] -> m p s = None).
Proof.
  induction w as [|a w IH]; intros Hw p s o Hsc Ho.
  - split; [reflexivity|]. split; [|congruence]. simpl.
    destruct Hsc as [p|p c s o Hm Hsc|p x rest rep o Hx Hm Hsc].
    + trivial.
    + trivial.
    + rewrite (word_at_app rep o (tw_nonempty m m_tame _ _ _ _ Hm)).
      exact (tw_head m m_tame _ _ _ _ Hm).
  - assert (Hw' : forall w2, In w2 (tails1 w) -> In w2 (tails1 countif_word))
      by (intros w2 H2; apply Hw; now apply tails1_cons).
    destruct Hsc as [p|p c s o Hm Hsc|p x rest rep o Hx Hm Hsc].
    + discriminate.
    + simpl in Ho |- *. apply andb_true_iff in Ho as [Hc Ho].
      destruct (IH Hw' (Some c) s o Hsc Ho) as (H1 & H2 & _).
      rewrite Hc, H1. repeat split; [exact H2 | now intros _].
    + rewrite (tw_cont m m_tame _ _ _ _ o (a :: w) Hm) in Ho;
        [discriminate | apply Hw, tails1_self].
Qed.

Lemma countif_head_copied (p : option ascii) (s o : str) (q : option ascii) :
  scans m p s o -> rel_W q p -> countif_here q o = true ->
  countif_here p s = true /\ m p s = None.
Proof.
  intros Hsc Hq Ho. unfold countif_here, word_here in *.
  apply andb_true_iff in Ho as [Ho Hr].
  apply andb_true_iff in Ho as [Ho Hl].
  apply negb_true_iff in Hl, Hr.
  destruct (scans_startswith countif_word (fun _ H => H) p s o Hsc Ho)
    as (H1 & H2 & H3).
  rewrite H1, (Hq Hl), (H2 Hr). split; [reflexivity|].
  apply H3. discriminate.
Qed.

Lemma word_last_nonempty (q : option ascii) (x : str) :
  x <> [] -> word_before (prev_after q x) = word_last x.
Proof.
  intros Hx. unfold word_last. now rewrite (prev_after_nonempty q None x Hx).
Qed.

Lemma countif_fires_scans (p : option ascii) (s o : str) (q : option ascii) :
  scans m p s o -> rel_W q p -> fires countif_here q o = true ->
  exists s1 s2,
    s = s1 ++ s2 /\ countif_here (prev_after p s1) s2 = true
    /\ m (prev_after p s1) s2 = None.
Proof.
  intros Hsc Hq Hf.
  apply (fires_scans countif_here m rel_W) with (o := o) (q := q);
    try exact Hsc; try exact Hf; try exact Hq.
  - intros c H. exact H.
  - intros p0 x rest rep q0 Hx Hm. unfold rel_W.
    rewrite (word_last_nonempty q0 rep (tw_nonempty m m_tame _ _ _ _ Hm)).
    rewrite (word_last_nonempty p0 x Hx).
    intros H. pose proof (tw_last m m_tame _ _ _ _ Hm H) as H'.
    now rewrite firstn_app, Nat.sub_diag, firstn_all, app_nil_r in H'.
  - exact countif_head_copied.
  - intros p0 x rest rep o0 q0 r1 r2 Hm Hrep Hr1 Hr2.
    unfold countif_here, word_here.
    now rewrite (tw_in m m_tame _ _ _ _ o0 r1 r2 Hm Hrep Hr2).
Qed.

Lemma countif_free_scan (p : option ascii) (s : str) :
  wf_matcher m -> countif_free p s -> countif_free p (sub_scan m 0 p s).
Proof.
  intros Hwf Hs. unfold countif_free in *.
  destruct (fires countif_here p (sub_scan m 0 p s)) eqn:E; [|reflexivity].
  destruct (countif_fires_scans p s (sub_scan m 0 p s) p
              (sub_scan_scans m Hwf s p) (fun H => H) E)
    as (s1 & s2 & -> & H1 & _).
  assert (Hne : s2 <> []) by (intros ->; discriminate H1).
  rewrite (fires_here countif_here s1 s2 p Hne H1) in Hs.
  discriminate.
Qed.
End CountifPreserved.

Lemma fires_inv (r : option ascii -> str -> bool) (s : str) :
  forall p, fires r p s = true ->
            exists s1 s2, s = s1 ++ s2 /\ r (prev_after p s1) s2 = true.
Proof.
  induction s as [|c s IH]; intros p H; [discriminate|].
  simpl in H. apply orb_true_iff in H as [H|H].
  - now exists [], (c :: s).
  - destruct (IH _ H) as (s1 & s2 & -> & Hr). now exists (c :: s1), s2.
Qed.

Lemma skipn_length_app (w post : str) : skipn (length w) (w ++ post) = post.
Proof. induction w; [reflexivity | assumption]. Qed.

(** [fires (word_here w)] says exactly that there is a whole-word
    occurrence. *)
Lemma whole_word_fires (w s : str) :
  w <> [] ->
  (fires (word_here w) None s = true <-> whole_word_occurrence w s).
Proof.
  intros Hw. split.
  - intros H. apply fires_inv in H as (s1 & s2 & -> & H).
    unfold word_here in H.
    apply andb_true_iff in H as [H Hr]. apply andb_true_iff in H as [H Hl].
    apply negb_true_iff in Hl, Hr.
    exists s1, (skipn (length w) s2). repeat split.
    + f_equal. now apply startswith_split.
    + exact Hl.
    + exact Hr.
  - intros (pre & post & -> & Hl & Hr).
    apply fires_here; [destruct w; [congruence | discriminate]|].
    unfold word_here.
    now rewrite startswith_app, Hl, skipn_length_app, Hr.
Qed.

Lemma m_countif_here (p : option ascii) (s : str) :
  m_countif p s = if countif_here p s then Some (7, L "countIf") else None.
Proof. reflexivity. Qed.

Lemma m_countif_inv (p : option ascii) (s : str) (n : nat) (rep : str) :
  m_countif p s = Some (n, rep) ->
  n = 7 /\ rep = L "countIf" /\ startswith countif_word s = true.
Proof.
  rewrite m_countif_here. unfold countif_here, word_here.
  destruct (startswith countif_word s); [|discriminate].
  destruct (true && negb (word_before p) && negb (word_at _)); [|discriminate].
  intros H. injection H as <- <-. repeat split.
Qed.

Lemma m_countif_wf : wf_matcher m_countif.
Proof.
  intros p s n rep H. apply m_countif_inv in H as (-> & _ & H).
  apply startswith_shorter in H. change (length countif_word) with 7 in H. lia.
Qed.

Lemma m_countif_tame : tame_W m_countif.
Proof.
  apply tame_W_const with (rep := L "countIf").
  - intros p s n rep' H. apply m_countif_inv in H as (_ & -> & _).
    repeat split; discriminate.
  - vm_compute. reflexivity.
Qed.

(** After the casing rewrite no whole-word [COUNTIf] is left. *)
Lemma fix_countif_free (s : str) : countif_free None (fix_countif s).
Proof.
  unfold countif_free, fix_countif, re_sub.
  destruct (fires countif_here None (sub_scan m_countif 0 None s)) eqn:E;
    [|reflexivity].
  destruct (countif_fires_scans m_countif m_countif_tame None s _ None
              (sub_scan_scans m_countif m_countif_wf s None) (fun H => H) E)
    as (s1 & s2 & _ & H1 & H2).
  rewrite m_countif_here, H1 in H2. discriminate.
Qed.


(** The casing rewrite only changes the case of letters, and the facility
    pattern does not look at the case. *)
Lemma lower_char_idem (c : ascii) : lower_char (lower_char c) = lower_char c.
Proof. each_char c. Qed.

Lemma isspace_lower (c : ascii) : isspace (lower_char c) = isspace c.
Proof. each_char c. Qed.

Lemma isdecimal_lower (c : ascii) : isdecimal (lower_char c) = isdecimal c.
Proof. each_char c. Qed.

Lemma is_eq_lower (c : ascii) :
  Ascii.eqb (lower_char c) "="%char = Ascii.eqb c "="%char.
Proof. each_char c. Qed.

Lemma acc_dig_lower (s : str) : acc_dig (lower s) = acc_dig s.
Proof.
  induction s as [|c s IH]; [reflexivity|]. simpl.
  now rewrite isspace_lower, isdecimal_lower, IH.
Qed.

Lemma acc_eq_lower (s : str) : acc_eq (lower s) = acc_eq s.
Proof.
  induction s as [|c s IH]; [reflexivity|]. simpl.
  now rewrite isspace_lower, is_eq_lower, acc_dig_lower, IH.
Qed.

Lemma acc_lit_lower (l s : str) : acc_lit l (lower s) = acc_lit l s.
Proof.
  revert s; induction l as [|a l IH]; intros s.
  - apply acc_eq_lower.
  - destruct s as [|c s]; [reflexivity|]. simpl.
    now rewrite lower_char_idem, IH.
Qed.

Lemma fires_facility_lower (s : str) :
  forall p q, fires facility_here p (lower s) = fires facility_here q s.
Proof.
  induction s as [|c s IH]; intros p q; [reflexivity|].
  simpl. unfold facility_here at 1 3.
  change (lower_char c :: lower s) with (lower (c :: s)).
  now rewrite acc_lit_lower, (IH (Some (lower_char c)) (Some c)).
Qed.

Lemma facility_free_lower (s t : str) :
  lower s = lower t -> facility_free t -> facility_free s.
Proof.
  unfold facility_free. intros H Ht.
  now rewrite <- (fires_facility_lower s None None), H,
              (fires_facility_lower t None None).
Qed.

Lemma scans_countif_lower (p : option ascii) (s o : str) :
  scans m_countif p s o -> lower o = lower s.
Proof.
  intros H. induction H as [p|p c s o Hm Hsc IH|p x rest rep o Hx Hm Hsc IH].
  - reflexivity.
  - simpl. now rewrite IH.
  - apply m_countif_inv in Hm as (Hn & -> & Hs).
    apply startswith_split in Hs.
    change (length countif_word) with 7 in Hs. rewrite <- Hn in Hs.
    rewrite skipn_length_app in Hs. apply app_inv_tail in Hs. subst x.
    rewrite !lower_app, IH. reflexivity.
Qed.

Lemma fix_countif_keeps_facility_free (s : str) :
  facility_free s -> facility_free (fix_countif s).
Proof.
  apply facility_free_lower.
  exact (scans_countif_lower None s _
           (sub_scan_scans m_countif m_countif_wf s None)).
Qed.

(* ===================================================================== *)
(** ** The rewrites of passes 2 to 4                                      *)
(* ===================================================================== *)

Lemma m_literal_inv (old new : str) (p : option ascii) (s : str) (n : nat)
  (rep : str) :
  m_literal old new p s = Some (n, rep) ->
  n = length old /\ rep = new /\ startswith old s = true.
Proof.
  unfold m_literal. destruct (startswith old s); [|discriminate].
  intros H. injection H as <- <-. repeat split.
Qed.

Lemma m_literal_wf (old new : str) : old <> [] -> wf_matcher (m_literal old new).
Proof.
  intros Hne p s n rep H. apply m_literal_inv in H as (-> & _ & H).
  apply startswith_shorter in H. destruct old; [congruence|]. simpl in *. lia.
Qed.

Lemma m_literal_ci_inv (old new : str) (p : option ascii) (s : str) (n : nat)
  (rep : str) :
  m_literal_ci old new p s = Some (n, rep) ->
  n = length old /\ rep = new /\ startswith_ci old s = true.
Proof.
  unfold m_literal_ci. destruct (startswith_ci old s); [|discriminate].
  intros H. injection H as <- <-. repeat split.
Qed.

Lemma m_literal_ci_wf (old new : str) :
  old <> [] -> wf_matcher (m_literal_ci old new).
Proof.
  intros Hne p s n rep H. apply m_literal_ci_inv in H as (-> & _ & H).
  apply startswith_ci_shorter in H. destruct old; [congruence|]. simpl in *. lia.
Qed.

Lemma consuming_seq (P Q : piece) :
  consuming P -> suffix_piece Q -> consuming (P >> Q).
Proof.
  intros HP HQ s rest. unfold p_seq.
  destruct (P s) as [s'|] eqn:E; [|discriminate].
  intros H. apply HP in E. apply HQ in H. lia.
Qed.

Lemma consuming_lit (l : str) : l <> [] -> consuming (p_lit l).
Proof.
  intros Hne s rest. unfold p_lit. destruct (startswith l s) eqn:E; [|discriminate].
  intros H. injection H as <-. apply startswith_shorter in E.
  rewrite length_skipn. destruct l; [congruence|]. simpl in *. lia.
Qed.

Lemma consuming_lit_ci (l : str) : l <> [] -> consuming (p_lit_ci l).
Proof.
  intros Hne s rest. unfold p_lit_ci.
  destruct (startswith_ci l s) eqn:E; [|discriminate].
  intros H. injection H as <-. apply startswith_ci_shorter in E.
  rewrite length_skipn. destruct l; [congruence|]. simpl in *. lia.
Qed.

Lemma m_piece_inv (P : piece) (rep : str) (p : option ascii) (s : str)
  (n : nat) (rep' : str) :
  m_piece P rep p s = Some (n, rep') ->
  rep' = rep /\ exists rest, P s = Some rest /\ n = length s - length rest.
Proof.
  unfold m_piece. destruct (P s) as [rest|]; [|discriminate].
  intros H. injection H as <- <-. split; [reflexivity|]. now exists rest.
Qed.

Lemma m_piece_wf (P : piece) (rep : str) :
  consuming P -> wf_matcher (m_piece P rep).
Proof.
  intros HP p s n rep' H.
  apply m_piece_inv in H as (_ & rest & H & ->). apply HP in H. lia.
Qed.

Lemma m_avg_time_wf : wf_matcher m_avg_time.
Proof.
  apply m_piece_wf. apply consuming_seq; [|apply suffix_lit].
  apply consuming_seq; [|apply suffix_plus].
  apply consuming_lit. discriminate.
Qed.

Lemma m_is_null_wf (field : str) : field <> [] -> wf_matcher (m_is_null field).
Proof.
  intros Hf. apply m_piece_wf.
  repeat (apply consuming_seq;
          [|first [apply suffix_lit_ci | apply suffix_plus]]).
  now apply consuming_lit_ci.
Qed.

Lemma m_eq_empty_wf (field : str) : field <> [] -> wf_matcher (m_eq_empty field).
Proof.
  intros Hf. apply m_piece_wf.
  repeat (apply consuming_seq;
          [|first [apply suffix_lit_ci | apply suffix_star]]).
  now apply consuming_lit_ci.
Qed.

(** Tameness of the rewrites with a fixed replacement. *)
Lemma tame_F_literal (old new : str) :
  rep_ok_F new = true -> tame_F (m_literal old new).
Proof.
  apply tame_F_const. intros p s n rep H.
  now apply m_literal_inv in H as (_ & -> & _).
Qed.

Lemma tame_F_literal_ci (old new : str) :
  rep_ok_F new = true -> tame_F (m_literal_ci old new).
Proof.
  apply tame_F_const. intros p s n rep H.
  now apply m_literal_ci_inv in H as (_ & -> & _).
Qed.

Lemma tame_F_piece (P : piece) (rep : str) :
  rep_ok_F rep = true -> tame_F (m_piece P rep).
Proof.
  apply tame_F_const. intros p s n rep' H.
  now apply m_piece_inv in H as (-> & _).
Qed.

Lemma firstn_startswith (old s : str) :
  startswith old s = true -> firstn (length old) s = old.
Proof.
  intros H. apply startswith_split in H. rewrite H at 1.
  now rewrite firstn_app, Nat.sub_diag, firstn_all, app_nil_r.
Qed.

Lemma word_at_startswith (old s : str) :
  old <> [] -> startswith old s = true -> word_at s = word_at old.
Proof.
  intros Hne H. apply startswith_split in H. rewrite H.
  now apply word_at_app.
Qed.

Lemma edge_ok_head (old new : str) :
  edge_ok old new = true -> word_at new = false -> word_at old = false.
Proof.
  unfold edge_ok. intros H Hn. apply andb_true_iff in H as [H _].
  rewrite Hn in H. simpl in H. now apply negb_true_iff in H.
Qed.

Lemma edge_ok_last (old new : str) :
  edge_ok old new = true -> word_last new = false -> word_last old = false.
Proof.
  unfold edge_ok. intros H Hn. apply andb_true_iff in H as [_ H].
  rewrite Hn in H. simpl in H. now apply negb_true_iff in H.
Qed.

Lemma tame_W_literal (old new : str) :
  old <> [] -> rep_ok_W new = true -> edge_ok old new = true ->
  tame_W (m_literal old new).
Proof.
  intros Hne Hok He. apply tame_W_const with (rep := new); [|exact Hok].
  intros p s n rep H. apply m_literal_inv in H as (-> & -> & H).
  repeat split.
  - intros Hn. rewrite (word_at_startswith old s Hne H).
    now apply (edge_ok_head old new).
  - intros Hn. rewrite (firstn_startswith old s H).
    now apply (edge_ok_last old new).
Qed.

Lemma isword_lower (c : ascii) : isword (lower_char c) = isword c.
Proof. each_char c. Qed.

Lemma startswith_ci_lower (old s : str) :
  startswith_ci old s = true -> lower (firstn (length old) s) = lower old.
Proof.
  revert s; induction old as [|a old IH]; intros [|c s]; simpl; try easy.
  intros H. apply andb_true_iff in H as [Hc H].
  apply Ascii.eqb_eq in Hc. now rewrite (IH s H), Hc.
Qed.

Lemma word_at_lower (x : str) : word_at (lower x) = word_at x.
Proof. destruct x as [|c x]; [reflexivity | apply isword_lower]. Qed.

Lemma prev_after_lower (x : str) :
  forall p, prev_after (option_map lower_char p) (lower x)
            = option_map lower_char (prev_after p x).
Proof.
  induction x as [|c x IH]; intros p; [reflexivity|].
  exact (IH (Some c)).
Qed.

Lemma word_last_lower (x : str) : word_last (lower x) = word_last x.
Proof.
  unfold word_last.
  change (prev_after None (lower x))
    with (prev_after (option_map lower_char None) (lower x)).
  rewrite (prev_after_lower x None).
  destruct (prev_after None x) as [c|]; [apply isword_lower | reflexivity].
Qed.

Lemma tame_W_literal_ci (old new : str) :
  old <> [] -> rep_ok_W new = true -> edge_ok old new = true ->
  tame_W (m_literal_ci old new).
Proof.
  intros Hne Hok He. apply tame_W_const with (rep := new); [|exact Hok].
  intros p s n rep H. apply m_literal_ci_inv in H as (-> & -> & H).
  pose proof (startswith_ci_lower old s H) as Hl.
  repeat split.
  - intros Hn. pose proof (edge_ok_head old new He Hn) as Ho.
    destruct old as [|a old]; [congruence|].
    destruct s as [|c s]; [discriminate H|].
    simpl in Hl. injection Hl as Hl _. simpl in Ho |- *.
    now rewrite <- isword_lower, Hl, isword_lower.
  - intros Hn. pose proof (edge_ok_last old new He Hn) as Ho.
    now rewrite <- word_last_lower, Hl, word_last_lower.
Qed.

Lemma tame_W_piece_wordy (P : piece) (rep : str) :
  word_at rep = true -> word_last rep = true -> rep_ok_W rep = true ->
  tame_W (m_piece P rep).
Proof.
  intros H1 H2 Hok. apply tame_W_const with (rep := rep); [|exact Hok].
  intros p s n rep' H. apply m_piece_inv in H as (-> & _).
  repeat split; congruence.
Qed.

(** [rstrip] followed by an appended text. *)
Lemma takewhile_dropwhile (f : ascii -> bool) (s : str) :
  s = takewhile f s ++ dropwhile f s.
Proof.
  induction s as [|c s IH]; [reflexivity|]. simpl.
  destruct (f c); [simpl; now f_equal | reflexivity].
Qed.

Lemma rstrip_by_split (f : ascii -> bool) (s : str) :
  exists y, s = rstrip_by f s ++ y /\ forallb f y = true.
Proof.
  exists (rev (takewhile f (rev s))). split.
  - unfold rstrip_by. rewrite <- rev_app_distr, <- takewhile_dropwhile.
    now rewrite rev_involutive.
  - apply forallb_forall. intros c Hc. apply in_rev in Hc.
    pose proof (takewhile_forallb f (rev s)) as H.
    rewrite forallb_forall in H. now apply H.
Qed.

Lemma acc_dig_app_cases (u z y : str) :
  acc_dig (u ++ z) = true -> acc_dig (u ++ y) = true \/ acc_dig z = true.
Proof.
  induction u as [|c u IH]; simpl; [now right|].
  destruct (isspace c); [exact IH | now left].
Qed.

Lemma acc_eq_app_cases (u z y : str) :
  acc_eq (u ++ z) = true ->
  acc_eq (u ++ y) = true \/ acc_eq z = true \/ acc_dig z = true.
Proof.
  induction u as [|c u IH]; simpl; [intros H; now (right; left)|].
  destruct (isspace c); [exact IH|].
  destruct (Ascii.eqb c "="); [|now left].
  intros H. destruct (acc_dig_app_cases u z y H); [now left | now (right; right)].
Qed.

Lemma acc_lit_app_cases (l u z y : str) :
  acc_lit l (u ++ z) = true ->
  acc_lit l (u ++ y) = true \/ acc_eq z = true \/ acc_dig z = true
  \/ exists l2, In l2 (tails1 l) /\ acc_lit l2 z = true.
Proof.
  revert u; induction l as [|a l IH]; intros u H.
  - simpl in *. destruct (acc_eq_app_cases u z y H) as [?|[?|?]]; tauto.
  - destruct u as [|c u].
    + right; right; right. exists (a :: l). split; [apply tails1_self | exact H].
    + simpl in H |- *. apply andb_true_iff in H as [-> H].
      destruct (IH u H) as [?|[?|[?|(l2 & Hl2 & ?)]]]; try tauto.
      right; right; right. exists l2. split; [now right | assumption].
Qed.

Lemma cont_ok_F_sound (z : str) :
  cont_ok_F z = true ->
  acc_dig z = false /\ acc_eq z = false
  /\ forall l2, In l2 (tails1 (L "facility_id")) -> acc_lit l2 z = false.
Proof.
  unfold cont_ok_F. intros H.
  apply andb_true_iff in H as [H Hl]. apply andb_true_iff in H as [Hd He].
  apply negb_true_iff in Hd, He. rewrite forallb_forall in Hl.
  repeat split.
  - destruct (acc_dig z) eqn:E; [|reflexivity].
    rewrite <- (app_nil_r z) in E. apply alv_dig_sound in E. congruence.
  - destruct (acc_eq z) eqn:E; [|reflexivity].
    rewrite <- (app_nil_r z) in E. apply alv_eq_sound in E. congruence.
  - intros l2 Hl2. destruct (acc_lit l2 z) eqn:E; [|reflexivity].
    rewrite <- (app_nil_r z) in E. apply alv_lit_sound in E.
    apply Hl in Hl2. rewrite E in Hl2. discriminate.
Qed.

Lemma in_ok_F_sound (z : str) :
  in_ok_F z = true -> forall p, fires facility_here p z = false.
Proof.
  unfold in_ok_F. induction z as [|c z IH]; intros H p; [reflexivity|].
  cbn [forallb tails1] in H. apply andb_true_iff in H as [H1 H2].
  cbn [fires]. rewrite (IH H2). rewrite orb_false_r.
  unfold facility_here. destruct (acc_lit (L "facility_id") (c :: z)) eqn:E;
    [|reflexivity].
  rewrite <- (app_nil_r (c :: z)) in E. apply alv_lit_sound in E.
  rewrite E in H1. discriminate.
Qed.

Lemma facility_free_append (u y z : str) :
  rep_ok_F z = true ->
  fires facility_here None (u ++ y) = false ->
  fires facility_here None (u ++ z) = false.
Proof.
  intros Hok Hy. unfold rep_ok_F in Hok.
  apply andb_true_iff in Hok as [Hc Hi].
  destruct (cont_ok_F_sound z Hc) as (Hd & He & Hl).
  destruct (fires facility_here None (u ++ z)) eqn:E; [|reflexivity].
  apply fires_app in E as [(u1 & u2 & -> & Hne & E)|E].
  - unfold facility_here in E.
    destruct (acc_lit_app_cases _ u2 z y E) as [H|[H|[H|(l2 & Hl2 & H)]]];
      try congruence.
    + rewrite <- app_assoc in Hy.
      rewrite (fires_here facility_here u1 (u2 ++ y) None) in Hy;
        [discriminate | destruct u2; [congruence | discriminate] | exact H].
    + rewrite (Hl l2 Hl2) in H. discriminate.
  - rewrite (in_ok_F_sound z Hi) in E. discriminate.
Qed.

Lemma startswith_app_cases (w u z : str) :
  startswith w (u ++ z) = true ->
  startswith w u = true
  \/ exists w2, In w2 (tails1 w) /\ startswith w2 z = true.
Proof.
  revert u; induction w as [|a w IH]; intros u H; [now left|].
  destruct u as [|c u].
  - right. exists (a :: w). split; [apply tails1_self | exact H].
  - simpl in H |- *. apply andb_true_iff in H as [-> H].
    destruct (IH u H) as [?|(w2 & Hw2 & ?)]; [now left|].
    right. exists w2. split; [now right | assumption].
Qed.

Lemma startswith_app_l (w u t : str) :
  startswith w u = true -> startswith w (u ++ t) = true.
Proof.
  revert u; induction w as [|a w IH]; intros [|c u]; simpl; try easy.
  intros H. apply andb_true_iff in H as [-> H]. now apply IH.
Qed.

Lemma rep_ok_W_sound (z : str) :
  rep_ok_W z = true ->
  z <> []
  /\ (forall w2, In w2 (tails1 countif_word) -> startswith w2 z = false)
  /\ (forall p, fires countif_here p z = false).
Proof.
  unfold rep_ok_W. intros H.
  apply andb_true_iff in H as [H Hin]. apply andb_true_iff in H as [Hne Hc].
  rewrite forallb_forall in Hc. repeat split.
  - destruct z; [discriminate | discriminate].
  - intros w2 Hw2. destruct (startswith w2 z) eqn:E; [|reflexivity].
    rewrite <- (app_nil_r z) in E. apply startswith_app_comparable in E.
    apply Hc in Hw2. rewrite E in Hw2. discriminate.
  - clear Hne Hc. induction z as [|c z IH]; intros p; [reflexivity|].
    cbn [forallb tails1] in Hin. apply andb_true_iff in Hin as [H1 H2].
    cbn [fires]. rewrite (IH H2), orb_false_r.
    unfold countif_here, word_here.
    destruct (startswith countif_word (c :: z)) eqn:E; [|reflexivity].
    rewrite <- (app_nil_r (c :: z)) in E. apply startswith_app_comparable in E.
    rewrite E in H1. discriminate.
Qed.

Lemma countif_free_append (p : option ascii) (u y z : str) :
  rep_ok_W z = true -> word_at y = false ->
  countif_free p (u ++ y) -> countif_free p (u ++ z).
Proof.
  intros Hok Hwy Hy. destruct (rep_ok_W_sound z Hok) as (Hne & Hc & Hi).
  unfold countif_free in *.
  destruct (fires countif_here p (u ++ z)) eqn:E; [|reflexivity].
  apply fires_app in E as [(u1 & u2 & -> & Hu2 & E)|E].
  - unfold countif_here, word_here in E.
    apply andb_true_iff in E as [E Hr]. apply andb_true_iff in E as [E Hl].
    destruct (startswith_app_cases _ u2 z E) as [H|(w2 & Hw2 & H)].
    + assert (Hlen : length countif_word <= length u2)
        by now apply startswith_shorter.
      rewrite skipn_app in Hr.
      replace (length countif_word - length u2) with 0 in Hr by lia.
      change (skipn 0 z) with z in Hr.
      assert (Hr' : negb (word_at (skipn (length countif_word) (u2 ++ y)))
                    = true).
      { rewrite skipn_app.
        replace (length countif_word - length u2) with 0 by lia.
        change (skipn 0 y) with y.
        destruct (skipn (length countif_word) u2) as [|c r];
          [simpl; now rewrite Hwy | exact Hr]. }
      rewrite <- app_assoc in Hy.
      rewrite (fires_here countif_here u1 (u2 ++ y) p) in Hy;
        [discriminate | destruct u2; [congruence | discriminate] |].
      unfold countif_here, word_here.
      now rewrite (startswith_app_l _ u2 y H), Hl, Hr'.
    + rewrite (Hc w2 Hw2) in H. discriminate.
  - rewrite (Hi _) in E. discriminate.
Qed.

Lemma semicolons_no_word (y : str) :
  forallb (is_code 59) y = true -> word_at y = false.
Proof.
  destruct y as [|c y]; [reflexivity|]. simpl.
  intros H. apply andb_true_iff in H as [H _]. revert H. each_char c.
Qed.

Lemma keeps_rstrip_append (z : str) :
  tail_ok z = true ->
  keepsF (fun s => rstrip_semicolon s ++ z)
  /\ keepsW (fun s => rstrip_semicolon s ++ z).
Proof.
  unfold tail_ok. intros H.
  apply andb_true_iff in H as [H Hz]. apply andb_true_iff in H as [HF HW].
  split; intros s Hs;
    destruct (rstrip_by_split (is_code 59) s) as (y & Hsplit & Hy);
    unfold rstrip_semicolon; rewrite Hsplit in Hs.
  - now apply facility_free_append with (y := y).
  - apply countif_free_append with (y := y);
      [exact HW | now apply semicolons_no_word | exact Hs].
Qed.

Lemma keepsF_sub (m : matcher) :
  wf_matcher m -> tame_F m -> keepsF (re_sub m).
Proof. intros Hwf Ht s Hs. now apply facility_free_sub. Qed.

Lemma keepsW_sub (m : matcher) :
  wf_matcher m -> tame_W m -> keepsW (re_sub m).
Proof. intros Hwf Ht s Hs. now apply countif_free_scan. Qed.

Lemma keeps_replace (old new : str) :
  lit_ok old new = true ->
  keepsF (replace old new) /\ keepsW (replace old new).
Proof.
  unfold lit_ok. intros H.
  apply andb_true_iff in H as [H He]. apply andb_true_iff in H as [H HW].
  apply andb_true_iff in H as [Hne HF].
  assert (Hold : old <> []) by (destruct old; [discriminate | discriminate]).
  split.
  - apply keepsF_sub; [now apply m_literal_wf | now apply tame_F_literal].
  - apply keepsW_sub; [now apply m_literal_wf | now apply tame_W_literal].
Qed.

Ltac by_check := vm_compute; reflexivity.

Ltac keeps_lit_F :=
  match goal with
  | |- fires facility_here None (replace ?old ?new _) = false =>
      let H := fresh in
      assert (H : lit_ok old new = true) by by_check;
      apply (proj1 (keeps_replace old new H)); clear H
  | |- fires facility_here None (re_sub (m_literal ?old ?new) _) = false =>
      let H := fresh in
      assert (H : lit_ok old new = true) by by_check;
      apply (proj1 (keeps_replace old new H)); clear H
  end.

Ltac keeps_lit_W :=
  match goal with
  | |- countif_free None (replace ?old ?new _) =>
      let H := fresh in
      assert (H : lit_ok old new = true) by by_check;
      apply (proj2 (keeps_replace old new H)); clear H
  | |- countif_free None (re_sub (m_literal ?old ?new) _) =>
      let H := fresh in
      assert (H : lit_ok old new = true) by by_check;
      apply (proj2 (keeps_replace old new H)); clear H
  end.

Ltac keeps_tail_F :=
  match goal with
  | |- fires facility_here None (rstrip_semicolon _ ++ ?z) = false =>
      let H := fresh in
      assert (H : tail_ok z = true) by by_check;
      apply (proj1 (keeps_rstrip_append z H)); clear H
  end.

Ltac keeps_tail_W :=
  match goal with
  | |- countif_free None (rstrip_semicolon _ ++ ?z) =>
      let H := fresh in
      assert (H : tail_ok z = true) by by_check;
      apply (proj2 (keeps_rstrip_append z H)); clear H
  end.

(** Pass 2 after the casing rewrite. *)
Lemma fix_priority_keeps : keepsF fix_priority /\ keepsW fix_priority.
Proof.
  split; intros s Hs; unfold fix_priority;
    destruct (contains (L "priority > 0") s); try exact Hs.
  - now keeps_lit_F.
  - now keeps_lit_W.
Qed.

Lemma fix_avg_time_keeps : keepsF fix_avg_time /\ keepsW fix_avg_time.
Proof.
  split; intros s Hs; unfold fix_avg_time;
    destruct (contains (L "dateDiff") s && contains (L "AVG(") s
              && contains (L "avg_time") s); try exact Hs.
  - apply keepsF_sub; [exact m_avg_time_wf | | exact Hs].
    apply tame_F_piece. by_check.
  - apply keepsW_sub; [exact m_avg_time_wf | | exact Hs].
    apply tame_W_piece_wordy; by_check.
Qed.

Lemma add_group_by_keeps : keepsF add_group_by /\ keepsW add_group_by.
Proof.
  split; intros s Hs; unfold add_group_by;
    destruct (contains (L "ORDER BY") (upper s)).
  - now keeps_lit_F.
  - now keeps_tail_F.
  - now keeps_lit_W.
  - now keeps_tail_W.
Qed.

Lemma fix_count_group_by_keeps :
  keepsF fix_count_group_by /\ keepsW fix_count_group_by.
Proof.
  split; intros s Hs; unfold fix_count_group_by;
    destruct (contains (L "COUNT(") (upper s)
              && negb (contains (L "GROUP BY") (upper s))
              && contains (L "porter_user_id") s); try exact Hs.
  - now apply (proj1 add_group_by_keeps).
  - now apply (proj2 add_group_by_keeps).
Qed.

Lemma fix_round_group_by_keeps :
  keepsF fix_round_group_by /\ keepsW fix_round_group_by.
Proof.
  split; intros s Hs; unfold fix_round_group_by;
    destruct (contains (L "SELECT porter_user_id") s
              && contains (L "round(") s
              && negb (contains (L "GROUP BY") (upper s))); try exact Hs.
  - now apply (proj1 add_group_by_keeps).
  - now apply (proj2 add_group_by_keeps).
Qed.

Lemma fix_sql_functions_free (s : str) :
  (facility_free s -> facility_free (_fix_sql_functions s))
  /\ countif_free None (_fix_sql_functions s).
Proof.
  unfold _fix_sql_functions. split.
  - intros Hs.
    apply (proj1 fix_round_group_by_keeps), (proj1 fix_count_group_by_keeps),
      (proj1 fix_avg_time_keeps), (proj1 fix_priority_keeps).
    now apply fix_countif_keeps_facility_free.
  - apply (proj2 fix_round_group_by_keeps), (proj2 fix_count_group_by_keeps),
      (proj2 fix_avg_time_keeps), (proj2 fix_priority_keeps).
    apply fix_countif_free.
Qed.

(** Pass 3. *)
Lemma null_rewrites_keepF (field : str) :
  field <> [] -> rep_ok_F (both_conditions field) = true ->
  keepsF (re_sub (m_is_null field)) /\ keepsF (re_sub (m_eq_empty field)).
Proof.
  intros Hf Hok. split; apply keepsF_sub.
  - now apply m_is_null_wf.
  - now apply tame_F_piece.
  - now apply m_eq_empty_wf.
  - now apply tame_F_piece.
Qed.

Lemma fix_field_keepF (question_lower field : str) :
  In field nullable_fields ->
  keepsF (fun s => fix_field question_lower s field).
Proof.
  intros Hin s Hs. unfold fix_field.
  destruct (contains field question_lower); [|exact Hs].
  assert (H : field <> [] /\ rep_ok_F (both_conditions field) = true).
  { simpl in Hin.
    repeat (destruct Hin as [<-|Hin]; [split; [discriminate | by_check]|]).
    contradiction. }
  destruct H as [Hf Hok].
  destruct (null_rewrites_keepF field Hf Hok) as [H1 H2].
  now apply H2, H1.
Qed.

Lemma fold_fix_field_keepF (question_lower : str) (fields : list str) :
  (forall f, In f fields -> In f nullable_fields) ->
  keepsF (fun s => fold_left (fix_field question_lower) fields s).
Proof.
  induction fields as [|f fields IH]; intros Hin s Hs; [exact Hs|].
  simpl. apply IH.
  - intros g Hg. apply Hin. now right.
  - apply (fix_field_keepF question_lower f); [apply Hin; now left | exact Hs].
Qed.

Lemma fix_comp_manually_keepF (question_lower : str) :
  keepsF (fix_comp_manually question_lower).
Proof.
  intros s Hs. unfold fix_comp_manually.
  assert (Hf : L "comp_manually" <> []) by discriminate.
  assert (Hok : rep_ok_F (both_conditions (L "comp_manually")) = true)
    by by_check.
  destruct (null_rewrites_keepF (L "comp_manually") Hf Hok) as [H1 H2].
  destruct (contains (L "comp_manually") question_lower); [|exact Hs].
  destruct (contains (L "null") question_lower); [now apply H1|].
  destruct (contains (L "empty") question_lower); [now apply H2 | exact Hs].
Qed.

Lemma fix_null_empty_handling_keepF (user_question : str) :
  keepsF (fun s => _fix_null_empty_handling s user_question).
Proof.
  intros s Hs. unfold _fix_null_empty_handling.
  destruct (contains (L "null") (lower user_question)
            || contains (L "empty") (lower user_question)); [|exact Hs].
  apply (fold_fix_field_keepF _ nullable_fields (fun _ H => H)).
  now apply fix_comp_manually_keepF.
Qed.

Lemma fix_null_empty_handling_off (s user_question : str) :
  contains (L "null") (lower user_question) = false ->
  contains (L "empty") (lower user_question) = false ->
  _fix_null_empty_handling s user_question = s.
Proof. intros H1 H2. unfold _fix_null_empty_handling. now rewrite H1, H2. Qed.

(** Pass 4. *)
Lemma localize_keeps (cols : list str) :
  (forall col, In col cols -> In col localized_columns) ->
  keepsF (fun s => fold_left localize_to_date cols s)
  /\ keepsW (fun s => fold_left localize_to_date cols s).
Proof.
  induction cols as [|col cols IH]; intros Hin.
  - split; intros s Hs; exact Hs.
  - assert (Hok : lit_ok (to_date col) (to_date_tz col) = true).
    { assert (Hc : In col localized_columns) by (apply Hin; now left).
      simpl in Hc.
      repeat (destruct Hc as [<-|Hc]; [by_check|]). contradiction. }
    destruct (IH (fun c H => Hin c (or_intror H))) as [IF IW].
    destruct (keeps_replace _ _ Hok) as [RF RW].
    split; intros s Hs; simpl; [apply IF, RF | apply IW, RW]; exact Hs.
Qed.

Lemma expand_select_star_keeps (ql : str) :
  keepsF (expand_select_star ql) /\ keepsW (expand_select_star ql).
Proof.
  split; intros s Hs; unfold expand_select_star;
    destruct (contains (L "SELECT *") s
              && any_in [L "show"; L "list"; L "display"] ql
              && negb (contains (L "count") ql)); try exact Hs.
  - now keeps_lit_F.
  - now keeps_lit_W.
Qed.

Lemma fix_june_2_keeps (ql : str) :
  keepsF (fix_june_2 ql) /\ keepsW (fix_june_2 ql).
Proof.
  split; intros s Hs; unfold fix_june_2, lit_sub;
    destruct (contains (L "june 2") ql); try exact Hs;
    match goal with
    | |- context [if ?c then _ else _] => destruct c
    end.
  - now do 4 keeps_lit_F.
  - now do 3 keeps_lit_F.
  - now do 4 keeps_lit_W.
  - now do 3 keeps_lit_W.
Qed.

Lemma fix_june_1_keeps (ql : str) :
  keepsF (fix_june_1 ql) /\ keepsW (fix_june_1 ql).
Proof.
  split; intros s Hs; unfold fix_june_1, lit_sub;
    destruct (contains (L "june 1") ql); try exact Hs.
  - now do 2 keeps_lit_F.
  - now do 2 keeps_lit_W.
Qed.

Lemma fix_may_31_keeps (ql : str) :
  keepsF (fix_may_31 ql) /\ keepsW (fix_may_31 ql).
Proof.
  split; intros s Hs; unfold fix_may_31, lit_sub;
    destruct (contains (L "may 31") ql); try exact Hs.
  - apply keepsF_sub;
      [apply m_literal_ci_wf; discriminate
      | apply tame_F_literal_ci; by_check |].
    now keeps_lit_F.
  - apply keepsW_sub;
      [apply m_literal_ci_wf; discriminate
      | apply tame_W_literal_ci; [discriminate | by_check | by_check] |].
    now keeps_lit_W.
Qed.

Lemma fix_last_request_keeps (ql : str) :
  keepsF (fix_last_request ql) /\ keepsW (fix_last_request ql).
Proof.
  split; intros s Hs; unfold fix_last_request;
    destruct (contains (L "last request") ql
              && negb (contains (L "order by") (lower s))); try exact Hs.
  - now keeps_tail_F.
  - now keeps_tail_W.
Qed.

Lemma fix_hourly_keeps (ql : str) :
  keepsF (fix_hourly ql) /\ keepsW (fix_hourly ql).
Proof.
  split; intros s Hs; unfold fix_hourly;
    destruct (contains (L "hourly") ql || contains (L "hour by hour") ql);
    try exact Hs;
    destruct (contains hour_select s); try exact Hs.
  - now do 2 keeps_lit_F.
  - now do 2 keeps_lit_W.
Qed.

Lemma month_at_In (s : str) (n : Z) :
  month_at s = Some n -> In n (map snd months).
Proof.
  unfold month_at. destruct (find (month_here s) months) as [m|] eqn:E;
    [|discriminate].
  intros H. injection H as <-. apply find_some in E as [E _].
  now apply in_map.
Qed.

Lemma month_search_In (s : str) (n : Z) :
  month_search s = Some n -> In n (map snd months).
Proof.
  induction s as [|c s IH]; cbn [month_search].
  - destruct (month_at []) eqn:E; [|discriminate].
    intros H. injection H as <-. now apply month_at_In with (s := []).
  - destruct (month_at (c :: s)) eqn:E; [|exact IH].
    intros H. injection H as <-. now apply month_at_In with (s := c :: s).
Qed.

Lemma fix_month_keeps (ql : str) :
  keepsF (fix_month ql) /\ keepsW (fix_month ql).
Proof.
  assert (Hok : forall n, month_search ql = Some n ->
    lit_ok (L "FROM fact_porter_request")
      (L "FROM fact_porter_request WHERE toYear(toTimeZone(scheduled_time, 'Asia/Kolkata')) = 2025 AND toMonth(toTimeZone(scheduled_time, 'Asia/Kolkata')) = "
       ++ str_of_int n) = true).
  { intros n Hn. apply month_search_In in Hn. simpl in Hn.
    repeat (destruct Hn as [<-|Hn]; [by_check|]). contradiction. }
  split; intros s Hs; unfold fix_month;
    destruct (month_search ql) as [n|]; try exact Hs;
    destruct (contains (L "per day") ql
              && negb (contains (L "GROUP BY") (upper s))); try exact Hs;
    match goal with
    | |- context [if ?c then _ else _] => destruct c
    end.
  - keeps_lit_F. now apply (proj1 (keeps_replace _ _ (Hok n eq_refl))).
  - now apply (proj1 (keeps_replace _ _ (Hok n eq_refl))).
  - keeps_lit_W. now apply (proj2 (keeps_replace _ _ (Hok n eq_refl))).
  - now apply (proj2 (keeps_replace _ _ (Hok n eq_refl))).
Qed.

Lemma enhance_date_queries_keeps (user_question : str) :
  keepsF (fun s => _enhance_date_queries s user_question)
  /\ keepsW (fun s => _enhance_date_queries s user_question).
Proof.
  split; intros s Hs; unfold _enhance_date_queries; cbv zeta.
  - apply (proj1 (fix_month_keeps _)), (proj1 (fix_hourly_keeps _)),
      (proj1 (fix_last_request_keeps _)), (proj1 (fix_may_31_keeps _)),
      (proj1 (fix_june_1_keeps _)), (proj1 (fix_june_2_keeps _)),
      (proj1 (expand_select_star_keeps _)).
    now apply (proj1 (localize_keeps localized_columns (fun _ H => H))).
  - apply (proj2 (fix_month_keeps _)), (proj2 (fix_hourly_keeps _)),
      (proj2 (fix_last_request_keeps _)), (proj2 (fix_may_31_keeps _)),
      (proj2 (fix_june_1_keeps _)), (proj2 (fix_june_2_keeps _)),
      (proj2 (expand_select_star_keeps _)).
    now apply (proj2 (localize_keeps localized_columns (fun _ H => H))).
Qed.

(** The whole pipeline. *)
Lemma repair_facility_free (sql_query user_question : str) :
  facility_free (repair sql_query user_question).
Proof.
  unfold repair.
  apply (proj1 (enhance_date_queries_keeps user_question)).
  apply (fix_null_empty_handling_keepF user_question).
  apply (proj1 (fix_sql_functions_free _)).
  apply fix_facility_id_format_free.
Qed.

Lemma repair_countif_free (sql_query user_question : str) :
  contains (L "null") (lower user_question) = false ->
  contains (L "empty") (lower user_question) = false ->
  countif_free None (repair sql_query user_question).
Proof.
  intros H1 H2. unfold repair.
  rewrite (fix_null_empty_handling_off _ user_question H1 H2).
  apply (proj2 (enhance_date_queries_keeps user_question)).
  apply (proj2 (fix_sql_functions_free _)).
Qed.

(* ===================================================================== *)
(** ** Padded comparisons that survive a rewrite                          *)
(* ===================================================================== *)

Section Barrier.
Variable m : matcher.
Hypothesis m_wf : wf_matcher m.

(** The scan before a text [z] that no match reaches: it rewrites what
    precedes [z] with [z] in sight, and goes on at [z]. *)
Lemma sub_scan_before (z a : str) :
  (forall a1 a2 p n rep,
     a = a1 ++ a2 -> a2 <> [] ->
     m p (a2 ++ z) = Some (n, rep) -> n <= length a2) ->
  forall p, exists oa,
    sub_scan m 0 p (a ++ z) = oa ++ sub_scan m 0 (prev_after p a) z
    /\ scans (ahead m z) p a oa.
Proof.
  induction a as [a IH] using (induction_ltof1 _ (@length ascii)).
  unfold ltof in IH. intros Hb p.
  destruct a as [|c a].
  - exists []. split; [reflexivity | constructor].
  - destruct (m p ((c :: a) ++ z)) as [[n rep]|] eqn:Hm.
    + pose proof (Hb [] (c :: a) p n rep eq_refl ltac:(discriminate) Hm) as Hn.
      destruct (m_wf _ _ _ _ Hm) as [Hn1 _].
      remember (firstn n (c :: a)) as x eqn:Hx.
      remember (skipn n (c :: a)) as rest eqn:Hrest.
      assert (Hsplit : c :: a = x ++ rest)
        by (subst x rest; symmetry; apply firstn_skipn).
      assert (Hlen : length x = n) by (subst x; rewrite length_firstn; lia).
      assert (Hne : x <> [])
        by (intros E; rewrite E in Hlen; simpl in Hlen; lia).
      rewrite Hsplit in Hm |- *. rewrite <- Hlen in Hm.
      rewrite <- app_assoc in Hm |- *.
      rewrite (sub_scan_match m p x (rest ++ z) rep Hne Hm).
      destruct (IH rest) with (p := prev_after p x) as (oa & Hoa & Hsc).
      { apply (f_equal (@length ascii)) in Hsplit.
        rewrite length_app in Hsplit. simpl in Hsplit. simpl. lia. }
      { intros a1 a2 p' n' rep' E Ha2. apply (Hb (x ++ a1) a2); [|exact Ha2].
        now rewrite Hsplit, E, app_assoc. }
      exists (rep ++ oa). split.
      * rewrite Hoa, <- app_assoc. now rewrite prev_after_app.
      * apply scans_match; [exact Hne | | exact Hsc].
        unfold ahead. now rewrite <- app_assoc.
    + change ((c :: a) ++ z) with (c :: (a ++ z)) in Hm |- *.
      rewrite (sub_scan_copy m p c _ Hm).
      destruct (IH a) with (p := Some c) as (oa & Hoa & Hsc); [simpl; lia | |].
      { intros a1 a2 p' n' rep' E Ha2. apply (Hb (c :: a1) a2); [|exact Ha2].
        now rewrite E. }
      exists (c :: oa). split; [now rewrite Hoa|].
      apply scans_copy; [exact Hm | exact Hsc].
Qed.

(** The scan through a text in which no match starts: it is copied. *)
Lemma sub_scan_through (T b : str) :
  (forall t1 t2 p, T = t1 ++ t2 -> t2 <> [] -> m p (t2 ++ b) = None) ->
  forall p, sub_scan m 0 p (T ++ b) = T ++ sub_scan m 0 (prev_after p T) b.
Proof.
  intros H.
  assert (G : forall t2 t1 p, T = t1 ++ t2 ->
            sub_scan m 0 p (t2 ++ b) = t2 ++ sub_scan m 0 (prev_after p t2) b).
  { induction t2 as [|c t2 IH]; intros t1 p Ht; [reflexivity|].
    assert (Hm : m p ((c :: t2) ++ b) = None)
      by (apply (H t1 (c :: t2) p Ht); discriminate).
    change ((c :: t2) ++ b) with (c :: (t2 ++ b)) in Hm |- *.
    rewrite (sub_scan_copy m p c (t2 ++ b) Hm). simpl. f_equal.
    apply (IH (t1 ++ [c])). now rewrite <- app_assoc. }
  intros p. exact (G T [] p eq_refl).
Qed.

(** The same up to a closing quote, where a match may start if its
    replacement starts with a quote. *)
Lemma sub_scan_through_quote (Tq b : str) :
  (forall t1 t2 p, Tq = t1 ++ t2 -> t2 <> [] ->
     m p (t2 ++ L "'" ++ b) = None) ->
  (forall p n rep, m p (L "'" ++ b) = Some (n, rep) ->
     startswith (L "'") rep = true) ->
  forall p, exists ob,
    sub_scan m 0 p (Tq ++ L "'" ++ b) = Tq ++ L "'" ++ ob.
Proof.
  intros Hin Hq p. rewrite (sub_scan_through Tq (L "'" ++ b) Hin p).
  destruct (m (prev_after p Tq) (L "'" ++ b)) as [[n rep]|] eqn:Hm.
  - pose proof (Hq _ _ _ Hm) as Hr.
    destruct rep as [|r rep']; [discriminate Hr|].
    simpl in Hr. apply andb_true_iff in Hr as [Hr _].
    apply Ascii.eqb_eq in Hr. subst r.
    exists (rep' ++ sub_scan m (pred n) (Some "'"%char) b).
    f_equal. change (L "'" ++ b) with ("'"%char :: b) in Hm |- *.
    simpl. now rewrite Hm.
  - exists (sub_scan m 0 (Some "'"%char) b). f_equal.
    change (L "'" ++ b) with ("'"%char :: b) in Hm |- *.
    now rewrite (sub_scan_copy m _ _ b Hm).
Qed.
End Barrier.

Lemma padded_split (d4 : str) :
  padded d4 = (padded_prefix ++ d4) ++ L "'".
Proof. unfold padded. now rewrite <- app_assoc. Qed.

Lemma suffix_before_last (X t1 t2 : str) (q : ascii) :
  X ++ [q] = t1 ++ t2 -> t2 <> [] ->
  exists t2', t2 = t2' ++ [q] /\ X = t1 ++ t2'.
Proof.
  intros H Hne.
  destruct (exists_last Hne) as (t2' & q' & ->).
  rewrite app_assoc in H. apply app_inj_tail in H as [H1 H2].
  subst q'. now exists t2'.
Qed.

Lemma holds_padded_sub (m : matcher) (d4 s : str) :
  wf_matcher m -> respects m -> forallb isdecimal d4 = true ->
  holds_padded d4 s -> holds_padded d4 (re_sub m s).
Proof.
  intros Hwf Hr Hd (a & b & ->). unfold re_sub.
  destruct (sub_scan_before m Hwf (padded d4 ++ b) a) with (p := @None ascii)
    as (oa & Hoa & _).
  { intros a1 a2 p n rep _ Ha2 Hm.
    exact (rs_before m Hr d4 p a2 b n rep Hd Ha2 Hm). }
  rewrite Hoa. rewrite padded_split, <- app_assoc.
  destruct (sub_scan_through_quote m (padded_prefix ++ d4) b)
    with (p := prev_after None a) as (ob & Hob).
  { intros t1 t2 p Ht Hne. exact (rs_inside m Hr d4 p t1 t2 b Hd Ht Hne). }
  { intros p n rep Hm. exact (rs_quote m Hr p b n rep Hm). }
  exists oa, ob. rewrite Hob. unfold padded. now rewrite <- !app_assoc.
Qed.

Lemma keepsT_sub (m : matcher) :
  wf_matcher m -> respects m -> keepsT (re_sub m).
Proof.
  intros Hwf Hr d4 s Hd Hs. now apply holds_padded_sub.
Qed.

(** A rewrite that starts no match at a quote takes the text before a padded
    comparison and the text after it apart. *)
Lemma inside_none (m : matcher) (d4 b : str) :
  (forall p t1 t2, padded_prefix ++ d4 = t1 ++ t2 -> t2 <> [] ->
     m p (t2 ++ L "'" ++ b) = None) ->
  (forall p, m p (L "'" ++ b) = None) ->
  forall t1 t2 p, padded d4 = t1 ++ t2 -> t2 <> [] -> m p (t2 ++ b) = None.
Proof.
  intros Hin Hq t1 t2 p Ht Hne. rewrite padded_split in Ht.
  destruct (suffix_before_last _ t1 t2 _ Ht Hne) as (t2' & -> & Ht').
  destruct t2' as [|c t2'].
  - apply Hq.
  - rewrite <- app_assoc. apply (Hin p t1); [exact Ht' | discriminate].
Qed.

Lemma prev_after_padded (p : option ascii) (a : str) (d4 : str) :
  prev_after p (a ++ padded d4) = Some "'"%char.
Proof.
  rewrite padded_split, !prev_after_app. reflexivity.
Qed.

Lemma strict_barrier (m : matcher) (d4 a b : str) :
  wf_matcher m ->
  (forall a1 a2 p n rep,
     a = a1 ++ a2 -> a2 <> [] ->
     m p (a2 ++ padded d4 ++ b) = Some (n, rep) -> n <= length a2) ->
  (forall p t1 t2, padded_prefix ++ d4 = t1 ++ t2 -> t2 <> [] ->
     m p (t2 ++ L "'" ++ b) = None) ->
  (forall p, m p (L "'" ++ b) = None) ->
  forall p, exists oa,
    sub_scan m 0 p (a ++ padded d4 ++ b)
    = oa ++ padded d4 ++ sub_scan m 0 (Some "'"%char) b
    /\ scans (ahead m (padded d4 ++ b)) p a oa.
Proof.
  intros Hwf Hb Hin Hq p.
  destruct (sub_scan_before m Hwf (padded d4 ++ b) a Hb p) as (oa & Hoa & Hsc).
  exists oa. split; [|exact Hsc].
  rewrite Hoa. f_equal.
  rewrite (sub_scan_through m (padded d4) b (inside_none m d4 b Hin Hq)).
  f_equal. f_equal. rewrite <- prev_after_app. apply prev_after_padded.
Qed.

(** The suffixes of a padded comparison before its closing quote: they
    start in the column name, at the opening quote, or at a digit. *)
Lemma prefix_suffix_cases (d4 t1 t2 : str) :
  forallb isdecimal d4 = true -> padded_prefix ++ d4 = t1 ++ t2 -> t2 <> [] ->
  (exists t0, In t0 (tails1 padded_name) /\ t2 = t0 ++ L "'" ++ d4)
  \/ t2 = L "'" ++ d4
  \/ (exists c r, t2 = c :: r /\ isdecimal c = true).
Proof.
  intros Hd Ht Hne.
  change (padded_prefix ++ d4) with (padded_name ++ L "'" ++ d4) in Ht.
  symmetry in Ht.
  apply app_eq_app in Ht as [l [[H1 H2]|[H1 H2]]].
  - (* the cut is at or after the opening quote *)
    destruct l as [|q l]; [right; left; now rewrite H2|].
    injection H2 as _ H2.
    right; right. destruct t2 as [|c r]; [congruence|]. exists c, r.
    split; [reflexivity|].
    rewrite H2 in Hd. rewrite forallb_app in Hd.
    apply andb_true_iff in Hd as [_ Hd]. simpl in Hd.
    now apply andb_true_iff in Hd as [Hd _].
  - (* the cut is inside the column name *)
    destruct l as [|c l]; [right; left; exact H2|].
    left. exists (c :: l). split; [|exact H2].
    rewrite H1. apply tails1_in. discriminate.
Qed.

Lemma startswith_digits_quote (old' d4 b : str) :
  forallb isdecimal d4 = true ->
  match dropwhile isdecimal old' with
  | c3 :: _ => negb (Ascii.eqb c3 "'"%char)
  | [] => false
  end = true ->
  startswith old' (d4 ++ L "'" ++ b) = false.
Proof.
  revert old'; induction d4 as [|d d4 IH]; intros old' Hd Hok.
  - destruct old' as [|c old']; [discriminate Hok|]. simpl in Hok |- *.
    destruct (Ascii.eqb c "'") eqn:E; [|reflexivity].
    apply Ascii.eqb_eq in E. subst c. simpl in Hok.
    change (isdecimal "'") with false in Hok. simpl in Hok. discriminate.
  - destruct old' as [|c old']; [discriminate Hok|]. simpl in Hd, Hok |- *.
    apply andb_true_iff in Hd as [Hd1 Hd].
    destruct (Ascii.eqb c d) eqn:E; [|reflexivity].
    apply Ascii.eqb_eq in E. subst c. rewrite Hd1 in Hok.
    now apply IH.
Qed.

Lemma respects_literal (old new : str) :
  lit_ok_T old new = true -> respects (m_literal old new).
Proof.
  unfold lit_ok_T. intros H.
  apply andb_true_iff in H as [H Hq]. apply andb_true_iff in H as [H Hod].
  apply andb_true_iff in H as [Hbefore Hinside].
  rewrite forallb_forall in Hbefore, Hinside.
  constructor.
  - intros d4 p a b n rep Hd Ha Hm.
    apply m_literal_inv in Hm as (-> & _ & Hs).
    destruct (startswith_app_cases old a (padded d4 ++ b) Hs)
      as [H1|(w2 & Hw2 & H1)].
    + now apply startswith_shorter.
    + change (padded d4 ++ b)
        with (padded_name ++ (L "'" ++ d4 ++ L "'") ++ b) in H1.
      apply startswith_app_comparable in H1.
      apply Hbefore in Hw2. rewrite H1 in Hw2. discriminate.
  - intros d4 p t1 t2 b Hd Ht Hne. unfold m_literal.
    destruct (startswith old (t2 ++ L "'" ++ b)) eqn:E; [|reflexivity].
    destruct (prefix_suffix_cases d4 t1 t2 Hd Ht Hne) as [Hc1|[Hc2|Hc3]];
      [destruct Hc1 as (t0 & Ht0 & Ht2) | rename Hc2 into Ht2
      | destruct Hc3 as (c & r & Ht2 & Hc)];
      rewrite Ht2 in E.
    + rewrite <- app_assoc in E. apply startswith_app_comparable in E.
      apply Hinside in Ht0. rewrite E in Ht0. discriminate.
    + destruct old as [|o old]; [discriminate Hq|].
      rewrite <- !app_assoc in E. simpl in E, Hq.
      apply andb_true_iff in E as [E E2]. apply Ascii.eqb_eq in E. subst o.
      rewrite Ascii.eqb_refl in Hq.
      apply andb_true_iff in Hq as [Hq _].
      pose proof (startswith_digits_quote old d4 b Hd Hq) as E3.
      change (d4 ++ L "'" ++ b) with (d4 ++ "'"%char :: b) in E3.
      rewrite E3 in E2. discriminate.
    + destruct old as [|o old]; [discriminate Hq|]. simpl in E, Hod.
      apply andb_true_iff in E as [E _]. apply Ascii.eqb_eq in E. subst o.
      rewrite Hc in Hod. discriminate.
  - intros p b n rep Hm. apply m_literal_inv in Hm as (_ & -> & Hs).
    destruct old as [|o old]; [discriminate Hq|]. simpl in Hs, Hq.
    apply andb_true_iff in Hs as [Hs _]. apply Ascii.eqb_eq in Hs. subst o.
    rewrite Ascii.eqb_refl in Hq.
    now apply andb_true_iff in Hq as [_ Hq].
Qed.

Lemma lit_ok_T_nonempty (old new : str) : lit_ok_T old new = true -> old <> [].
Proof.
  intros H ->. unfold lit_ok_T in H.
  apply andb_true_iff in H as [_ H]. discriminate H.
Qed.

Lemma keepsT_replace (old new : str) :
  lit_ok_T old new = true -> keepsT (replace old new).
Proof.
  intros H. apply keepsT_sub; [|now apply respects_literal].
  apply m_literal_wf. now apply (lit_ok_T_nonempty old new).
Qed.

(** The casing rewrite: a match that reaches the [f] of the padded
    comparison would need a word boundary between [f] and [a]. *)
Lemma startswith_nth (w u : str) (c : ascii) (z : str) :
  startswith w (u ++ c :: z) = true -> length u < length w ->
  nth_error w (length u) = Some c.
Proof.
  revert u; induction w as [|a w IH]; intros [|d u] H Hl; simpl in *; try lia.
  - apply andb_true_iff in H as [H _]. apply Ascii.eqb_eq in H. now subst.
  - apply andb_true_iff in H as [_ H]. apply IH; [exact H | lia].
Qed.

Lemma m_countif_head (p : option ascii) (c : ascii) (s : str) :
  c <> "C"%char -> m_countif p (c :: s) = None.
Proof.
  intros Hc. unfold m_countif. simpl.
  destruct (Ascii.eqb "C" c) eqn:E; [|reflexivity].
  apply Ascii.eqb_eq in E. congruence.
Qed.

Lemma respects_countif : respects m_countif.
Proof.
  constructor.
  - intros d4 p a b n rep Hd Ha Hm.
    pose proof Hm as Hm'. apply m_countif_inv in Hm' as (-> & _ & Hs).
    destruct (Nat.le_gt_cases 7 (length a)) as [Hl|Hl]; [exact Hl|].
    exfalso.
    change (padded d4 ++ b)
      with ("f"%char :: "a"%char :: (L "cility_id = '" ++ d4 ++ L "'") ++ b)
      in Hs, Hm.
    pose proof (startswith_nth countif_word a _ _ Hs Hl) as Hn.
    assert (H6 : length a = 6).
    { destruct (length a) as [|[|[|[|[|[|[|k]]]]]]];
        try discriminate Hn; [reflexivity | simpl in Hl; lia]. }
    rewrite m_countif_here in Hm. unfold countif_here, word_here in Hm.
    rewrite Hs in Hm. change (length countif_word) with 7 in Hm.
    rewrite skipn_app, H6 in Hm.
    rewrite (skipn_all2 (n := 7) a) in Hm by lia.
    change (word_at ([] ++ skipn (7 - 6) ("f"%char :: "a"%char ::
              (L "cility_id = '" ++ d4 ++ L "'") ++ b))) with true in Hm.
    rewrite andb_false_r in Hm. discriminate.
  - intros d4 p t1 t2 b Hd Ht Hne.
    destruct (prefix_suffix_cases d4 t1 t2 Hd Ht Hne) as [Hc1|[Hc2|Hc3]].
    + destruct Hc1 as (t0 & Ht0 & ->). simpl in Ht0.
      repeat (destruct Ht0 as [<-|Ht0]; [apply m_countif_head; discriminate|]).
      contradiction.
    + subst t2. apply m_countif_head. discriminate.
    + destruct Hc3 as (c & r & -> & Hc). apply m_countif_head.
      intros ->. vm_compute in Hc. discriminate.
  - intros p b n rep Hm. change (L "'" ++ b) with ("'"%char :: b) in Hm.
    rewrite (m_countif_head p "'"%char b) in Hm; discriminate.
Qed.

Lemma strict_countif : strict m_countif.
Proof.
  intros p b. change (L "'" ++ b) with ("'"%char :: b).
  apply m_countif_head. discriminate.
Qed.

(** The patterns of pass 3: they are blind to a padded comparison that
    follows, and none starts inside one. *)
Lemma blind_plus_space : blind (p_plus isspace).
Proof.
  intros x y Hy. unfold p_plus. destruct x as [|c x].
  - destruct y as [|d y]; [reflexivity|]. simpl.
    destruct (fstop_head d y Hy) as (-> & _). reflexivity.
  - simpl. destruct (isspace c) eqn:E; [|reflexivity]. simpl. f_equal.
    apply dropwhile_app_stop. destruct y as [|d y]; [exact I|].
    now destruct (fstop_head d y Hy).
Qed.

Lemma fstop_padded (d4 b : str) : fstop (padded d4 ++ b) = true.
Proof. reflexivity. Qed.

Lemma digit_not_letter_ci (a c : ascii) :
  isdecimal c = true -> isdecimal (lower_char a) = false ->
  Ascii.eqb (lower_char a) (lower_char c) = false.
Proof.
  intros Hc Ha. destruct (Ascii.eqb (lower_char a) (lower_char c)) eqn:E;
    [|reflexivity].
  apply Ascii.eqb_eq in E. rewrite E, isdecimal_lower, Hc in Ha. discriminate.
Qed.

Lemma respects_piece (field : str) (P : piece) (rep : str) :
  field_apart field -> blind P ->
  (forall s, p_lit_ci field s = None -> P s = None) ->
  respects (m_piece P rep).
Proof.
  intros Hf HP Hfirst. constructor.
  - intros d4 p a b n rep' Hd Ha Hm.
    apply m_piece_inv in Hm as (_ & rest & Hm & ->).
    pose proof (fstop_padded d4 b) as Hy.
    remember (padded d4 ++ b) as y eqn:Ey. clear Ey.
    rewrite (HP a y Hy) in Hm.
    destruct (P a) as [r'|]; [|discriminate]. cbn [option_map] in Hm.
    injection Hm as <-. rewrite !length_app. lia.
  - intros d4 p t1 t2 b Hd Ht Hne. unfold m_piece.
    rewrite Hfirst; [reflexivity|].
    destruct (prefix_suffix_cases d4 t1 t2 Hd Ht Hne) as [Hc1|[Hc2|Hc3]].
    + destruct Hc1 as (t0 & Ht0 & ->). rewrite <- app_assoc.
      now apply (fa_name field Hf).
    + subst t2. apply (fa_quote field Hf).
    + destruct Hc3 as (c & r & -> & Hc). now apply (fa_digit field Hf).
  - intros p b n rep' Hm. unfold m_piece in Hm.
    change (L "'" ++ b) with ("'"%char :: b) in Hm.
    rewrite Hfirst in Hm; [discriminate | apply (fa_quote field Hf)].
Qed.

Lemma seq_fails_first (A P Q : piece) :
  (forall s, A s = None -> P s = None) ->
  forall s, A s = None -> (P >> Q) s = None.
Proof. intros H s Hs. unfold p_seq. now rewrite (H s Hs). Qed.

Ltac no_f := repeat constructor; vm_compute; discriminate.

Lemma respects_null_rewrites (field : str) :
  field_apart field ->
  respects (m_is_null field) /\ respects (m_eq_empty field).
Proof.
  intros Hf. split; apply (respects_piece field); try exact Hf.
  - repeat apply blind_seq; try apply blind_plus_space;
      apply blind_lit_ci; first [exact (fa_no_f field Hf) | no_f].
  - repeat apply seq_fails_first. trivial.
  - repeat apply blind_seq; try apply blind_star_space;
      apply blind_lit_ci; first [exact (fa_no_f field Hf) | no_f].
  - repeat apply seq_fails_first. trivial.
Qed.

Ltac field_is_apart :=
  constructor;
  [ discriminate
  | no_f
  | intros t0 r Ht0; simpl in Ht0;
    repeat (destruct Ht0 as [<-|Ht0]; [reflexivity|]); contradiction
  | intros r; reflexivity
  | intros c r Hc; rewrite p_lit_ci_cons;
    rewrite (digit_not_letter_ci _ c Hc); reflexivity ].

Lemma nullable_fields_apart (field : str) :
  In field (L "comp_manually" :: nullable_fields) -> field_apart field.
Proof.
  intros Hin. simpl in Hin.
  repeat (destruct Hin as [<-|Hin]; [field_is_apart|]). contradiction.
Qed.

(** The rewrite of ['May 31'], in any case: it cannot start in the column
    name nor at a digit, not at the opening quote, which a digit or a quote
    follows, and at the closing quote it puts the quote back. *)
Lemma respects_may_31 :
  respects (m_literal_ci (L "'May 31'") (L "'2025-05-31'")).
Proof.
  constructor.
  - intros d4 p a b n rep Hd Ha Hm.
    apply m_literal_ci_inv in Hm as (-> & _ & Hs).
    rewrite (startswith_ci_app_stop _ a (padded d4 ++ b)) in Hs;
      [now apply startswith_ci_shorter | no_f | apply fstop_padded].
  - intros d4 p t1 t2 b Hd Ht Hne. unfold m_literal_ci.
    destruct (prefix_suffix_cases d4 t1 t2 Hd Ht Hne) as [Hc1|[Hc2|Hc3]].
    + destruct Hc1 as (t0 & Ht0 & ->). simpl in Ht0.
      repeat (destruct Ht0 as [<-|Ht0]; [reflexivity|]). contradiction.
    + subst t2. destruct d4 as [|c d4]; [reflexivity|].
      simpl in Hd. apply andb_true_iff in Hd as [Hc _].
      change (startswith_ci (L "'May 31'")
                ((L "'" ++ c :: d4) ++ L "'" ++ b))
        with (Ascii.eqb (lower_char "'") (lower_char "'")
              && (Ascii.eqb (lower_char "M") (lower_char c)
                  && startswith_ci (L "ay 31'") (d4 ++ L "'" ++ b))).
      rewrite (digit_not_letter_ci "M"%char c Hc eq_refl).
      now rewrite andb_false_r.
    + destruct Hc3 as (c & r & -> & Hc).
      change (startswith_ci (L "'May 31'") ((c :: r) ++ L "'" ++ b))
        with (Ascii.eqb (lower_char "'") (lower_char c)
              && startswith_ci (L "May 31'") (r ++ L "'" ++ b)).
      now rewrite (digit_not_letter_ci "'"%char c Hc eq_refl).
  - intros p b n rep Hm. now apply m_literal_ci_inv in Hm as (_ & -> & _).
Qed.

(** [rstrip(';')] and an appended text leave a padded comparison alone. *)
Lemma rstrip_by_app_keep (f : ascii -> bool) (u : str) (c : ascii) (v : str) :
  f c = false ->
  rstrip_by f ((u ++ [c]) ++ v) = (u ++ [c]) ++ rstrip_by f v.
Proof.
  intros Hc. unfold rstrip_by. rewrite !rev_app_distr. simpl.
  rewrite (dropwhile_app_stop f (rev v) (c :: rev u) Hc).
  rewrite rev_app_distr. simpl. now rewrite rev_involutive.
Qed.

Lemma keepsT_rstrip_append (z : str) :
  keepsT (fun s => rstrip_semicolon s ++ z).
Proof.
  intros d4 s Hd (a & b & ->). unfold rstrip_semicolon.
  replace (a ++ padded d4 ++ b)
    with (((a ++ padded_prefix ++ d4) ++ ["'"%char]) ++ b)
    by (unfold padded; now rewrite <- !app_assoc).
  rewrite (rstrip_by_app_keep (is_code 59) _ "'"%char b eq_refl).
  exists a, (rstrip_by (is_code 59) b ++ z).
  unfold padded. now rewrite <- !app_assoc.
Qed.

Ltac keeps_lit_T :=
  match goal with
  | Hd : forallb isdecimal ?d4 = true
    |- holds_padded ?d4 (replace ?old ?new _) =>
      let H := fresh in
      assert (H : lit_ok_T old new = true) by by_check;
      apply (keepsT_replace old new H d4 _ Hd); clear H
  | Hd : forallb isdecimal ?d4 = true
    |- holds_padded ?d4 (re_sub (m_literal ?old ?new) _) =>
      let H := fresh in
      assert (H : lit_ok_T old new = true) by by_check;
      apply (keepsT_replace old new H d4 _ Hd); clear H
  end.

Ltac keeps_tail_T :=
  match goal with
  | Hd : forallb isdecimal ?d4 = true
    |- holds_padded ?d4 (rstrip_semicolon _ ++ ?z) =>
      apply (keepsT_rstrip_append z d4 _ Hd)
  end.

(** Pass 2, after its average-duration repair. *)
Lemma add_group_by_keepsT : keepsT add_group_by.
Proof.
  intros d4 s Hd Hs. unfold add_group_by.
  destruct (contains (L "ORDER BY") (upper s)).
  - now keeps_lit_T.
  - now keeps_tail_T.
Qed.

Lemma fix_count_group_by_keepsT : keepsT fix_count_group_by.
Proof.
  intros d4 s Hd Hs. unfold fix_count_group_by.
  match goal with |- context [if ?c then _ else _] => destruct c end;
    [now apply add_group_by_keepsT | exact Hs].
Qed.

Lemma fix_round_group_by_keepsT : keepsT fix_round_group_by.
Proof.
  intros d4 s Hd Hs. unfold fix_round_group_by.
  match goal with |- context [if ?c then _ else _] => destruct c end;
    [now apply add_group_by_keepsT | exact Hs].
Qed.

(** Pass 3. *)
Lemma fix_field_keepsT (question_lower field : str) :
  In field nullable_fields ->
  keepsT (fun s => fix_field question_lower s field).
Proof.
  intros Hin d4 s Hd Hs. unfold fix_field.
  destruct (contains field question_lower); [|exact Hs].
  assert (Hf : field_apart field)
    by (apply nullable_fields_apart; now right).
  destruct (respects_null_rewrites field Hf) as [R1 R2].
  apply keepsT_sub;
    [apply m_eq_empty_wf, (fa_nonempty field Hf) | exact R2 | exact Hd |].
  apply keepsT_sub;
    [apply m_is_null_wf, (fa_nonempty field Hf) | exact R1 | exact Hd |].
  exact Hs.
Qed.

Lemma fold_fix_field_keepsT (question_lower : str) (fields : list str) :
  (forall f, In f fields -> In f nullable_fields) ->
  keepsT (fun s => fold_left (fix_field question_lower) fields s).
Proof.
  induction fields as [|f fields IH]; intros Hin d4 s Hd Hs; [exact Hs|].
  simpl. apply IH; [intros g Hg; apply Hin; now right | exact Hd |].
  apply (fix_field_keepsT question_lower f); [apply Hin; now left | exact Hd |].
  exact Hs.
Qed.

Lemma fix_comp_manually_keepsT (question_lower : str) :
  keepsT (fix_comp_manually question_lower).
Proof.
  intros d4 s Hd Hs. unfold fix_comp_manually.
  assert (Hf : field_apart (L "comp_manually"))
    by (apply nullable_fields_apart; now left).
  destruct (respects_null_rewrites _ Hf) as [R1 R2].
  destruct (contains (L "comp_manually") question_lower); [|exact Hs].
  destruct (contains (L "null") question_lower).
  - apply keepsT_sub;
      [apply m_is_null_wf, (fa_nonempty _ Hf) | exact R1 | exact Hd | exact Hs].
  - destruct (contains (L "empty") question_lower); [|exact Hs].
    apply keepsT_sub;
      [apply m_eq_empty_wf, (fa_nonempty _ Hf) | exact R2 | exact Hd | exact Hs].
Qed.

Lemma fix_null_empty_handling_keepsT (user_question : str) :
  keepsT (fun s => _fix_null_empty_handling s user_question).
Proof.
  intros d4 s Hd Hs. unfold _fix_null_empty_handling.
  destruct (contains (L "null") (lower user_question)
            || contains (L "empty") (lower user_question)); [|exact Hs].
  apply (fold_fix_field_keepsT _ nullable_fields (fun _ H => H)); [exact Hd|].
  now apply fix_comp_manually_keepsT.
Qed.

(** Pass 4. *)
Lemma localize_keepsT (cols : list str) :
  (forall col, In col cols -> In col localized_columns) ->
  keepsT (fun s => fold_left localize_to_date cols s).
Proof.
  induction cols as [|col cols IH]; intros Hin d4 s Hd Hs; [exact Hs|].
  assert (Hok : lit_ok_T (to_date col) (to_date_tz col) = true).
  { assert (Hc : In col localized_columns) by (apply Hin; now left).
    simpl in Hc.
    repeat (destruct Hc as [<-|Hc]; [by_check|]). contradiction. }
  simpl. apply (IH (fun c H => Hin c (or_intror H))); [exact Hd|].
  now apply (keepsT_replace _ _ Hok).
Qed.

Lemma expand_select_star_keepsT (ql : str) : keepsT (expand_select_star ql).
Proof.
  intros d4 s Hd Hs. unfold expand_select_star.
  match goal with |- context [if ?c then _ else _] => destruct c end;
    [now keeps_lit_T | exact Hs].
Qed.

Lemma fix_june_2_keepsT (ql : str) : keepsT (fix_june_2 ql).
Proof.
  intros d4 s Hd Hs. unfold fix_june_2, lit_sub.
  destruct (contains (L "june 2") ql); [|exact Hs].
  match goal with |- context [if ?c then _ else _] => destruct c end.
  - now do 4 keeps_lit_T.
  - now do 3 keeps_lit_T.
Qed.

Lemma fix_june_1_keepsT (ql : str) : keepsT (fix_june_1 ql).
Proof.
  intros d4 s Hd Hs. unfold fix_june_1, lit_sub.
  destruct (contains (L "june 1") ql); [|exact Hs].
  now do 2 keeps_lit_T.
Qed.

Lemma fix_may_31_keepsT (ql : str) : keepsT (fix_may_31 ql).
Proof.
  intros d4 s Hd Hs. unfold fix_may_31, lit_sub.
  destruct (contains (L "may 31") ql); [|exact Hs].
  apply keepsT_sub;
    [apply m_literal_ci_wf; discriminate | exact respects_may_31 | exact Hd |].
  now keeps_lit_T.
Qed.

Lemma fix_last_request_keepsT (ql : str) : keepsT (fix_last_request ql).
Proof.
  intros d4 s Hd Hs. unfold fix_last_request.
  match goal with |- context [if ?c then _ else _] => destruct c end;
    [now keeps_tail_T | exact Hs].
Qed.

Lemma fix_hourly_keepsT (ql : str) : keepsT (fix_hourly ql).
Proof.
  intros d4 s Hd Hs. unfold fix_hourly.
  destruct (contains (L "hourly") ql || contains (L "hour by hour") ql);
    [|exact Hs].
  destruct (contains hour_select s); [|exact Hs].
  now do 2 keeps_lit_T.
Qed.

Lemma fix_month_keepsT (ql : str) : keepsT (fix_month ql).
Proof.
  assert (Hok : forall n, month_search ql = Some n ->
    lit_ok_T (L "FROM fact_porter_request")
      (L "FROM fact_porter_request WHERE toYear(toTimeZone(scheduled_time, 'Asia/Kolkata')) = 2025 AND toMonth(toTimeZone(scheduled_time, 'Asia/Kolkata')) = "
       ++ str_of_int n) = true).
  { intros n Hn. apply month_search_In in Hn. simpl in Hn.
    repeat (destruct Hn as [<-|Hn]; [by_check|]). contradiction. }
  intros d4 s Hd Hs. unfold fix_month.
  destruct (month_search ql) as [n|]; [|exact Hs].
  destruct (contains (L "per day") ql
            && negb (contains (L "GROUP BY") (upper s))); [|exact Hs].
  match goal with |- context [if ?c then _ else _] => destruct c end.
  - keeps_lit_T. now apply (keepsT_replace _ _ (Hok n eq_refl)).
  - now apply (keepsT_replace _ _ (Hok n eq_refl)).
Qed.

Lemma enhance_date_queries_keepsT (user_question : str) :
  keepsT (fun s => _enhance_date_queries s user_question).
Proof.
  intros d4 s Hd Hs. unfold _enhance_date_queries. cbv zeta.
  apply fix_month_keepsT, fix_hourly_keepsT, fix_last_request_keepsT,
    fix_may_31_keepsT, fix_june_1_keepsT, fix_june_2_keepsT,
    expand_select_star_keepsT; try exact Hd.
  now apply (localize_keepsT localized_columns (fun _ H => H)).
Qed.

Lemma forallb_repeat (f : ascii -> bool) (c : ascii) (n : nat) :
  f c = true -> forallb f (repeat c n) = true.
Proof. intros H. induction n; [reflexivity|]. simpl. now rewrite H. Qed.

Lemma zfill4_digits (ds : str) :
  forallb isdecimal ds = true -> forallb isdecimal (zfill4 ds) = true.
Proof.
  intros H. unfold zfill4. rewrite forallb_app, H, andb_true_r.
  now apply forallb_repeat.
Qed.

(* ===================================================================== *)
(** ** The frame of the average-duration pattern                          *)
(* ===================================================================== *)

(** What a piece reads. *)
Lemma eats_seq (q : ascii -> bool) (P Q : piece) :
  eats q P -> eats q Q -> eats q (P >> Q).
Proof.
  intros HP HQ s rest H. unfold p_seq in H.
  destruct (P s) as [s1|] eqn:E1; [|discriminate].
  destruct (HP _ _ E1) as (x1 & -> & H1).
  destruct (HQ _ _ H) as (x2 & -> & H2).
  exists (x1 ++ x2). split; [now rewrite app_assoc|].
  now rewrite forallb_app, H1, H2.
Qed.

Lemma eats_lit (q : ascii -> bool) (l : str) :
  forallb q l = true -> eats q (p_lit l).
Proof.
  intros Hl s rest H. unfold p_lit in H.
  destruct (startswith l s) eqn:E; [|discriminate]. injection H as <-.
  exists l. split; [now apply startswith_split | exact Hl].
Qed.

Lemma startswith_ci_forallb (q : ascii -> bool) (l s : str) :
  (forall a c, In a l -> lower_char a = lower_char c -> q c = true) ->
  startswith_ci l s = true -> forallb q (firstn (length l) s) = true.
Proof.
  revert s; induction l as [|a l IH]; intros s Hq H; [reflexivity|].
  destruct s as [|c s]; [discriminate|]. simpl in H |- *.
  apply andb_true_iff in H as [Hc H]. apply Ascii.eqb_eq in Hc.
  rewrite (Hq a c (or_introl eq_refl) Hc). simpl.
  apply IH; [|exact H]. intros a' c' Ha'. apply Hq. now right.
Qed.

Lemma eats_lit_ci (q : ascii -> bool) (l : str) :
  (forall a c, In a l -> lower_char a = lower_char c -> q c = true) ->
  eats q (p_lit_ci l).
Proof.
  intros Hl s rest H. unfold p_lit_ci in H.
  destruct (startswith_ci l s) eqn:E; [|discriminate]. injection H as <-.
  exists (firstn (length l) s). split; [symmetry; apply firstn_skipn|].
  now apply startswith_ci_forallb.
Qed.

Lemma takewhile_class (f q : ascii -> bool) (s : str) :
  (forall c, f c = true -> q c = true) -> forallb q (takewhile f s) = true.
Proof.
  intros H. induction s as [|c s IH]; [reflexivity|]. simpl.
  destruct (f c) eqn:E; [|reflexivity]. simpl. now rewrite (H c E).
Qed.

Lemma eats_star (q f : ascii -> bool) :
  (forall c, f c = true -> q c = true) -> eats q (p_star f).
Proof.
  intros Hf s rest H. unfold p_star in H. injection H as <-.
  exists (takewhile f s). split; [apply takewhile_dropwhile|].
  now apply takewhile_class.
Qed.

Lemma eats_plus (q f : ascii -> bool) :
  (forall c, f c = true -> q c = true) -> eats q (p_plus f).
Proof.
  intros Hf s rest H. unfold p_plus in H.
  destruct s as [|c s]; [discriminate|].
  destruct (f c); [|discriminate].
  exact (eats_star q f Hf (c :: s) rest H).
Qed.

Lemma not_rparen_lower (a c : ascii) :
  lower_char a <> ")"%char -> lower_char a = lower_char c ->
  not_rparen c = true.
Proof.
  intros Ha E. unfold not_rparen.
  destruct (is_code 41 c) eqn:Hc; [|reflexivity].
  exfalso. apply Ha. rewrite E. revert Hc. each_char c.
Qed.

Lemma space_not_rparen (c : ascii) : isspace c = true -> not_rparen c = true.
Proof. each_char c. Qed.

Lemma digit_not_rparen (c : ascii) : isdecimal c = true -> not_rparen c = true.
Proof. each_char c. Qed.

Lemma digits_no_rparen (ds : str) :
  forallb isdecimal ds = true -> forallb not_rparen ds = true.
Proof.
  induction ds as [|c ds IH]; [reflexivity|]. simpl. intros H.
  apply andb_true_iff in H as [Hc H].
  now rewrite (digit_not_rparen c Hc), (IH H).
Qed.

Lemma padded_no_rparen (d4 : str) :
  forallb isdecimal d4 = true -> forallb not_rparen (padded d4) = true.
Proof.
  intros H. unfold padded. rewrite !forallb_app, (digits_no_rparen d4 H).
  reflexivity.
Qed.

(** A prefix of the result of a scan that no replacement can carry on was
    copied from the text. *)
Lemma scans_copied (m : matcher) (w : str) :
  (forall p s n rep t w',
     m p s = Some (n, rep) -> In w' (tails1 w) ->
     startswith w' (rep ++ t) = false) ->
  forall p s o,
    scans m p s o -> startswith w o = true ->
    exists s' o',
      s = w ++ s' /\ o = w ++ o' /\ scans m (prev_after p w) s' o'
      /\ (w <> [] -> m p s = None).
Proof.
  induction w as [|a w IH]; intros Hc p s o Hsc Ho.
  - exists s, o. repeat split; [exact Hsc | congruence].
  - destruct Hsc as [p|p c s o Hm Hsc|p x rest rep o Hx Hm Hsc].
    + discriminate.
    + simpl in Ho. apply andb_true_iff in Ho as [Hac Ho].
      apply Ascii.eqb_eq in Hac. subst c.
      destruct (IH (fun p s n rep t w' Hm' Hw' =>
                      Hc p s n rep t w' Hm' (tails1_cons a w w' Hw'))
                   (Some a) s o Hsc Ho) as (s' & o' & -> & -> & Hsc' & _).
      exists s', o'. repeat split; [exact Hsc' | now intros _].
    + rewrite (Hc _ _ _ _ o (a :: w) Hm (tails1_self a w)) in Ho.
      discriminate.
Qed.

Section Frame.
Variable m : matcher.
Hypothesis m_safe : frame_safe m.

Lemma scans_no_rparen (p : option ascii) (s o : str) :
  scans m p s o -> forallb not_rparen o = true -> forallb not_rparen s = true.
Proof.
  intros Hsc. induction Hsc as [p|p c s o Hm Hsc IH|p x rest rep o Hx Hm Hsc IH];
    intros Ho.
  - reflexivity.
  - simpl in Ho |- *. apply andb_true_iff in Ho as [-> Ho]. now apply IH.
  - rewrite forallb_app in Ho |- *. apply andb_true_iff in Ho as [_ Ho].
    rewrite (IH Ho), andb_true_r.
    pose proof (fs_old m m_safe _ _ _ _ Hm) as H.
    now rewrite firstn_app, Nat.sub_diag, firstn_all, app_nil_r in H.
Qed.

Lemma opens_scans (p : option ascii) (s o : str) :
  scans m p s o ->
  forall q, fires opens_here q o = true -> fires opens_here p s = true.
Proof.
  intros Hsc q Hf.
  destruct (fires_scans opens_here m (fun _ _ => True)) with (p := p) (s := s)
    (o := o) (q := q) as (s1 & s2 & -> & H1 & _); try exact Hsc;
    try exact Hf; try exact I.
  - intros; exact I.
  - intros; exact I.
  - intros p0 s0 o0 q0 Hsc0 _ Ho. unfold opens_here in Ho |- *.
    apply andb_true_iff in Ho as [Ho1 Ho2].
    destruct (scans_copied m avg_time_opening) with (p := p0) (s := s0)
      (o := o0) as (s' & o' & Es & Eo & _ & Hn); try exact Hsc0;
      try exact Ho1.
    { intros p1 s1 n rep t w' Hm Hw'.
      apply (fs_cont m m_safe _ _ _ _ t w' Hm). apply in_or_app. now left. }
    rewrite (scans_no_rparen p0 s0 o0 Hsc0 Ho2), andb_true_r.
    split; [rewrite Es; apply startswith_app | apply Hn; discriminate].
  - intros p0 x rest rep o0 q0 r1 r2 Hm Hrep Hr1 Hr2. unfold opens_here.
    now rewrite (fs_in m m_safe _ _ _ _ o0 r1 r2 Hm Hrep Hr2).
  - apply fires_here; [|exact H1].
    intros ->. discriminate H1.
Qed.

Lemma closes_scans (p : option ascii) (s o : str) :
  scans m p s o -> closes_avg_time o = true -> closes_avg_time s = true.
Proof.
  intros Hsc. unfold closes_avg_time.
  induction Hsc as [p|p c s o Hm Hsc IH|p x rest rep o Hx Hm Hsc IH];
    intros Ho.
  - discriminate.
  - cbn [dropwhile] in Ho |- *. destruct (not_rparen c) eqn:Ec;
      [now apply IH|].
    destruct (scans_copied m avg_time_closing) with (p := p) (s := c :: s)
      (o := c :: o) as (s' & o' & Es & _); try exact Ho.
    { intros p1 s1 n rep t w' Hm' Hw'.
      apply (fs_cont m m_safe _ _ _ _ t w' Hm'). apply in_or_app. now right. }
    { now apply scans_copy. }
    rewrite Es. apply startswith_app.
  - rewrite (dropwhile_all not_rparen rep o (fs_new m m_safe _ _ _ _ Hm)) in Ho.
    pose proof (fs_old m m_safe _ _ _ _ Hm) as H.
    rewrite firstn_app, Nat.sub_diag, firstn_all, app_nil_r in H.
    rewrite (dropwhile_all not_rparen x rest H). now apply IH.
Qed.
End Frame.

Lemma fires_opens_prev (p q : option ascii) (s : str) :
  fires opens_here p s = fires opens_here q s.
Proof. destruct s as [|c s]; reflexivity. Qed.

Lemma frame_safe_ahead (m : matcher) (z : str) :
  frame_safe m -> frame_safe (ahead m z).
Proof.
  intros H. constructor; unfold ahead.
  - intros p s n rep Hm. pose proof (fs_old m H _ _ _ _ Hm) as Ho.
    rewrite firstn_app, forallb_app in Ho.
    now apply andb_true_iff in Ho as [Ho _].
  - intros p s n rep Hm. exact (fs_new m H _ _ _ _ Hm).
  - intros p s n rep t w Hm. exact (fs_cont m H _ _ _ _ t w Hm).
  - intros p s n rep t r1 r2 Hm. exact (fs_in m H _ _ _ _ t r1 r2 Hm).
Qed.

Lemma frame_safe_const (m : matcher) (rep : str) :
  (forall p s n rep', m p s = Some (n, rep') ->
     rep' = rep /\ forallb not_rparen (firstn n s) = true) ->
  rep_ok_frame rep = true -> frame_safe m.
Proof.
  intros Hc Hok. unfold rep_ok_frame in Hok.
  apply andb_true_iff in Hok as [Hok Hin].
  apply andb_true_iff in Hok as [Hnew Hcont].
  rewrite forallb_forall in Hcont, Hin.
  constructor.
  - intros p s n rep' Hm. now destruct (Hc _ _ _ _ Hm).
  - intros p s n rep' Hm. now destruct (Hc _ _ _ _ Hm) as [-> _].
  - intros p s n rep' t w Hm Hw. destruct (Hc _ _ _ _ Hm) as [-> _].
    destruct (startswith w (rep ++ t)) eqn:E; [|reflexivity].
    apply startswith_app_comparable in E. apply Hcont in Hw.
    rewrite E in Hw. discriminate.
  - intros p s n rep' t r1 r2 Hm Hrep Hr2. destruct (Hc _ _ _ _ Hm) as [-> _].
    destruct (startswith avg_time_opening (r2 ++ t)) eqn:E; [|reflexivity].
    apply startswith_app_comparable in E.
    assert (Hin2 : In r2 (tails1 rep)) by (subst rep; now apply tails1_in).
    apply Hin in Hin2. rewrite E in Hin2. discriminate.
Qed.

Lemma frame_safe_countif : frame_safe m_countif.
Proof.
  apply (frame_safe_const m_countif (L "countIf")); [|reflexivity].
  intros p s n rep Hm. apply m_countif_inv in Hm as (-> & -> & Hs).
  split; [reflexivity|].
  change 7 with (length countif_word).
  now rewrite (firstn_startswith countif_word s Hs).
Qed.

Lemma frame_safe_literal (old new : str) :
  forallb not_rparen old = true -> rep_ok_frame new = true ->
  frame_safe (m_literal old new).
Proof.
  intros Ho Hn. apply (frame_safe_const _ new); [|exact Hn].
  intros p s n rep Hm. apply m_literal_inv in Hm as (-> & -> & Hs).
  split; [reflexivity|]. now rewrite (firstn_startswith old s Hs).
Qed.

(** Pass 1: what its pattern reads and what it writes hold no closing
    parenthesis, and its replacements start with [fa] and hold no [r]. *)
Lemma facility_id_prefix_eats : eats not_rparen facility_id_prefix.
Proof.
  unfold facility_id_prefix. repeat apply eats_seq.
  - apply eats_lit_ci. intros a c Ha. apply not_rparen_lower.
    simpl in Ha. repeat (destruct Ha as [<-|Ha]; [discriminate|]).
    contradiction.
  - apply eats_star. exact space_not_rparen.
  - apply eats_lit. reflexivity.
  - apply eats_star. exact space_not_rparen.
Qed.

Lemma m_facility_id_inv (p : option ascii) (s : str) (n : nat) (rep : str) :
  m_facility_id p s = Some (n, rep) ->
  exists x ds rest,
    s = x ++ ds ++ rest /\ n = length x + length ds
    /\ forallb not_rparen x = true /\ forallb isdecimal ds = true
    /\ rep = replace_facility_id ds.
Proof.
  unfold m_facility_id. intros H.
  destruct (facility_id_prefix s) as [r|] eqn:E; [|discriminate].
  destruct (facility_id_prefix_eats s r E) as (x & -> & Hx).
  destruct (takewhile isdecimal r) as [|d ds] eqn:Ed; [discriminate|].
  injection H as <- <-.
  exists x, (d :: ds), (dropwhile isdecimal r).
  split; [f_equal; rewrite <- Ed; apply takewhile_dropwhile|].
  split; [rewrite length_app; cbn [length]; lia|].
  split; [exact Hx|].
  split; [rewrite <- Ed; apply takewhile_forallb | reflexivity].
Qed.

Lemma opening_head (c : ascii) (s : str) :
  c <> "r"%char -> startswith avg_time_opening (c :: s) = false.
Proof.
  intros Hc. unfold avg_time_opening. simpl.
  destruct (Ascii.eqb "r" c) eqn:E; [|reflexivity].
  apply Ascii.eqb_eq in E. congruence.
Qed.

Lemma frame_safe_facility_id : frame_safe m_facility_id.
Proof.
  assert (Hc : forallb (fun w => negb (comparable w padded_name))
                 (tails1 avg_time_opening ++ tails1 avg_time_closing) = true)
    by by_check.
  assert (Hi : forallb (fun w => negb (comparable avg_time_opening w))
                 (tails1 padded_name) = true) by by_check.
  rewrite forallb_forall in Hc, Hi.
  constructor.
  - intros p s n rep Hm.
    apply m_facility_id_inv in Hm as (x & ds & rest & -> & -> & Hx & Hd & _).
    rewrite app_assoc, firstn_app, length_app, Nat.sub_diag, firstn_all2,
      app_nil_r by (rewrite length_app; lia).
    now rewrite forallb_app, Hx, (digits_no_rparen ds Hd).
  - intros p s n rep Hm. apply m_facility_id_rep in Hm as (ds & Hd & ->).
    exact (padded_no_rparen _ (zfill4_digits ds Hd)).
  - intros p s n rep t w Hm Hw. apply m_facility_id_rep in Hm as (ds & Hd & ->).
    destruct (startswith w (replace_facility_id ds ++ t)) eqn:E; [|reflexivity].
    change (replace_facility_id ds ++ t)
      with (padded_name ++ (L "'" ++ zfill4 ds ++ L "'") ++ t) in E.
    apply startswith_app_comparable in E. apply Hc in Hw.
    rewrite E in Hw. discriminate.
  - intros p s n rep t r1 r2 Hm Hrep Hr2.
    apply m_facility_id_rep in Hm as (ds & Hd & ->).
    pose proof (zfill4_digits ds Hd) as Hd4.
    change (replace_facility_id ds) with (padded (zfill4 ds)) in Hrep.
    rewrite padded_split in Hrep.
    destruct (suffix_before_last _ r1 r2 _ Hrep Hr2) as (t2 & -> & Ht).
    destruct t2 as [|c t2]; [reflexivity|].
    destruct (prefix_suffix_cases _ r1 (c :: t2) Hd4 Ht ltac:(discriminate))
      as [(t0 & Ht0 & E)|[E|(c' & r & E & Hc')]]; rewrite E.
    + match goal with
      | |- startswith ?w ?z = false =>
          destruct (startswith w z) eqn:E2; [|reflexivity]
      end.
      rewrite <- !app_assoc in E2. apply startswith_app_comparable in E2.
      apply Hi in Ht0. rewrite E2 in Ht0. discriminate.
    + reflexivity.
    + injection E as -> _. apply opening_head.
      intros ->. discriminate Hc'.
Qed.

(** A rewrite that respects padded comparisons, starts no match at a quote
    and is safe for the frame keeps a padded comparison outside the frame. *)
Lemma keepsE_sub (m : matcher) :
  wf_matcher m -> respects m -> strict m -> frame_safe m -> keepsE (re_sub m).
Proof.
  intros Hwf Hr Hs Hf d4 a b Hd Hab. unfold re_sub.
  destruct (strict_barrier m d4 a b Hwf) with (p := @None ascii)
    as (oa & Hoa & Hsc).
  { intros a1 a2 p n rep _ Ha2 Hm.
    exact (rs_before m Hr d4 p a2 b n rep Hd Ha2 Hm). }
  { intros p t1 t2 Ht Hne. exact (rs_inside m Hr d4 p t1 t2 b Hd Ht Hne). }
  { intros p. apply Hs. }
  exists oa, (sub_scan m 0 (Some "'"%char) b). split; [exact Hoa|].
  unfold inside_avg_time in *.
  destruct (opens_avg_time oa) eqn:Eo; [|reflexivity].
  destruct (closes_avg_time (sub_scan m 0 (Some "'"%char) b)) eqn:Ec;
    [|reflexivity].
  unfold opens_avg_time in Eo.
  pose proof (opens_scans (ahead m (padded d4 ++ b)) (frame_safe_ahead m _ Hf)
                None a oa Hsc None Eo) as H1.
  pose proof (closes_scans m Hf (Some "'"%char) b _
                (sub_scan_scans m Hwf b _) Ec) as H2.
  unfold opens_avg_time in Hab. rewrite H1, H2 in Hab. discriminate.
Qed.

Lemma fix_countif_keepsE : keepsE fix_countif.
Proof.
  apply keepsE_sub;
    [exact m_countif_wf | exact respects_countif | exact strict_countif
    | exact frame_safe_countif].
Qed.

Lemma fix_priority_keepsE : keepsE fix_priority.
Proof.
  intros d4 a b Hd Hab. unfold fix_priority.
  destruct (contains (L "priority > 0") (a ++ padded d4 ++ b)).
  - assert (H1 : lit_ok_T (L "priority > 0") (L "priority = 1") = true)
      by by_check.
    assert (H2 : forallb not_rparen (L "priority > 0") = true) by by_check.
    assert (H3 : rep_ok_frame (L "priority = 1") = true) by by_check.
    apply (keepsE_sub (m_literal (L "priority > 0") (L "priority = 1")));
      try assumption.
    + apply m_literal_wf. discriminate.
    + now apply respects_literal.
    + intros p b0. reflexivity.
    + now apply frame_safe_literal.
  - now exists a, b.
Qed.

(** The average-duration repair: a match that starts before a padded
    comparison and reaches it has the comparison inside the frame. *)
Lemma dropwhile_inside (f : ascii -> bool) (x y : str) :
  forallb f x = false -> dropwhile f (x ++ y) = dropwhile f x ++ y.
Proof.
  induction x as [|c x IH]; [discriminate|]. simpl.
  destruct (f c); [exact IH | reflexivity].
Qed.

Lemma avg_time_before (d4 a2 b : str) (p : option ascii) (n : nat)
  (rep : str) :
  forallb isdecimal d4 = true ->
  m_avg_time p (a2 ++ padded d4 ++ b) = Some (n, rep) ->
  n <= length a2
  \/ (opens_here None a2 = true /\ closes_avg_time b = true).
Proof.
  intros Hd Hm.
  assert (Hc1 : forallb (fun w => negb (comparable w padded_name))
                  (tails1 avg_time_opening ++ tails1 avg_time_closing) = true)
    by by_check.
  rewrite forallb_forall in Hc1.
  assert (Hno : forall w,
             In w (tails1 avg_time_opening ++ tails1 avg_time_closing) ->
             startswith w (padded d4 ++ b) = true -> False).
  { intros w Hw E.
    change (padded d4 ++ b)
      with (padded_name ++ (L "'" ++ d4 ++ L "'") ++ b) in E.
    apply startswith_app_comparable in E. apply Hc1 in Hw.
    rewrite E in Hw. discriminate. }
  assert (Hz : dropwhile not_rparen (padded d4 ++ b)
               = dropwhile not_rparen b)
    by (apply dropwhile_all, padded_no_rparen; exact Hd).
  remember (padded d4 ++ b) as z eqn:Ez. clear Ez.
  apply m_piece_inv in Hm as (_ & rest & HP & ->).
  unfold p_seq in HP.
  change (L "round(AVG(dateDiff(") with avg_time_opening in HP.
  change (L "))/60.0, 2) AS avg_time_minutes") with avg_time_closing in HP.
  unfold p_lit at 1 in HP.
  destruct (startswith avg_time_opening (a2 ++ z)) eqn:E1; [|discriminate].
  destruct (startswith_app_cases _ a2 _ E1) as [Ha2|(w2 & Hw2 & Hs2)];
    [|exfalso; apply (Hno w2); [apply in_or_app; now left | exact Hs2]].
  pose proof (startswith_split _ _ Ha2) as Esplit.
  remember (skipn (length avg_time_opening) a2) as a3 eqn:Ea3.
  rewrite Esplit in HP. rewrite <- app_assoc, skipn_length_app in HP.
  assert (HP2 : p_lit avg_time_closing (dropwhile not_rparen (a3 ++ z))
                = Some rest).
  { destruct (p_plus not_rparen (a3 ++ z)) as [s2|] eqn:E2; [|discriminate].
    unfold p_plus in E2. destruct (a3 ++ z) as [|c r]; [discriminate|].
    destruct (not_rparen c); [|discriminate]. injection E2 as <-. exact HP. }
  clear HP. unfold p_lit in HP2.
  destruct (startswith avg_time_closing (dropwhile not_rparen (a3 ++ z)))
    eqn:E3; [|discriminate].
  assert (Er : rest = skipn (length avg_time_closing)
                        (dropwhile not_rparen (a3 ++ z)))
    by (cbv iota in HP2; congruence).
  clear HP2.
  destruct (forallb not_rparen a3) eqn:Ha3.
  - right. split.
    + unfold opens_here. rewrite Ha2. rewrite Esplit, forallb_app, Ha3.
      reflexivity.
    + unfold closes_avg_time.
      rewrite (dropwhile_all _ a3 z Ha3), Hz in E3. exact E3.
  - left. rewrite (dropwhile_inside _ a3 z Ha3) in E3, Er. subst rest.
    destruct (startswith_app_cases _ _ _ E3) as [Hd3|(w2 & Hw2 & Hs2)];
      [|exfalso; apply (Hno w2); [apply in_or_app; now right | exact Hs2]].
    apply startswith_shorter in Hd3.
    rewrite skipn_app, !length_app, length_skipn.
    replace (length avg_time_closing - length (dropwhile not_rparen a3))
      with 0 by lia.
    cbn [skipn]. lia.
Qed.

Lemma m_avg_time_head (p : option ascii) (c : ascii) (s : str) :
  c <> "r"%char -> m_avg_time p (c :: s) = None.
Proof.
  intros Hc. unfold m_avg_time, m_piece, p_seq. unfold p_lit at 1.
  change (L "round(AVG(dateDiff(") with avg_time_opening.
  now rewrite (opening_head c s Hc).
Qed.

Lemma fix_avg_time_outside (d4 a b : str) :
  forallb isdecimal d4 = true -> inside_avg_time a b = false ->
  holds_padded d4 (fix_avg_time (a ++ padded d4 ++ b)).
Proof.
  intros Hd Hab. unfold fix_avg_time.
  match goal with |- context [if ?c then _ else _] => destruct c end;
    [|now exists a, b].
  unfold re_sub.
  destruct (strict_barrier m_avg_time d4 a b m_avg_time_wf)
    with (p := @None ascii) as (oa & Hoa & _).
  - intros a1 a2 p n rep Ea Ha2 Hm.
    destruct (avg_time_before d4 a2 b p n rep Hd Hm) as [H|[H1 H2]];
      [exact H|].
    exfalso. unfold inside_avg_time, opens_avg_time in Hab.
    rewrite H2, andb_true_r in Hab. rewrite Ea in Hab.
    rewrite (fires_here opens_here a1 a2 None Ha2) in Hab; [discriminate|].
    destruct a2 as [|c a2]; [congruence | exact H1].
  - intros p t1 t2 Ht Hne.
    destruct (prefix_suffix_cases d4 t1 t2 Hd Ht Hne) as [Hc1|[Hc2|Hc3]].
    + destruct Hc1 as (t0 & Ht0 & ->). simpl in Ht0.
      repeat (destruct Ht0 as [<-|Ht0];
              [apply m_avg_time_head; discriminate|]).
      contradiction.
    + subst t2. apply m_avg_time_head. discriminate.
    + destruct Hc3 as (c & r & -> & Hc). apply m_avg_time_head.
      intros ->. vm_compute in Hc. discriminate.
  - intros p. apply m_avg_time_head. discriminate.
  - now exists oa, (sub_scan m_avg_time 0 (Some "'"%char) b).
Qed.

(** Passes 2 to 4 keep a padded comparison that does not lie inside the
    frame of the average-duration pattern. *)
Lemma later_passes_keep_padded (d4 a b user_question : str) :
  forallb isdecimal d4 = true -> inside_avg_time a b = false ->
  holds_padded d4
    (_enhance_date_queries
       (_fix_null_empty_handling (_fix_sql_functions (a ++ padded d4 ++ b))
          user_question)
       user_question).
Proof.
  intros Hd Hab.
  apply (enhance_date_queries_keepsT user_question); [exact Hd|].
  apply (fix_null_empty_handling_keepsT user_question); [exact Hd|].
  unfold _fix_sql_functions.
  apply fix_round_group_by_keepsT, fix_count_group_by_keepsT; try exact Hd.
  destruct (fix_countif_keepsE d4 a b Hd Hab) as (a1 & b1 & -> & H1).
  destruct (fix_priority_keepsE d4 a1 b1 Hd H1) as (a2 & b2 & -> & H2).
  now apply fix_avg_time_outside.
Qed.

Lemma fix_facility_id_format_outside (pre post : str) :
  inside_avg_time pre post = false ->
  inside_avg_time (_fix_facility_id_format pre) (_fix_facility_id_format post)
  = false.
Proof.
  intros H. unfold inside_avg_time in *.
  destruct (opens_avg_time (_fix_facility_id_format pre)) eqn:Eo;
    [|reflexivity].
  destruct (closes_avg_time (_fix_facility_id_format post)) eqn:Ec;
    [|reflexivity].
  unfold opens_avg_time in Eo.
  pose proof (opens_scans m_facility_id frame_safe_facility_id None pre _
                (sub_scan_scans _ m_facility_id_wf pre None) None Eo) as H1.
  pose proof (closes_scans m_facility_id frame_safe_facility_id None post _
                (sub_scan_scans _ m_facility_id_wf post None) Ec) as H2.
  unfold opens_avg_time in H. rewrite H1, H2 in H. discriminate.
Qed.

(** The padded comparison that pass 1 writes is still in the result of the
    pipeline, unless it lies inside the frame of the average-duration
    pattern. *)
Lemma repair_keeps_padded (pre name ws1 ws2 post : str) (N : Z)
  (user_question : str) :
  lower name = L "facility_id" ->
  forallb isspace ws1 = true ->
  forallb isspace ws2 = true ->
  (1 <= N <= 9999)%Z ->
  no_digit_at post = true ->
  let sql_query :=
    pre ++ name ++ ws1 ++ L "=" ++ ws2 ++ str_of_int N ++ post in
  inside_avg_time pre post = false ->
  holds_padded (zfill4 (str_of_int N)) (repair sql_query user_question).
Proof.
  intros Hname H1 H2 HN Hpost sql_query Hout.
  destruct (fix_facility_id_format_pads pre name ws1 ws2 post N
              Hname H1 H2 HN Hpost) as (Ha & _ & _).
  destruct (numeral_facts N HN) as (Hd & _ & _).
  pose proof (zfill4_digits _ Hd) as Hd4.
  unfold repair, sql_query. rewrite Ha.
  replace (L "facility_id = '" ++ zfill4 (str_of_int N) ++ L "'"
           ++ _fix_facility_id_format post)
    with (padded (zfill4 (str_of_int N)) ++ _fix_facility_id_format post)
    by (unfold padded, padded_prefix; now rewrite <- !app_assoc).
  apply later_passes_keep_padded; [exact Hd4|].
  now apply fix_facility_id_format_outside.
Qed.


(* ===================================================================== *)
(** ** A [COUNTIf] that pass 3 can expose                                  *)
(* ===================================================================== *)

Lemma startswith_ci_prefix (l x t t' : str) :
  length x = length l ->
  startswith_ci l (x ++ t) = startswith_ci l (x ++ t').
Proof.
  revert x; induction l as [|a l IH]; intros [|c x] H; simpl in H;
    try discriminate; [reflexivity|].
  simpl. f_equal. apply IH. lia.
Qed.

Lemma startswith_ci_app_comparable (w r t : str) :
  startswith_ci w (r ++ t) = true -> comparable_ci w r = true.
Proof.
  revert r; induction w as [|a w IH]; intros r H.
  - reflexivity.
  - destruct r as [|c r].
    + unfold comparable_ci. simpl. reflexivity.
    + simpl in H. apply andb_true_iff in H as [Hac H].
      apply IH in H. unfold comparable_ci in *. simpl. rewrite Hac.
      rewrite Ascii.eqb_sym in Hac. rewrite Hac. exact H.
Qed.

(** A prefix of the result of a scan, read in any case, that no replacement
    can carry on was copied from the text. *)
Lemma scans_copied_ci (m : matcher) (l : str) :
  (forall p s n rep t l',
     m p s = Some (n, rep) -> In l' (tails1 l) ->
     startswith_ci l' (rep ++ t) = false) ->
  forall p s o,
    scans m p s o -> startswith_ci l o = true ->
    exists x s' o',
      length x = length l /\ s = x ++ s' /\ o = x ++ o'
      /\ scans m (prev_after p x) s' o'
      /\ (l <> [] -> m p s = None).
Proof.
  induction l as [|a l IH]; intros Hc p s o Hsc Ho.
  - exists [], s, o. repeat split; [exact Hsc | congruence].
  - destruct Hsc as [p|p c s o Hm Hsc|p x rest rep o Hx Hm Hsc].
    + discriminate.
    + simpl in Ho. apply andb_true_iff in Ho as [_ Ho].
      destruct (IH (fun p s n rep t l' Hm' Hl' =>
                      Hc p s n rep t l' Hm' (tails1_cons a l l' Hl'))
                   (Some c) s o Hsc Ho)
        as (x & s' & o' & Hlen & -> & -> & Hsc' & _).
      exists (c :: x), s', o'. simpl. rewrite Hlen.
      repeat split; [exact Hsc' | now intros _].
    + rewrite (Hc _ _ _ _ o (a :: l) Hm (tails1_self a l)) in Ho.
      discriminate.
Qed.

Lemma scans_nil_inv (m : matcher) (p : option ascii) (s : str) :
  (forall p s n rep, m p s = Some (n, rep) -> rep <> []) ->
  scans m p s [] -> s = [].
Proof.
  intros Hne Hsc. inversion Hsc as [|? ? ? ? ? ?|? x rest rep o Hx Hm Hsc' E1 E2];
    [reflexivity|].
  exfalso. apply (Hne _ _ _ _ Hm).
  destruct rep; [reflexivity | discriminate].
Qed.

Lemma both_conditions_head (field : str) :
  both_conditions field = "("%char :: field ++ L " IS NULL OR " ++ field ++ L " = '')".
Proof. reflexivity. Qed.

Lemma startswith_paren (w t : str) :
  Forall (fun a => a <> "("%char) w -> w <> [] ->
  startswith w ("("%char :: t) = false.
Proof.
  intros Hw Hne. destruct w as [|a w]; [congruence|].
  inversion Hw as [|? ? Ha _]; subst. simpl.
  destruct (Ascii.eqb a "(") eqn:E; [|reflexivity].
  apply Ascii.eqb_eq in E. contradiction.
Qed.

Lemma startswith_ci_paren (w t : str) :
  Forall (fun a => lower_char a <> "("%char) w -> w <> [] ->
  startswith_ci w ("("%char :: t) = false.
Proof.
  intros Hw Hne. destruct w as [|a w]; [congruence|].
  inversion Hw as [|? ? Ha _]; subst. simpl.
  destruct (Ascii.eqb (lower_char a) (lower_char "(")) eqn:E; [|reflexivity].
  apply Ascii.eqb_eq in E. contradiction.
Qed.

Lemma Forall_tails1 (P : ascii -> Prop) (w w' : str) :
  Forall P w -> In w' (tails1 w) -> Forall P w' /\ w' <> [].
Proof.
  induction w as [|a w IH]; intros H Hin; [contradiction|].
  simpl in Hin. destruct Hin as [<-|Hin]; [split; [exact H | discriminate]|].
  inversion H; subst. now apply IH.
Qed.

Lemma wrap_ok_fields (field : str) :
  In field tested_fields -> wrap_ok (both_conditions field) = true.
Proof.
  intros H. simpl in H.
  repeat (destruct H as [<-|H]; [by_check|]). contradiction.
Qed.

Lemma skipn_after_null (x rest : str) :
  length x = 4 ->
  skipn 4 (x ++ rest) = rest /\ skipn 11 (x ++ rest) = skipn 7 rest.
Proof.
  intros H. change 11 with (7 + 4). rewrite <- skipn_skipn.
  rewrite <- H, skipn_length_app. now split.
Qed.

Section Wraps.
Variable m : matcher.
Hypothesis m_wraps : wraps m.

Lemma wraps_paren (p : option ascii) (s : str) (n : nat) (rep : str) :
  m p s = Some (n, rep) -> exists r', rep = "("%char :: r'.
Proof.
  intros Hm. destruct (wr_rep m m_wraps _ _ _ _ Hm) as (f & _ & -> & _).
  rewrite both_conditions_head. eauto.
Qed.

Lemma wraps_nonempty (p : option ascii) (s : str) (n : nat) (rep : str) :
  m p s = Some (n, rep) -> rep <> [].
Proof.
  intros Hm. destruct (wraps_paren _ _ _ _ Hm) as (r' & ->). discriminate.
Qed.

Lemma wraps_cont (w : str) :
  Forall (fun a => a <> "("%char) w ->
  forall p s n rep t w',
    m p s = Some (n, rep) -> In w' (tails1 w) ->
    startswith w' (rep ++ t) = false.
Proof.
  intros Hw p s n rep t w' Hm Hin.
  destruct (wraps_paren _ _ _ _ Hm) as (r' & ->).
  destruct (Forall_tails1 _ w w' Hw Hin) as [H1 H2].
  now apply startswith_paren.
Qed.

Lemma wraps_cont_ci (w : str) :
  Forall (fun a => lower_char a <> "("%char) w ->
  forall p s n rep t w',
    m p s = Some (n, rep) -> In w' (tails1 w) ->
    startswith_ci w' (rep ++ t) = false.
Proof.
  intros Hw p s n rep t w' Hm Hin.
  destruct (wraps_paren _ _ _ _ Hm) as (r' & ->).
  destruct (Forall_tails1 _ w w' Hw Hin) as [H1 H2].
  now apply startswith_ci_paren.
Qed.

Lemma tested_fields_no_paren (field : str) :
  In field tested_fields -> Forall (fun a => lower_char a <> "("%char) field.
Proof.
  intros H. simpl in H.
  repeat (destruct H as [<-|H]; [repeat constructor; discriminate|]).
  contradiction.
Qed.

Lemma open_after_scans (p : option ascii) (s o : str) :
  scans m p s o -> open_after o = true -> open_after s = true.
Proof.
  intros Hsc Ho. destruct Hsc as [p|p c s o Hm Hsc|p x rest rep o Hx Hm Hsc].
  - reflexivity.
  - unfold open_after in *. cbn [word_at] in Ho |- *.
    destruct (negb (isword c)); [reflexivity|].
    cbn [orb] in Ho |- *. apply existsb_exists in Ho as (f & Hf & Ho).
    apply existsb_exists. exists f. split; [exact Hf|].
    destruct (scans_copied_ci m f
                (wraps_cont_ci f (tested_fields_no_paren f Hf))
                p (c :: s) (c :: o) (scans_copy m p c s o Hm Hsc) Ho)
      as (x & s' & o' & Hlen & Es & Eo & _).
    rewrite Es. rewrite Eo in Ho.
    now rewrite (startswith_ci_prefix f x s' o' Hlen).
  - destruct (wr_rep m m_wraps _ _ _ _ Hm) as (f & Hf & _ & Hs).
    unfold open_after. apply orb_true_iff. right.
    apply existsb_exists. now exists f.
Qed.

Lemma countif_no_paren : Forall (fun a => a <> "("%char) countif_word.
Proof. repeat constructor; discriminate. Qed.

(** A [COUNTIf] at the head of the result, with what follows it. *)
Lemma exposed_head (p : option ascii) (s o : str) :
  scans m p s o ->
  startswith countif_word o = true -> open_after (skipn 7 o) = true ->
  startswith countif_word s = true /\ open_after (skipn 7 s) = true
  /\ m p s = None.
Proof.
  intros Hsc H1 H2.
  destruct (scans_copied m countif_word (wraps_cont _ countif_no_paren)
              p s o Hsc H1) as (s' & o' & -> & -> & Hsc' & Hn).
  change 7 with (length countif_word) in H2 |- *.
  rewrite skipn_length_app in H2 |- *.
  rewrite startswith_app.
  split; [reflexivity|].
  split; [exact (open_after_scans _ s' o' Hsc' H2) | apply Hn; discriminate].
Qed.

Lemma wraps_inside (p : option ascii) (s : str) (n : nat) (rep : str)
  (r1 r2 t : str) :
  m p s = Some (n, rep) -> rep = r1 ++ r2 -> r2 <> [] ->
  startswith countif_word (r2 ++ t) = false
  /\ startswith_ci (L "null") (r2 ++ t)
     && startswith countif_word (skipn 4 (r2 ++ t)) = false.
Proof.
  intros Hm Hrep Hr2.
  destruct (wr_rep m m_wraps _ _ _ _ Hm) as (f & Hf & Ef & _).
  pose proof (wrap_ok_fields f Hf) as Hok. rewrite <- Ef in Hok.
  unfold wrap_ok in Hok. apply andb_true_iff in Hok as [Hk1 Hk2].
  rewrite forallb_forall in Hk1, Hk2.
  assert (Hin : In r2 (tails1 rep)) by (rewrite Hrep; now apply tails1_in).
  split.
  - destruct (startswith countif_word (r2 ++ t)) eqn:E; [|reflexivity].
    apply startswith_app_comparable in E. apply Hk1 in Hin.
    rewrite E in Hin. discriminate.
  - apply Hk2 in Hin.
    destruct (startswith_ci (L "null") (r2 ++ t)) eqn:E1; [|reflexivity].
    apply startswith_ci_app_comparable in E1. rewrite E1 in Hin.
    cbn [negb orb] in Hin. apply andb_true_iff in Hin as [Hl Hc].
    apply Nat.leb_le in Hl.
    rewrite skipn_app. replace (4 - length r2) with 0 by lia.
    change (skipn 0 t) with t. cbn [andb].
    destruct (startswith countif_word (skipn 4 r2 ++ t)) eqn:E; [|reflexivity].
    apply startswith_app_comparable in E. rewrite E in Hc. discriminate.
Qed.

Lemma exposed_here_scans (p : option ascii) (s o : str) :
  scans m p s o ->
  forall q, fires exposed_here q o = true ->
            exposed_here q o = true
            \/ fires exposed_here p s = true
            \/ fires exposed_after_null p s = true.
Proof.
  intros Hsc.
  induction Hsc as [p|p c s o Hm Hsc IH|p x rest rep o Hx Hm Hsc IH];
    intros q Hf.
  - discriminate.
  - cbn [fires] in Hf. apply orb_true_iff in Hf as [Hf|Hf]; [now left|].
    right. destruct (IH _ Hf) as [H|[H|H]].
    + left. cbn [fires]. apply orb_true_iff. right.
      unfold exposed_here in H.
      apply andb_true_iff in H as [H H3]. apply andb_true_iff in H as [H1 H2].
      destruct (exposed_head (Some c) s o Hsc H1 H3) as (G1 & G3 & _).
      destruct s as [|c2 s2]; [discriminate G1|].
      cbn [fires]. apply orb_true_iff. left.
      unfold exposed_here. now rewrite G1, H2, G3.
    + left. cbn [fires]. rewrite H. apply orb_true_r.
    + right. cbn [fires]. rewrite H. apply orb_true_r.
  - right.
    apply fires_app in Hf as [(r1 & r2 & Hrep & Hne & Hf)|Hf].
    + exfalso. unfold exposed_here in Hf.
      destruct (wraps_inside _ _ _ _ r1 r2 o Hm Hrep Hne) as [E _].
      rewrite E in Hf. discriminate.
    + destruct (IH _ Hf) as [H|[H|H]].
      * unfold exposed_here in H.
        apply andb_true_iff in H as [H H3].
        apply andb_true_iff in H as [H1 H2].
        destruct (exposed_head _ rest o Hsc H1 H3) as (G1 & G3 & _).
        assert (Hrest : rest <> []) by (intros ->; discriminate G1).
        pose proof (wr_last m m_wraps _ _ _ _ Hm) as Hl.
        rewrite firstn_app, Nat.sub_diag, firstn_all, app_nil_r in Hl.
        destruct Hl as [Hl|(x0 & n4 & -> & Hlen & Hnull)].
        -- left. apply fires_here; [exact Hrest|].
           unfold exposed_here. rewrite G1, G3.
           unfold word_last in Hl.
           rewrite (prev_after_nonempty p None x Hx), Hl. reflexivity.
        -- right. rewrite <- app_assoc.
           apply fires_here; [destruct n4; [discriminate | discriminate]|].
           unfold exposed_after_null.
           destruct (skipn_after_null n4 rest Hlen) as [-> ->].
           rewrite G1, G3.
           rewrite <- (app_nil_r n4) in Hnull.
           rewrite (startswith_ci_prefix (L "null") n4 rest []);
             [now rewrite Hnull | exact Hlen].
      * left. now apply fires_suffix.
      * right. now apply fires_suffix.
Qed.

Lemma null_no_paren : Forall (fun a => lower_char a <> "("%char) (L "null").
Proof. repeat constructor; discriminate. Qed.

Lemma exposed_after_null_scans (p : option ascii) (s o : str) :
  scans m p s o ->
  forall q, fires exposed_after_null q o = true ->
            fires exposed_after_null p s = true.
Proof.
  intros Hsc q Hf.
  destruct (fires_scans exposed_after_null m (fun _ _ => True)) with (p := p)
    (s := s) (o := o) (q := q) as (s1 & s2 & -> & H1 & _); try exact Hsc;
    try exact Hf; try exact I.
  - intros; exact I.
  - intros; exact I.
  - intros p0 s0 o0 q0 Hsc0 _ Ho. unfold exposed_after_null in Ho |- *.
    apply andb_true_iff in Ho as [Ho H3]. apply andb_true_iff in Ho as [H1 H2].
    destruct (scans_copied_ci m (L "null") (wraps_cont_ci _ null_no_paren)
                p0 s0 o0 Hsc0 H1)
      as (x & s' & o' & Hlen & -> & -> & Hsc' & Hn).
    change (length (L "null")) with 4 in Hlen.
    destruct (skipn_after_null x o' Hlen) as [E4 E11].
    rewrite E4 in H2. rewrite E11 in H3.
    destruct (skipn_after_null x s' Hlen) as [-> ->].
    destruct (exposed_head _ s' o' Hsc' H2 H3) as (G1 & G3 & _).
    rewrite G1, G3, (startswith_ci_prefix (L "null") x s' o' Hlen), H1.
    split; [reflexivity | apply Hn; discriminate].
  - intros p0 x rest rep o0 q0 r1 r2 Hm Hrep Hr1 Hr2.
    unfold exposed_after_null.
    destruct (wraps_inside _ _ _ _ r1 r2 o0 Hm Hrep Hr2) as [_ E].
    now rewrite E.
  - apply fires_here; [|exact H1].
    intros ->. discriminate H1.
Qed.

Lemma exposes_scan (s : str) :
  wf_matcher m -> exposes_countif s = false ->
  exposes_countif (re_sub m s) = false.
Proof.
  intros Hwf Hs. unfold exposes_countif in *.
  apply orb_false_iff in Hs as [Hs1 Hs2].
  pose proof (sub_scan_scans m Hwf s None) as Hsc.
  apply orb_false_iff. split.
  - destruct (fires exposed_here None (re_sub m s)) eqn:E; [|reflexivity].
    destruct (exposed_here_scans None s _ Hsc None E) as [H|[H|H]];
      [|congruence|congruence].
    unfold exposed_here in H.
    apply andb_true_iff in H as [H H3]. apply andb_true_iff in H as [H1 H2].
    destruct (exposed_head None s _ Hsc H1 H3) as (G1 & G3 & _).
    destruct s as [|c s]; [discriminate G1|].
    cbn [fires] in Hs1. apply orb_false_iff in Hs1 as [Hs1 _].
    unfold exposed_here in Hs1. rewrite G1, G3 in Hs1. discriminate.
  - destruct (fires exposed_after_null None (re_sub m s)) eqn:E;
      [|reflexivity].
    rewrite (exposed_after_null_scans None s _ Hsc None E) in Hs2.
    discriminate.
Qed.
End Wraps.

(** The patterns of pass 3 wrap. *)
Lemma eats_any_lit_ci (l : str) : eats (fun _ => true) (p_lit_ci l).
Proof. apply eats_lit_ci. reflexivity. Qed.

Lemma eats_any_plus (f : ascii -> bool) : eats (fun _ => true) (p_plus f).
Proof. apply eats_plus. reflexivity. Qed.

Lemma eats_any_star (f : ascii -> bool) : eats (fun _ => true) (p_star f).
Proof. apply eats_star. reflexivity. Qed.

Lemma m_piece_last (A : piece) (l rep : str) (p : option ascii) (s : str)
  (n : nat) (rep' : str) :
  eats (fun _ => true) A ->
  m_piece (A >> p_lit_ci l) rep p s = Some (n, rep') ->
  exists x s1,
    s = x ++ s1 /\ startswith_ci l s1 = true
    /\ firstn n s = x ++ firstn (length l) s1.
Proof.
  intros HA Hm. apply m_piece_inv in Hm as (_ & rest & HP & ->).
  unfold p_seq in HP. destruct (A s) as [s1|] eqn:E1; [|discriminate].
  destruct (HA _ _ E1) as (x & -> & _).
  unfold p_lit_ci in HP.
  destruct (startswith_ci l s1) eqn:E2; [|discriminate].
  assert (Er : rest = skipn (length l) s1)
    by (cbv iota in HP; congruence).
  subst rest. exists x, s1. split; [reflexivity|]. split; [exact E2|].
  pose proof (startswith_ci_shorter l s1 E2) as Hl.
  rewrite length_app, length_skipn.
  replace (length x + length s1 - (length s1 - length l))
    with (length x + length l) by lia.
  rewrite firstn_app.
  replace (length x + length l - length x) with (length l) by lia.
  now rewrite firstn_all2 by lia.
Qed.

Lemma m_piece_first (field : str) (P : piece) (rep : str) (p : option ascii)
  (s : str) (n : nat) (rep' : str) :
  (forall s, p_lit_ci field s = None -> P s = None) ->
  m_piece P rep p s = Some (n, rep') ->
  rep' = rep /\ startswith_ci field s = true.
Proof.
  intros Hfirst Hm. apply m_piece_inv in Hm as (-> & rest & HP & _).
  split; [reflexivity|].
  destruct (startswith_ci field s) eqn:E; [reflexivity|].
  rewrite Hfirst in HP; [discriminate|].
  unfold p_lit_ci. now rewrite E.
Qed.

Lemma null_any_case (s : str) :
  startswith_ci (L "NULL") s = startswith_ci (L "null") s.
Proof. destruct s as [|c1 [|c2 [|c3 [|c4 s]]]]; reflexivity. Qed.

Lemma quote_any_case (c : ascii) :
  Ascii.eqb (lower_char "'") (lower_char c) = true -> c = "'"%char.
Proof. each_char c. Qed.

Lemma word_last_app (a b : str) : b <> [] -> word_last (a ++ b) = word_last b.
Proof.
  intros Hb. unfold word_last. rewrite prev_after_app.
  now rewrite (prev_after_nonempty (prev_after None a) None b Hb).
Qed.

Lemma two_quotes (s : str) :
  startswith_ci (L "''") s = true ->
  exists s', s = "'"%char :: "'"%char :: s'.
Proof.
  destruct s as [|c1 s]; [discriminate|].
  destruct s as [|c2 s]; simpl; intros H;
    [rewrite andb_false_r in H; discriminate|].
  apply andb_true_iff in H as [H1 H]. apply andb_true_iff in H as [H2 _].
  apply quote_any_case in H1, H2. subst. eauto.
Qed.

Lemma wraps_is_null (field : str) :
  In field tested_fields -> wraps (m_is_null field).
Proof.
  intros Hf. constructor.
  - intros p s n rep Hm. exists field. unfold m_is_null in Hm.
    match type of Hm with
    | m_piece ?P ?r _ _ = _ =>
        assert (Hfirst : forall s, p_lit_ci field s = None -> P s = None)
          by (repeat apply seq_fails_first; trivial);
        destruct (m_piece_first field P r p s n rep Hfirst Hm) as [-> Hs]
    end.
    now repeat split.
  - intros p s n rep Hm. right. unfold m_is_null in Hm.
    match type of Hm with
    | m_piece (?A >> p_lit_ci ?l) ?r _ _ = _ =>
        assert (HA : eats (fun _ => true) A)
          by (repeat apply eats_seq;
              first [apply eats_any_lit_ci | apply eats_any_plus]);
        destruct (m_piece_last A l r p s n rep HA Hm)
          as (x & s1 & -> & Hs & Hn)
    end.
    exists x, (firstn 4 s1). split; [exact Hn|].
    pose proof (startswith_ci_shorter _ _ Hs) as Hl.
    change (length (L "NULL")) with 4 in Hl.
    split; [rewrite length_firstn; lia|].
    rewrite null_any_case in Hs.
    rewrite <- (firstn_skipn 4 s1) in Hs.
    rewrite <- (app_nil_r (firstn 4 s1)).
    rewrite (startswith_ci_prefix (L "null") (firstn 4 s1) [] (skipn 4 s1));
      [exact Hs | rewrite length_firstn; change (length (L "null")) with 4; lia].
Qed.

Lemma wraps_eq_empty (field : str) :
  In field tested_fields -> wraps (m_eq_empty field).
Proof.
  intros Hf. constructor.
  - intros p s n rep Hm. exists field. unfold m_eq_empty in Hm.
    match type of Hm with
    | m_piece ?P ?r _ _ = _ =>
        assert (Hfirst : forall s, p_lit_ci field s = None -> P s = None)
          by (repeat apply seq_fails_first; trivial);
        destruct (m_piece_first field P r p s n rep Hfirst Hm) as [-> Hs]
    end.
    now repeat split.
  - intros p s n rep Hm. left. unfold m_eq_empty in Hm.
    match type of Hm with
    | m_piece (?A >> p_lit_ci ?l) ?r _ _ = _ =>
        assert (HA : eats (fun _ => true) A)
          by (repeat apply eats_seq;
              first [apply eats_any_lit_ci | apply eats_any_star]);
        destruct (m_piece_last A l r p s n rep HA Hm)
          as (x & s1 & -> & Hs & Hn)
    end.
    rewrite Hn. destruct (two_quotes s1 Hs) as (s' & ->).
    change (firstn (length (L "''")) ("'"%char :: "'"%char :: s'))
      with (L "''").
    now rewrite word_last_app.
Qed.

(** Pass 3 exposes no [COUNTIf] where none is exposed. *)
Lemma keepsX_sub (m : matcher) :
  wf_matcher m -> wraps m -> keepsX (re_sub m).
Proof. intros Hwf Hw s Hs. now apply exposes_scan. Qed.

Lemma tested_field_nonempty (field : str) :
  In field tested_fields -> field <> [].
Proof.
  intros H. simpl in H.
  repeat (destruct H as [<-|H]; [discriminate|]). contradiction.
Qed.

Lemma fix_field_keepsX (question_lower field : str) :
  In field nullable_fields ->
  keepsX (fun s => fix_field question_lower s field).
Proof.
  intros Hin s Hs. unfold fix_field.
  destruct (contains field question_lower); [|exact Hs].
  assert (Hf : In field tested_fields) by now right.
  apply keepsX_sub;
    [apply m_eq_empty_wf, tested_field_nonempty, Hf
    | now apply wraps_eq_empty |].
  apply keepsX_sub;
    [apply m_is_null_wf, tested_field_nonempty, Hf
    | now apply wraps_is_null | exact Hs].
Qed.

Lemma fold_fix_field_keepsX (question_lower : str) (fields : list str) :
  (forall f, In f fields -> In f nullable_fields) ->
  keepsX (fun s => fold_left (fix_field question_lower) fields s).
Proof.
  induction fields as [|f fields IH]; intros Hin s Hs; [exact Hs|].
  simpl. apply IH; [intros g Hg; apply Hin; now right|].
  apply (fix_field_keepsX question_lower f); [apply Hin; now left | exact Hs].
Qed.

Lemma fix_comp_manually_keepsX (question_lower : str) :
  keepsX (fix_comp_manually question_lower).
Proof.
  intros s Hs. unfold fix_comp_manually.
  assert (Hf : In (L "comp_manually") tested_fields) by now left.
  destruct (contains (L "comp_manually") question_lower); [|exact Hs].
  destruct (contains (L "null") question_lower).
  - apply keepsX_sub;
      [apply m_is_null_wf; discriminate | now apply wraps_is_null | exact Hs].
  - destruct (contains (L "empty") question_lower); [|exact Hs].
    apply keepsX_sub;
      [apply m_eq_empty_wf; discriminate | now apply wraps_eq_empty | exact Hs].
Qed.

Lemma fix_null_empty_handling_keepsX (user_question : str) :
  keepsX (fun s => _fix_null_empty_handling s user_question).
Proof.
  intros s Hs. unfold _fix_null_empty_handling.
  destruct (contains (L "null") (lower user_question)
            || contains (L "empty") (lower user_question)); [|exact Hs].
  apply (fold_fix_field_keepsX _ nullable_fields (fun _ H => H)).
  now apply fix_comp_manually_keepsX.
Qed.

Lemma fires_weaker (r r' : option ascii -> str -> bool) :
  (forall p s, r p s = true -> r' p s = true) ->
  forall s p, fires r p s = true -> fires r' p s = true.
Proof.
  intros H s. induction s as [|c s IH]; intros p Hf; [discriminate|].
  simpl in Hf |- *. apply orb_true_iff in Hf as [Hf|Hf].
  - now rewrite (H _ _ Hf).
  - rewrite (IH _ Hf). apply orb_true_r.
Qed.

Lemma unexposed_free (s : str) :
  exposes_countif s = false -> countif_free None s.
Proof.
  intros H. unfold exposes_countif in H.
  apply orb_false_iff in H as [H _]. unfold countif_free.
  destruct (fires countif_here None s) eqn:E; [|reflexivity].
  rewrite (fires_weaker countif_here exposed_here) with (s := s) (p := None)
    in H; [discriminate | | exact E].
  intros p t Ht. unfold countif_here, word_here in Ht.
  apply andb_true_iff in Ht as [Ht H3]. apply andb_true_iff in Ht as [H1 H2].
  unfold exposed_here, open_after. rewrite H1, H2.
  change (length countif_word) with 7 in H3. now rewrite H3.
Qed.

(** After the whole pipeline no [COUNTIf] is a whole word, when passes 1
    and 2 leave none exposed. *)
Lemma repair_countif_free_unexposed (sql_query user_question : str) :
  exposes_countif (_fix_sql_functions (_fix_facility_id_format sql_query))
  = false ->
  countif_free None (repair sql_query user_question).
Proof.
  intros H. unfold repair.
  apply (proj2 (enhance_date_queries_keeps user_question)).
  now apply unexposed_free, fix_null_empty_handling_keepsX.
Qed.

(** A text that a rewrite cannot make appear: its replacements hold none of
    its characters. *)
Section Absent.
Variable m : matcher.
Variable w : str.
Hypothesis w_nonempty : w <> [].
Hypothesis rep_avoids :
  forall p s n rep, m p s = Some (n, rep) -> rep <> [] /\ avoids w rep = true.

Lemma avoids_head (c : ascii) (rep : str) :
  avoids w (c :: rep) = true -> ~ In c w.
Proof.
  unfold avoids. simpl. intros H Hin.
  apply andb_true_iff in H as [H _]. apply negb_true_iff in H.
  assert (E : existsb (Ascii.eqb c) w = true)
    by (apply existsb_exists; exists c; split;
        [exact Hin | apply Ascii.eqb_refl]).
  congruence.
Qed.

Lemma scans_startswith_absent (w' : str) :
  (forall c, In c w' -> In c w) ->
  forall p s o, scans m p s o ->
                startswith w' o = true -> startswith w' s = true.
Proof.
  induction w' as [|a w' IH]; intros Hw p s o Hsc Ho; [reflexivity|].
  destruct Hsc as [p|p c s o Hm Hsc|p x rest rep o Hx Hm Hsc].
  - discriminate.
  - simpl in Ho |- *. apply andb_true_iff in Ho as [-> Ho]. simpl.
    apply (IH (fun c H => Hw c (or_intror H)) (Some c) s o Hsc Ho).
  - destruct (rep_avoids _ _ _ _ Hm) as [Hne Hav].
    destruct rep as [|r rep]; [congruence|]. simpl in Ho.
    apply andb_true_iff in Ho as [Ho _]. apply Ascii.eqb_eq in Ho. subst r.
    exfalso. apply (avoids_head a rep Hav). apply Hw. now left.
Qed.

Lemma contains_avoided (rep o : str) :
  avoids w rep = true -> contains w (rep ++ o) = true -> contains w o = true.
Proof.
  induction rep as [|r rep IH]; intros Hav H; [exact H|].
  pose proof (avoids_head r rep Hav) as Hr.
  change ((r :: rep) ++ o) with (r :: (rep ++ o)) in H.
  cbn [contains] in H. apply orb_true_iff in H as [H|H].
  - destruct w as [|a w0]; [congruence|]. simpl in H.
    apply andb_true_iff in H as [H _]. apply Ascii.eqb_eq in H. subst r.
    exfalso. apply Hr. now left.
  - apply IH; [|exact H]. unfold avoids in *. simpl in Hav.
    now apply andb_true_iff in Hav as [_ Hav].
Qed.

Lemma contains_scans (p : option ascii) (s o : str) :
  scans m p s o -> contains w o = true -> contains w s = true.
Proof.
  intros Hsc. induction Hsc as [p|p c s o Hm Hsc IH|p x rest rep o Hx Hm Hsc IH];
    intros Ho.
  - exact Ho.
  - cbn [contains] in Ho. apply orb_true_iff in Ho as [Ho|Ho].
    + apply contains_here.
      apply (scans_startswith_absent w (fun _ H => H) p (c :: s) (c :: o)
               (scans_copy m p c s o Hm Hsc) Ho).
    + cbn [contains]. rewrite (IH Ho). apply orb_true_r.
  - destruct (rep_avoids _ _ _ _ Hm) as [_ Hav].
    apply contains_app_r, IH. now apply (contains_avoided rep o).
Qed.

Lemma absent_sub (s : str) :
  wf_matcher m -> contains w s = false -> contains w (re_sub m s) = false.
Proof.
  intros Hwf Hs. destruct (contains w (re_sub m s)) eqn:E; [|reflexivity].
  rewrite (contains_scans None s (re_sub m s) (sub_scan_scans m Hwf s None) E)
    in Hs.
  discriminate.
Qed.
End Absent.

Lemma avoids_app (w a b : str) :
  avoids w (a ++ b) = avoids w a && avoids w b.
Proof. apply forallb_app. Qed.


(* ===================================================================== *)
(** ** The properties of the repair pipeline                              *)
(* ===================================================================== *)

Lemma acc_dig_digit (ws post : str) (d : ascii) :
  forallb isspace ws = true -> isdecimal d = true ->
  acc_dig (ws ++ d :: post) = true.
Proof.
  intros Hws Hd. induction ws as [|c ws IH]; simpl in *.
  - now rewrite (digit_not_space d Hd).
  - apply andb_true_iff in Hws as [-> Hws]. now apply IH.
Qed.

Lemma acc_eq_eq (ws r : str) :
  forallb isspace ws = true -> acc_eq (ws ++ L "=" ++ r) = acc_dig r.
Proof.
  intros Hws. induction ws as [|c ws IH]; simpl in *; [reflexivity|].
  apply andb_true_iff in Hws as [-> Hws]. now apply IH.
Qed.

Lemma acc_lit_name (l name r : str) :
  lower name = lower l -> acc_lit l (name ++ r) = acc_eq r.
Proof.
  revert name; induction l as [|a l IH]; intros [|c name] H;
    simpl in H; try discriminate; [reflexivity|].
  injection H as Hc Hl. simpl. rewrite Hc, Ascii.eqb_refl. now apply IH.
Qed.

Lemma bare_facility_fires (s : str) :
  bare_facility_comparison s -> fires facility_here None s = true.
Proof.
  intros (pre & name & ws1 & ws2 & d & post & -> & Hn & H1 & H2 & Hd).
  apply fires_here; [destruct name; [discriminate Hn | discriminate]|].
  unfold facility_here.
  rewrite (acc_lit_name (L "facility_id") name _ Hn).
  rewrite (acc_eq_eq ws1 _ H1). now apply acc_dig_digit.
Qed.

Lemma acc_dig_inv (s : str) :
  acc_dig s = true ->
  exists ws d post,
    s = ws ++ d :: post /\ forallb isspace ws = true /\ isdecimal d = true.
Proof.
  induction s as [|c s IH]; simpl; [discriminate|].
  destruct (isspace c) eqn:Hc.
  - intros H. destruct (IH H) as (ws & d & post & -> & Hws & Hd).
    exists (c :: ws), d, post. simpl. now rewrite Hc.
  - intros H. now exists [], c, s.
Qed.

Lemma acc_eq_inv (s : str) :
  acc_eq s = true ->
  exists ws r, s = ws ++ L "=" ++ r /\ forallb isspace ws = true
               /\ acc_dig r = true.
Proof.
  induction s as [|c s IH]; simpl; [discriminate|].
  destruct (isspace c) eqn:Hc.
  - intros H. destruct (IH H) as (ws & r & -> & Hws & Hr).
    exists (c :: ws), r. simpl. now rewrite Hc.
  - destruct (Ascii.eqb c "=") eqn:E; [|discriminate].
    apply Ascii.eqb_eq in E. subst c. intros H. now exists [], s.
Qed.

Lemma acc_lit_inv (l s : str) :
  acc_lit l s = true ->
  exists name r, s = name ++ r /\ lower name = lower l /\ acc_eq r = true.
Proof.
  revert s; induction l as [|a l IH]; intros s H.
  - now exists [], s.
  - destruct s as [|c s]; [discriminate|]. simpl in H.
    apply andb_true_iff in H as [Hc H]. apply Ascii.eqb_eq in Hc.
    destruct (IH s H) as (name & r & -> & Hn & Hr).
    exists (c :: name), r. simpl. now rewrite Hn, Hc.
Qed.

Lemma fires_bare_facility (s : str) :
  fires facility_here None s = true -> bare_facility_comparison s.
Proof.
  intros H. apply fires_inv in H as (pre & s2 & -> & H).
  apply acc_lit_inv in H as (name & r & -> & Hn & H).
  apply acc_eq_inv in H as (ws1 & r2 & -> & H1 & H).
  apply acc_dig_inv in H as (ws2 & d & post & -> & H2 & Hd).
  now exists pre, name, ws1, ws2, d, post.
Qed.

(** C1, as the code has it.  Pass 1 rewrites every comparison of the
    facility column with a bare integer: where the text has the column name
    (in any case), optional blanks, [=], optional blanks and the numeral of
    an [N] between 1 and 9999 that no further digit follows, the result has
    [facility_id = 'dddd'] with [dddd] the numeral padded with zeros to four
    characters, and the text before and the text after are rewritten on
    their own.  After the whole pipeline no comparison with a bare integer
    is left: no later pass brings one back.  And the padded comparison
    itself is still in the result of the pipeline, unless the comparison
    stands inside the stretch that the average-duration pattern of pass 2
    reads between [round(AVG(dateDiff(] and
    [))/60.0, 2) AS avg_time_minutes]: the text before it holds that
    opening with no closing parenthesis after it, and the text after it
    goes on with that closing before any other closing parenthesis.  Then
    pass 2 replaces the whole expression, the comparison with it. *)
Theorem repair_pads_facility_id (pre name ws1 ws2 post : str) (N : Z)
  (user_question : str) :
  lower name = L "facility_id" ->
  forallb isspace ws1 = true ->
  forallb isspace ws2 = true ->
  (1 <= N <= 9999)%Z ->
  no_digit_at post = true ->
  let sql_query :=
    pre ++ name ++ ws1 ++ L "=" ++ ws2 ++ str_of_int N ++ post in
  _fix_facility_id_format sql_query
  = _fix_facility_id_format pre
    ++ L "facility_id = '" ++ zfill4 (str_of_int N) ++ L "'"
    ++ _fix_facility_id_format post
  /\ length (zfill4 (str_of_int N)) = 4
  /\ zfill4 (str_of_int N)
     = repeat "0"%char (4 - length (str_of_int N)) ++ str_of_int N
  /\ ~ bare_facility_comparison (repair sql_query user_question)
  /\ (inside_avg_time pre post = false ->
      exists a b,
        repair sql_query user_question
        = a ++ L "facility_id = '" ++ zfill4 (str_of_int N) ++ L "'" ++ b).
Proof.
  intros Hname H1 H2 HN Hpost sql_query.
  destruct (fix_facility_id_format_pads pre name ws1 ws2 post N
              Hname H1 H2 HN Hpost) as (Ha & Hb & Hc).
  repeat split; try assumption.
  - intros H. apply bare_facility_fires in H.
    rewrite (repair_facility_free sql_query user_question) in H. discriminate.
  - intros Hout.
    destruct (repair_keeps_padded pre name ws1 ws2 post N user_question
                Hname H1 H2 HN Hpost Hout) as (a & b & E).
    exists a, b. fold sql_query in E. rewrite E. unfold padded, padded_prefix.
    now rewrite <- !app_assoc.
Qed.

Lemma repair_pads_facility_id_witness :
  _fix_facility_id_format
    (L "SELECT round(AVG(dateDiff('second', scheduled_time, completed_time))/60.0, 2) AS avg_time_minutes FROM fact_porter_request WHERE "
     ++ L "Facility_ID" ++ L " " ++ L "=" ++ [] ++ str_of_int 184
     ++ L " AND priority = 1")
  = L "SELECT round(AVG(dateDiff('second', scheduled_time, completed_time))/60.0, 2) AS avg_time_minutes FROM fact_porter_request WHERE facility_id = '0184' AND priority = 1"
  /\ exists a b,
       repair
         (L "SELECT round(AVG(dateDiff('second', scheduled_time, completed_time))/60.0, 2) AS avg_time_minutes FROM fact_porter_request WHERE "
          ++ L "Facility_ID" ++ L " " ++ L "=" ++ [] ++ str_of_int 184
          ++ L " AND priority = 1")
         (L "Average time on May 31 for facility 184")
       = a ++ L "facility_id = '0184'" ++ b.
Proof.
  destruct (repair_pads_facility_id
              (L "SELECT round(AVG(dateDiff('second', scheduled_time, completed_time))/60.0, 2) AS avg_time_minutes FROM fact_porter_request WHERE ")
              (L "Facility_ID") (L " ") [] (L " AND priority = 1") 184%Z
              (L "Average time on May 31 for facility 184"))
    as (H & _ & _ & _ & K);
    [reflexivity | reflexivity | reflexivity | lia | reflexivity |].
  split; [refine (eq_trans H _); vm_compute; reflexivity|].
  destruct K as (a & b & K); [vm_compute; reflexivity|].
  exists a, b. exact K.
Defined.

(** C1 as stated fails: the average-duration repair of pass 2 replaces the
    whole [dateDiff( ... )] expression, and with it the comparison that
    pass 1 had padded. *)
Lemma repair_overwrites_padded_comparison :
  let sql_query :=
    L "SELECT round(AVG(dateDiff('second', scheduled_time, completed_time, facility_id = 7))/60.0, 2) AS avg_time_minutes FROM fact_porter_request" in
  contains (L "facility_id = 7") sql_query = true
  /\ contains (L "facility_id = '0007'") (_fix_facility_id_format sql_query)
     = true
  /\ repair sql_query (L "Average time for facility 7")
     = L "SELECT round(AVG(dateDiff('second', scheduled_time, completed_time))/60.0, 2) AS avg_time_minutes FROM fact_porter_request"
  /\ contains (L "facility_id = '0007'")
       (repair sql_query (L "Average time for facility 7")) = false.
Proof. vm_compute. repeat split; reflexivity. Qed.

(** In that query the comparison stands inside the stretch the pattern
    reads. *)
Lemma overwritten_comparison_is_inside :
  inside_avg_time
    (L "SELECT round(AVG(dateDiff('second', scheduled_time, completed_time, ")
    (L "))/60.0, 2) AS avg_time_minutes FROM fact_porter_request") = true.
Proof. vm_compute. reflexivity. Qed.

(** The casing rewrite on one whole-word occurrence. *)
Lemma startswith_words_inside (w x y : str) :
  forallb isword w = true -> x <> [] -> word_last x = false ->
  startswith w (x ++ y) = true ->
  length w < length x /\ startswith w x = true.
Proof.
  revert x; induction w as [|a w IH]; intros x Hw Hx Hl H.
  - destruct x; [congruence | simpl; split; [lia | reflexivity]].
  - destruct x as [|c x]; [congruence|]. simpl in Hw, H.
    apply andb_true_iff in Hw as [Ha Hw]. apply andb_true_iff in H as [Hc H].
    apply Ascii.eqb_eq in Hc. subst c.
    destruct x as [|d x].
    + unfold word_last in Hl. simpl in Hl. congruence.
    + change (a :: d :: x) with ([a] ++ d :: x) in Hl.
      rewrite (word_last_app [a] (d :: x)) in Hl by discriminate.
      destruct (IH (d :: x) Hw ltac:(discriminate) Hl H) as [I1 I2].
      split; [simpl in *; lia|].
      simpl. rewrite Ascii.eqb_refl. exact I2.
Qed.

Lemma m_countif_stable (p : option ascii) (x y : str) :
  x <> [] -> word_last x = false -> m_countif p (x ++ y) = m_countif p x.
Proof.
  intros Hx Hl. rewrite !m_countif_here. unfold countif_here, word_here.
  destruct (startswith countif_word (x ++ y)) eqn:E.
  - destruct (startswith_words_inside countif_word x y eq_refl Hx Hl E)
      as [Hlen Hs].
    rewrite Hs, skipn_app.
    replace (length countif_word - length x) with 0 by lia.
    change (skipn 0 y) with y.
    rewrite word_at_app; [reflexivity|].
    intros E0. apply (f_equal (@length ascii)) in E0.
    rewrite length_skipn in E0. change (@length ascii []) with 0 in E0. lia.
  - destruct (startswith countif_word x) eqn:E2; [|reflexivity].
    rewrite (startswith_app_l _ x y E2) in E. discriminate.
Qed.

Lemma sub_scan_countif_prev (post : str) (p q : option ascii) :
  word_at post = false ->
  sub_scan m_countif 0 p post = sub_scan m_countif 0 q post.
Proof.
  destruct post as [|c post]; [reflexivity|]. simpl word_at. intros Hc.
  assert (H : forall r, m_countif r (c :: post) = None).
  { intros r. rewrite m_countif_here. unfold countif_here, word_here.
    destruct (startswith countif_word (c :: post)) eqn:E; [|reflexivity].
    simpl in E. apply andb_true_iff in E as [E _].
    apply Ascii.eqb_eq in E. subst c. discriminate Hc. }
  now rewrite (sub_scan_copy m_countif p c post (H p)),
              (sub_scan_copy m_countif q c post (H q)).
Qed.

Lemma fix_countif_occurrence (pre post : str) :
  word_last pre = false -> word_at post = false ->
  fix_countif (pre ++ countif_word ++ post)
  = fix_countif pre ++ L "countIf" ++ fix_countif post.
Proof.
  intros Hl Hr. unfold fix_countif, re_sub.
  rewrite (sub_scan_app_stop m_countif (fun x => word_last x = false)
             (fun _ => true) m_countif_wf
             (fun a b H Hb => eq_trans (eq_sym (word_last_app a b Hb)) H)
             (fun p x y Hx Hg _ => m_countif_stable p x y Hx Hg)
             pre (countif_word ++ post) eq_refl);
    [| destruct pre; [now left | now right]].
  f_equal.
  assert (Hm : m_countif (prev_after None pre) (countif_word ++ post)
               = Some (length countif_word, L "countIf")).
  { rewrite m_countif_here. unfold countif_here, word_here.
    rewrite startswith_app, skipn_length_app, Hr.
    unfold word_last in Hl. now rewrite Hl. }
  rewrite (sub_scan_match m_countif _ countif_word post (L "countIf")
             ltac:(discriminate) Hm).
  f_equal. now apply sub_scan_countif_prev.
Qed.

Lemma countif_free_no_occurrence (s : str) :
  countif_free None s -> ~ whole_word_occurrence countif_word s.
Proof.
  intros H Ho. apply (whole_word_fires countif_word s) in Ho; [|discriminate].
  unfold countif_free, countif_here in H. congruence.
Qed.

(** The casing rewrite on an occurrence that is no whole word: it stays
    where it is. *)
Lemma startswith_app_tail (w u z : str) :
  u <> [] -> startswith w (u ++ z) = true ->
  startswith w u = true
  \/ exists w2, In w2 (tails1 (tl w)) /\ startswith w2 z = true.
Proof.
  intros Hu H. destruct u as [|c u]; [congruence|].
  destruct w as [|a w]; [now left|].
  simpl in H. apply andb_true_iff in H as [Hac H].
  destruct (startswith_app_cases w u z H) as [H1|H1].
  - left. simpl. now rewrite Hac, H1.
  - now right.
Qed.

Lemma scans_length (m : matcher) (p : option ascii) (s o : str) :
  (forall p s n rep, m p s = Some (n, rep) -> length rep = n) ->
  scans m p s o -> length o = length s.
Proof.
  intros Hlen Hsc.
  induction Hsc as [p|p c s o Hm Hsc IH|p x rest rep o Hx Hm Hsc IH].
  - reflexivity.
  - simpl. now rewrite IH.
  - rewrite !length_app, IH. now rewrite (Hlen _ _ _ _ Hm).
Qed.

Lemma fix_countif_glued (pre post : str) :
  word_last pre = true \/ word_at post = true ->
  exists a b,
    fix_countif (pre ++ countif_word ++ post) = a ++ countif_word ++ b
    /\ length a = length pre.
Proof.
  intros Hglue. unfold fix_countif, re_sub.
  assert (Hover : forallb (fun w2 => negb (comparable w2 countif_word))
                    (tails1 (tl countif_word)) = true) by by_check.
  rewrite forallb_forall in Hover.
  destruct (sub_scan_before m_countif m_countif_wf (countif_word ++ post) pre)
    with (p := @None ascii) as (oa & Hoa & Hsc).
  { intros a1 a2 p n rep _ Ha2 Hm.
    apply m_countif_inv in Hm as (-> & _ & Hs).
    destruct (startswith_app_tail _ a2 _ Ha2 Hs) as [H|(w2 & Hw2 & H)].
    - apply startswith_shorter in H. exact H.
    - apply startswith_app_comparable in H. apply Hover in Hw2.
      rewrite H in Hw2. discriminate. }
  assert (Hm : m_countif (prev_after None pre) (countif_word ++ post) = None).
  { rewrite m_countif_here. unfold countif_here, word_here.
    rewrite startswith_app, skipn_length_app.
    fold (word_last pre).
    destruct Hglue as [-> | ->]; [reflexivity|].
    now rewrite andb_false_r. }
  rewrite Hoa.
  change (countif_word ++ post) with ("C"%char :: L "OUNTIf" ++ post)
    in Hm |- *.
  rewrite (sub_scan_copy m_countif _ _ _ Hm).
  rewrite (sub_scan_through m_countif (L "OUNTIf") post).
  - exists oa, (sub_scan m_countif 0 (prev_after (Some "C"%char) (L "OUNTIf"))
                  post).
    split; [reflexivity|].
    apply (scans_length (ahead m_countif (countif_word ++ post)) None pre oa);
      [|exact Hsc].
    intros p s n rep H. unfold ahead in H.
    now apply m_countif_inv in H as (-> & -> & _).
  - intros t1 t2 p Ht Hne.
    assert (Hin : In t2 (tails1 (L "OUNTIf")))
      by (rewrite Ht; now apply tails1_in).
    simpl in Hin.
    repeat (destruct Hin as [<-|Hin]; [apply m_countif_head; discriminate|]).
    contradiction.
Qed.

(** C6, as the code has it.  The casing rewrite of pass 2 turns every
    whole-word [COUNTIf] into [countIf], the text around it being rewritten
    on its own, and leaves a [COUNTIf] inside a longer identifier where it
    is.  After it, and after the whole of pass 2, the query has no
    whole-word occurrence of [COUNTIf].  After the whole pipeline it has
    none either, when pass 3 does nothing (the question mentions neither
    "null" nor "empty") or when the text that pass 3 receives has no
    [COUNTIf] that it could expose: one that no word character precedes, or
    that follows [NULL], and that the name of a tested field follows, or no
    word character. *)
Theorem countif_casing_repaired (sql_query user_question pre post : str) :
  (word_last pre = false -> word_at post = false ->
   fix_countif (pre ++ countif_word ++ post)
   = fix_countif pre ++ L "countIf" ++ fix_countif post)
  /\ (word_last pre = true \/ word_at post = true ->
      exists a b,
        fix_countif (pre ++ countif_word ++ post) = a ++ countif_word ++ b
        /\ length a = length pre)
  /\ ~ whole_word_occurrence countif_word (fix_countif sql_query)
  /\ ~ whole_word_occurrence countif_word (_fix_sql_functions sql_query)
  /\ ((contains (L "null") (lower user_question) = false
       /\ contains (L "empty") (lower user_question) = false)
      \/ exposes_countif
           (_fix_sql_functions (_fix_facility_id_format sql_query)) = false ->
      ~ whole_word_occurrence countif_word (repair sql_query user_question)).
Proof.
  split; [apply fix_countif_occurrence|].
  split; [apply fix_countif_glued|].
  split; [apply countif_free_no_occurrence, fix_countif_free|].
  split; [apply countif_free_no_occurrence, (proj2 (fix_sql_functions_free _))|].
  intros [[H1 H2]|H]; apply countif_free_no_occurrence.
  - now apply repair_countif_free.
  - now apply repair_countif_free_unexposed.
Qed.

Lemma countif_casing_repaired_witness :
  fix_countif (L "SELECT " ++ countif_word ++ L "(comments IS NULL) FROM t")
  = L "SELECT countIf(comments IS NULL) FROM t"
  /\ (exists a b,
        fix_countif (L "SELECT " ++ countif_word ++ L "_total FROM t")
        = a ++ countif_word ++ b /\ length a = 7)
  /\ ~ whole_word_occurrence countif_word
         (repair (L "SELECT COUNTIf(comments IS NULL) FROM t")
                 (L "How many requests have null comments")).
Proof.
  destruct (countif_casing_repaired
              (L "SELECT COUNTIf(comments IS NULL) FROM t")
              (L "How many requests have null comments")
              (L "SELECT ") (L "(comments IS NULL) FROM t"))
    as (H1 & _ & _ & _ & H5).
  destruct (countif_casing_repaired [] [] (L "SELECT ") (L "_total FROM t"))
    as (_ & H2 & _).
  split; [rewrite H1; reflexivity|].
  split; [apply H2; right; reflexivity|].
  apply H5. right. vm_compute. reflexivity.
Defined.

(** C6 as stated fails: the null/empty pass wraps [comments IS NULL] in
    parentheses, which makes the [COUNTIf] glued to it a whole word, after
    the casing rewrite has run. *)
Lemma repair_leaves_whole_word_countif :
  let sql_query :=
    L "SELECT COUNTIf(priority = 1) AS urgent, COUNTIfcomments IS NULL AS bare FROM fact_porter_request" in
  whole_word_occurrence countif_word sql_query
  /\ repair sql_query (L "How many requests have null comments")
     = L "SELECT countIf(priority = 1) AS urgent, COUNTIf(comments IS NULL OR (comments IS NULL OR comments = '')) AS bare FROM fact_porter_request"
  /\ whole_word_occurrence countif_word
       (repair sql_query (L "How many requests have null comments")).
Proof.
  cbv zeta. split; [|split].
  - apply (whole_word_fires countif_word); [discriminate | by_check].
  - by_check.
  - apply (whole_word_fires countif_word); [discriminate | by_check].
Qed.

(** The two ways pass 3 exposes a [COUNTIf]: the name of the field it
    rewrites follows the [COUNTIf], or the [NULL] it rewrites precedes it.
    Both texts are exposed in the sense of [exposes_countif], and in both
    the result of the pipeline has a whole-word [COUNTIf]. *)
Lemma exposed_countif_becomes_whole_word :
  let glued_before :=
    L "SELECT COUNTIfcomments IS NULL AS bare FROM fact_porter_request" in
  let glued_after :=
    L "SELECT x FROM fact_porter_request WHERE comments IS NULLCOUNTIf(1)" in
  let user_question := L "How many requests have null comments" in
  exposes_countif
    (_fix_sql_functions (_fix_facility_id_format glued_before)) = true
  /\ whole_word_occurrence countif_word (repair glued_before user_question)
  /\ exposes_countif
       (_fix_sql_functions (_fix_facility_id_format glued_after)) = true
  /\ whole_word_occurrence countif_word (repair glued_after user_question).
Proof.
  cbv zeta. split; [by_check|]. split.
  - apply (whole_word_fires countif_word); [discriminate | by_check].
  - split; [by_check|].
    apply (whole_word_fires countif_word); [discriminate | by_check].
Qed.




(* ===================================================================== *)
(** ** Further properties of the repair passes                            *)
(* ===================================================================== *)

(** [zfill(4)] pads to four characters and never cuts. *)
Lemma zfill4_length (ds : str) : length (zfill4 ds) = Nat.max 4 (length ds).
Proof. unfold zfill4. rewrite length_app, repeat_length. lia. Qed.

Lemma zfill4_long (ds : str) : 4 <= length ds -> zfill4 ds = ds.
Proof.
  intros H. unfold zfill4.
  replace (4 - length ds) with 0 by lia. reflexivity.
Qed.

Lemma fix_facility_id_format_digits (pre name ws1 ws2 ds post : str) :
  lower name = L "facility_id" ->
  forallb isspace ws1 = true ->
  forallb isspace ws2 = true ->
  forallb isdecimal ds = true -> ds <> [] ->
  no_digit_at post = true ->
  _fix_facility_id_format (pre ++ name ++ ws1 ++ L "=" ++ ws2 ++ ds ++ post)
  = _fix_facility_id_format pre
    ++ L "facility_id = '" ++ zfill4 ds ++ L "'"
    ++ _fix_facility_id_format post.
Proof.
  intros Hname H1 H2 Hd Hne Hpost.
  unfold _fix_facility_id_format, re_sub.
  set (occ := name ++ ws1 ++ L "=" ++ ws2 ++ ds).
  replace (pre ++ name ++ ws1 ++ L "=" ++ ws2 ++ ds ++ post)
    with (pre ++ (occ ++ post))
    by (unfold occ; now rewrite <- !app_assoc).
  rewrite (sub_scan_app_stop m_facility_id (fun _ => True) fstop
             m_facility_id_wf (fun _ _ _ _ => I)
             (fun p x y Hx _ Hy => m_facility_id_stable p x y Hx Hy)
             pre (occ ++ post));
    [| unfold occ; rewrite <- app_assoc; now apply fstop_name
     | destruct pre; [now left | now right]].
  f_equal.
  assert (Hocc : occ <> []).
  { unfold occ. destruct name; [discriminate Hname | discriminate]. }
  rewrite (sub_scan_match m_facility_id _ occ post
             (replace_facility_id ds) Hocc
             (m_facility_id_occurrence _ name ws1 ws2 ds post
                Hname H1 H2 Hd Hne Hpost)).
  unfold replace_facility_id. rewrite <- !app_assoc. do 3 f_equal.
  apply sub_scan_facility_prev.
Qed.

(** X1.  Pass 1 on any run of digits, not only the numerals of 1..9999: the
    run is quoted and padded with zeros on the left to four characters; a
    run of four digits or more is quoted as it is, never cut; zeros that
    lead the run are kept. *)
Theorem facility_id_digits_quoted (pre name ws1 ws2 ds post : str) :
  lower name = L "facility_id" ->
  forallb isspace ws1 = true ->
  forallb isspace ws2 = true ->
  forallb isdecimal ds = true -> ds <> [] ->
  no_digit_at post = true ->
  _fix_facility_id_format (pre ++ name ++ ws1 ++ L "=" ++ ws2 ++ ds ++ post)
  = _fix_facility_id_format pre
    ++ L "facility_id = '" ++ zfill4 ds ++ L "'"
    ++ _fix_facility_id_format post
  /\ length (zfill4 ds) = Nat.max 4 (length ds)
  /\ zfill4 ds = repeat "0"%char (4 - length ds) ++ ds
  /\ (4 <= length ds -> zfill4 ds = ds).
Proof.
  intros Hname H1 H2 Hd Hne Hpost.
  split; [now apply fix_facility_id_format_digits|].
  split; [apply zfill4_length|]. split; [reflexivity | apply zfill4_long].
Qed.

Lemma facility_id_digits_quoted_witness :
  _fix_facility_id_format (L "WHERE facility_id=12345 OR FACILITY_ID = 007")
  = L "WHERE facility_id = '12345' OR facility_id = '0007'".
Proof.
  destruct (facility_id_digits_quoted
              (L "WHERE ") (L "facility_id") [] [] (L "12345")
              (L " OR FACILITY_ID = 007"))
    as (H & _);
    [reflexivity | reflexivity | reflexivity | reflexivity | discriminate
    | reflexivity |].
  refine (eq_trans H _). vm_compute. reflexivity.
Defined.

(** A literal that does not occur is not replaced. *)
Lemma sub_scan_absent (old new : str) (s : str) :
  contains old s = false ->
  forall p, sub_scan (m_literal old new) 0 p s = s.
Proof.
  induction s as [|c s IH]; intros H p; [reflexivity|].
  cbn [contains] in H. apply orb_false_iff in H as [H1 H2].
  assert (Hm : m_literal old new p (c :: s) = None)
    by (unfold m_literal; now rewrite H1).
  rewrite (sub_scan_copy _ p c s Hm). f_equal. now apply IH.
Qed.

Lemma replace_absent (old new s : str) :
  contains old s = false -> replace old new s = s.
Proof. intros H. now apply sub_scan_absent. Qed.

(** A literal that occurs is replaced at least once. *)
Lemma scans_contains_new (old new : str) :
  old <> [] ->
  forall p s o, scans (m_literal old new) p s o ->
                contains old s = true -> contains new o = true.
Proof.
  intros Hne p s o Hsc.
  induction Hsc as [p|p c s o Hm Hsc IH|p x rest rep o Hx Hm Hsc IH]; intros H.
  - destruct old; [congruence | discriminate].
  - unfold m_literal in Hm.
    destruct (startswith old (c :: s)) eqn:E; [discriminate|].
    cbn [contains] in H |- *. rewrite E in H. simpl in H.
    rewrite (IH H). apply orb_true_r.
  - apply m_literal_inv in Hm as (_ & -> & _).
    apply contains_here, startswith_app.
Qed.

Lemma replace_present (old new s : str) :
  old <> [] -> contains old s = true -> contains new (replace old new s) = true.
Proof.
  intros Hne H.
  exact (scans_contains_new old new Hne None s _
           (sub_scan_scans _ (m_literal_wf old new Hne) s None) H).
Qed.

Lemma contains_trans (a b s : str) :
  contains a b = true -> contains b s = true -> contains a s = true.
Proof.
  intros Hab Hbs.
  apply contains_spec in Hab as (x & y & ->).
  apply contains_spec in Hbs as (u & v & ->).
  apply contains_spec. exists (u ++ x), (y ++ v).
  now rewrite <- !app_assoc.
Qed.

Lemma contains_upper (w s : str) :
  upper w = w -> contains w s = true -> contains w (upper s) = true.
Proof.
  intros Hw H. apply contains_spec in H as (x & y & ->).
  rewrite !upper_app, Hw. apply contains_infix.
Qed.

(** X2.  The missing-GROUP-BY repair tests for [ORDER BY] in the upper-cased
    query but replaces it in the query as written: where the query has
    [order by] in another casing only, the test succeeds, the replacement
    finds nothing, and no [GROUP BY] is added at all. *)
Theorem group_by_repair_misses_other_casing (s : str) :
  contains (L "ORDER BY") (upper s) = true ->
  contains (L "ORDER BY") s = false ->
  add_group_by s = s
  /\ fix_count_group_by s = s
  /\ fix_round_group_by s = s
  /\ contains (L "GROUP BY porter_user_id") (add_group_by s)
     = contains (L "GROUP BY porter_user_id") s.
Proof.
  intros Hu Hs.
  assert (H : add_group_by s = s).
  { unfold add_group_by. rewrite Hu. now apply replace_absent. }
  repeat split.
  - exact H.
  - unfold fix_count_group_by. rewrite H. now destruct (_ && _).
  - unfold fix_round_group_by. rewrite H. now destruct (_ && _).
  - now rewrite H.
Qed.

Lemma group_by_repair_misses_other_casing_witness :
  fix_count_group_by
    (L "SELECT porter_user_id, COUNT(*) AS n FROM fact_porter_request order by n")
  = L "SELECT porter_user_id, COUNT(*) AS n FROM fact_porter_request order by n".
Proof.
  destruct (group_by_repair_misses_other_casing
              (L "SELECT porter_user_id, COUNT(*) AS n FROM fact_porter_request order by n"))
    as (_ & H & _); [reflexivity | reflexivity |].
  exact H.
Defined.

Lemma add_group_by_adds (s : str) :
  add_group_by s = s \/ contains (L "GROUP BY") (upper (add_group_by s)) = true.
Proof.
  unfold add_group_by.
  destruct (contains (L "ORDER BY") (upper s)) eqn:Hu.
  - destruct (contains (L "ORDER BY") s) eqn:Hs.
    + right. apply contains_upper; [reflexivity|].
      apply contains_trans with (b := L "GROUP BY porter_user_id ORDER BY");
        [reflexivity|].
      apply replace_present; [discriminate | exact Hs].
    + left. now apply replace_absent.
  - right. apply contains_upper; [reflexivity|].
    apply contains_app_r. reflexivity.
Qed.

(** X3.  The two missing-GROUP-BY repairs of pass 2 never both change the
    query: after the two of them the query is as it was, or is what one
    application of the repair makes of it. *)
Theorem group_by_added_at_most_once (s : str) :
  fix_round_group_by (fix_count_group_by s) = s
  \/ fix_round_group_by (fix_count_group_by s) = add_group_by s.
Proof.
  assert (Hr : forall t, fix_round_group_by t = t
                         \/ fix_round_group_by t = add_group_by t).
  { intros t. unfold fix_round_group_by. destruct (_ && _); [now right | now left]. }
  unfold fix_count_group_by.
  destruct (contains (L "COUNT(") (upper s)
            && negb (contains (L "GROUP BY") (upper s))
            && contains (L "porter_user_id") s); [|apply Hr].
  destruct (add_group_by_adds s) as [E|E].
  - rewrite E. destruct (Hr s) as [H|H]; [now left | left].
    now rewrite H, E.
  - right. unfold fix_round_group_by. rewrite E.
    now rewrite andb_false_r.
Qed.

(* ===================================================================== *)
(** ** Further properties of the explainer, the orchestrator and the chart
       decision                                                           *)
(* ===================================================================== *)

(** X4.  The key word [tat] of the turnaround-time branch is looked for as a
    substring, and [status] holds it: a question about a status that is not
    a counting question is explained as a turnaround-time query, whatever
    the query is. *)
Theorem status_question_explained_as_turnaround (question sql : str) :
  contains (L "status") (lower question) = true ->
  any_in [L "count"; L "how many"; L "number of"] (lower question) = false ->
  exists msg,
    _generate_explanation question sql = Some msg /\ In msg tat_explanations.
Proof.
  intros Hs Hc.
  assert (Ht : any_in [L "tat"; L "turnaround"; L "average time"]
                 (lower question) = true).
  { unfold any_in. cbn [existsb].
    rewrite (contains_trans (L "tat") (L "status") _ eq_refl Hs).
    reflexivity. }
  unfold _generate_explanation. cbv zeta. rewrite Hc, Ht.
  unfold tat_explanations.
  repeat match goal with
         | |- context [if ?c then _ else _] => destruct c
         end;
    eexists; (split; [reflexivity|]); simpl; tauto.
Qed.

Lemma status_question_explained_as_turnaround_witness :
  exists msg,
    _generate_explanation (L "Show requests by status")
      (L "SELECT * FROM fact_porter_request") = Some msg
    /\ In msg tat_explanations.
Proof.
  apply status_question_explained_as_turnaround; reflexivity.
Defined.

(** The queries one request hands to the database. *)
Lemma process_query_queries (env : Env) (user_question : str)
  (row_limit : option Z) (st : Session) :
  queries_run (snd (process_query env user_question row_limit st))
  = queries_run st
    ++ match fst (convert_to_sql env user_question) with
       | [] => []
       | _ :: _ =>
           [sent_query (fst (convert_to_sql env user_question)) row_limit]
       end.
Proof.
  unfold process_query.
  destruct (convert_to_sql env user_question) as [sql_query explanation].
  cbn [fst snd].
  destruct sql_query as [|c sql_query];
    [cbn [snd]; now rewrite app_nil_r|].
  unfold execute_query.
  destruct (query_df env (sent_query (c :: sql_query) row_limit)) as [df|e];
    [|reflexivity].
  cbn [negb].
  now destruct (present env df user_question) as [[[dff summary] chart]|e].
Qed.

(** X5.  What one request costs and records.  The database is asked at most
    once: not at all when no query was generated, else exactly the generated
    query with its LIMIT rule.  The history grows by at most one entry.  A
    successful response reports the generated query and the number of rows
    of the frame the database returned for it. *)
Theorem process_query_accounting (env : Env) (user_question : str)
  (row_limit : option Z) (st : Session) :
  let sql_query := fst (convert_to_sql env user_question) in
  let r := fst (process_query env user_question row_limit st) in
  let st' := snd (process_query env user_question row_limit st) in
  queries_run st'
  = queries_run st
    ++ match sql_query with
       | [] => []
       | _ :: _ => [sent_query sql_query row_limit]
       end
  /\ length (conversation_history st') <= S (length (conversation_history st))
  /\ (success r = true ->
      sql_query <> []
      /\ exists summary data chart df,
           query_df env (sent_query sql_query row_limit) = inl df
           /\ r = Succeeded summary data chart
                    (snd (convert_to_sql env user_question))
                    sql_query (len df)).
Proof.
  assert (Hlog : forall e s,
             queries_run (_log_interaction e s) = queries_run s
             /\ length (conversation_history (_log_interaction e s))
                <= S (length (conversation_history s))).
  { intros e s. split; [reflexivity|]. unfold _log_interaction. simpl.
    destruct (200 <? _) eqn:E.
    - unfold keep_last. rewrite length_skipn, length_app. simpl. lia.
    - rewrite length_app. simpl. lia. }
  cbv zeta. unfold process_query.
  destruct (convert_to_sql env user_question) as [sql_query explanation].
  cbn [fst snd].
  destruct sql_query as [|c sql_query].
  - cbn [fst snd success]. rewrite app_nil_r.
    split; [reflexivity | split; [lia | discriminate]].
  - unfold execute_query.
    destruct (query_df env (sent_query (c :: sql_query) row_limit))
      as [df|e] eqn:Hq.
    + cbn [negb].
      destruct (present env df user_question) as [[[dff summary] chart]|e].
      * cbn [fst snd success].
        split; [reflexivity | split; [exact (proj2 (Hlog _ {| conversation_history := conversation_history st; queries_run := queries_run st ++ [sent_query (c :: sql_query) row_limit] |})) | intros _]].
        split; [discriminate|]. now exists summary, dff, chart, df.
      * cbn [fst snd success].
        split; [reflexivity | split; [exact (proj2 (Hlog _ {| conversation_history := conversation_history st; queries_run := queries_run st ++ [sent_query (c :: sql_query) row_limit] |})) | discriminate]].
    + cbn [negb fst snd success queries_run conversation_history].
      split; [reflexivity | split; [lia | discriminate]].
Qed.

(** X6.  The chart decision at its bounds.  A result of exactly 100 rows is
    still charted (the bound excludes 101 and more); for a question with a
    chart key word, a numeric column, two columns and two rows are enough;
    and a question about patterns over time is charted whatever the columns
    are, from one row on. *)
Theorem should_create_chart_within_bounds (df : DataFrame) (question : str) :
  1 <= length (columns df) ->
  1 <= len df <= 100 ->
  (any_in [L "daily"; L "hourly"; L "per day"; L "trends";
           L "distribution"; L "patterns"] (lower question) = true
   \/ (any_in chart_keywords (lower question) = true
       /\ existsb (fun col => is_numeric_dtype (snd col)) (columns df) = true
       /\ 2 <= length (columns df)
       /\ 2 <= len df)) ->
  should_create_chart df question = true.
Proof.
  intros Hc [Hl Hu] H. unfold should_create_chart, empty, len in *.
  destruct (length (columns df)) as [|nc] eqn:Enc; [lia|].
  destruct (index_length df) as [|nr] eqn:Enr; [lia|].
  assert (E : (100 <? S nr) = false) by (apply Nat.ltb_ge; lia).
  rewrite E. cbn [Nat.eqb orb].
  destruct H as [H|(H1 & H2 & H3 & H4)].
  - now rewrite H.
  - assert (E3 : (2 <=? S nc) = true) by (apply Nat.leb_le; lia).
    assert (E4 : (2 <=? S nr) = true) by (apply Nat.leb_le; lia).
    rewrite H1, H2, E3, E4.
    match goal with |- (if ?c then _ else _) = _ => destruct c end;
      reflexivity.
Qed.

Lemma should_create_chart_within_bounds_witness :
  should_create_chart
    {| columns := [(L "id", dt_int); (L "count", dt_int)];
       index_length := 100 |}
    (L "show count") = true.
Proof.
  apply should_create_chart_within_bounds.
  - simpl. lia.
  - unfold len. simpl. lia.
  - right. repeat split; try reflexivity; simpl; unfold len; simpl; lia.
Defined.

(* ===================================================================== *)
(** ** Code fences                                                        *)
(* ===================================================================== *)

Lemma startswith_fence_ticks (s : str) :
  startswith fence s = true <-> 3 <= ticks s.
Proof.
  unfold ticks, fence.
  destruct s as [|a [|b [|c s]]]; simpl;
    repeat match goal with
           | |- context [Ascii.eqb "`" ?x] => destruct (Ascii.eqb "`" x)
           end;
    simpl; split; try discriminate; try reflexivity; lia.
Qed.

Lemma ticks_cons (c : ascii) (s : str) :
  ticks (c :: s) = if Ascii.eqb "`" c then S (ticks s) else 0.
Proof. unfold ticks. simpl. now destruct (Ascii.eqb "`" c). Qed.

Lemma ticks_fence_app (rest : str) : ticks (fence ++ rest) = 3 + ticks rest.
Proof. reflexivity. Qed.

(** Removing the fences from left to right leaves none: what is left of a
    run of backticks is shorter than a fence. *)
Lemma scans_fence_removed (p : option ascii) (s o : str) :
  scans (m_literal fence []) p s o ->
  ticks o <= ticks s /\ contains fence o = false.
Proof.
  intros Hsc.
  induction Hsc as [p|p c s o Hm Hsc [IH1 IH2]|p x rest rep o Hx Hm Hsc [IH1 IH2]].
  - split; [lia | reflexivity].
  - split.
    + rewrite !ticks_cons. destruct (Ascii.eqb "`" c); lia.
    + cbn [contains]. rewrite IH2, orb_false_r.
      unfold m_literal in Hm.
      destruct (startswith fence (c :: s)) eqn:E; [discriminate|].
      destruct (startswith fence (c :: o)) eqn:Eo; [|reflexivity].
      apply startswith_fence_ticks in Eo.
      assert (3 <= ticks (c :: s))
        by (rewrite ticks_cons in *; destruct (Ascii.eqb "`" c); lia).
      apply startswith_fence_ticks in H. congruence.
  - pose proof Hm as Hm'. apply m_literal_inv in Hm' as (Hl & -> & Hs).
    apply startswith_split in Hs.
    assert (Hxf : x = fence).
    { apply (f_equal (firstn (length x))) in Hs.
      rewrite firstn_app, Nat.sub_diag, firstn_all, app_nil_r in Hs.
      rewrite Hs, Hl. now rewrite firstn_app, Nat.sub_diag, firstn_all, app_nil_r. }
    subst x. split; [|exact IH2].
    rewrite ticks_fence_app. simpl. lia.
Qed.

Lemma replace_fence_removed (s : str) :
  contains fence (replace fence [] s) = false.
Proof.
  apply (scans_fence_removed None s).
  apply sub_scan_scans. apply m_literal_wf. discriminate.
Qed.

(** A text found in a part of a text is found in the text. *)
Lemma contains_app_l (p s post : str) :
  contains p s = true -> contains p (s ++ post) = true.
Proof.
  intros H. apply contains_spec in H as (x & y & ->).
  apply contains_spec. exists x, (y ++ post). now rewrite <- !app_assoc.
Qed.

Lemma contains_rstrip_by (f : ascii -> bool) (p s : str) :
  contains p (rstrip_by f s) = true -> contains p s = true.
Proof.
  intros H. destruct (rstrip_by_split f s) as (y & Hs & _).
  rewrite Hs. now apply contains_app_l.
Qed.

Lemma contains_strip (p s : str) :
  contains p (strip s) = true -> contains p s = true.
Proof.
  intros H. unfold strip in H. apply contains_rstrip_by in H.
  unfold lstrip in H. rewrite (takewhile_dropwhile isspace s).
  now apply contains_app_r.
Qed.

Lemma absent_strip (p s : str) :
  contains p s = false -> contains p (strip s) = false.
Proof.
  intros H. destruct (contains p (strip s)) eqn:E; [|reflexivity].
  apply contains_strip in E. congruence.
Qed.

(** Appending a text that holds no character of [w]. *)
Lemma tails1_head_in (w w2 : str) :
  In w2 (tails1 w) -> exists a r, w2 = a :: r /\ In a w.
Proof.
  induction w as [|b w IH]; simpl; [contradiction|].
  intros [<-|H]; [exists b, w; split; [reflexivity | now left]|].
  destruct (IH H) as (a & r & -> & Ha). exists a, r. split; [reflexivity | now right].
Qed.

Lemma contains_app_avoided (w u z : str) :
  w <> [] -> avoids w z = true ->
  contains w (u ++ z) = true -> contains w u = true.
Proof.
  intros Hw Hz. induction u as [|c u IH]; intros H.
  - exfalso. simpl in H. induction z as [|d z IHz].
    + destruct w; [congruence | discriminate].
    + cbn [contains] in H. apply orb_true_iff in H as [H|H].
      * destruct w as [|a w]; [congruence|]. simpl in H.
        apply andb_true_iff in H as [H _]. apply Ascii.eqb_eq in H. subst d.
        apply (avoids_head _ _ _ Hz). now left.
      * apply IHz; [|exact H]. unfold avoids in *. simpl in Hz.
        now apply andb_true_iff in Hz as [_ Hz].
  - change ((c :: u) ++ z) with (c :: (u ++ z)) in H.
    cbn [contains] in H |- *. apply orb_true_iff in H as [H|H].
    + destruct (startswith_app_cases w (c :: u) z H) as [H1|(w2 & Hw2 & H1)].
      * now rewrite H1.
      * exfalso. destruct (tails1_head_in w w2 Hw2) as (a & r & -> & Ha).
        destruct z as [|d z]; [discriminate H1|]. simpl in H1.
        apply andb_true_iff in H1 as [H1 _]. apply Ascii.eqb_eq in H1. subst d.
        now apply (avoids_head _ _ _ Hz).
    + rewrite (IH H). apply orb_true_r.
Qed.

Lemma keepsA_rstrip_append (z : str) :
  avoids fence z = true -> keepsA (fun s => rstrip_semicolon s ++ z).
Proof.
  intros Hz s Hs.
  destruct (contains fence (rstrip_semicolon s ++ z)) eqn:E; [|reflexivity].
  apply contains_app_avoided in E; [|discriminate | exact Hz].
  apply contains_rstrip_by in E. congruence.
Qed.

Lemma keepsA_sub_const (m : matcher) (rep : str) :
  wf_matcher m ->
  (forall p s n rep', m p s = Some (n, rep') -> rep' = rep) ->
  match rep with [] => false | _ :: _ => true end && avoids fence rep = true ->
  keepsA (re_sub m).
Proof.
  intros Hwf Hrep Hok s Hs. apply andb_true_iff in Hok as [Hne Hav].
  apply absent_sub; [discriminate | | exact Hwf | exact Hs].
  intros p t n rep' Hm. rewrite (Hrep _ _ _ _ Hm).
  split; [now destruct rep | exact Hav].
Qed.

Lemma keepsA_replace (old new : str) :
  lit_ok_A old new = true -> keepsA (replace old new).
Proof.
  unfold lit_ok_A. intros H.
  apply andb_true_iff in H as [H Hav]. apply andb_true_iff in H as [Ho Hn].
  apply keepsA_sub_const with (rep := new).
  - apply m_literal_wf. now destruct old.
  - intros p s n rep' Hm. now apply m_literal_inv in Hm as (_ & -> & _).
  - now rewrite Hn, Hav.
Qed.

Lemma keepsA_piece (P : piece) (rep : str) :
  wf_matcher (m_piece P rep) ->
  match rep with [] => false | _ :: _ => true end && avoids fence rep = true ->
  keepsA (re_sub (m_piece P rep)).
Proof.
  intros Hwf Hok. apply keepsA_sub_const with (rep := rep); try assumption.
  intros p s n rep' Hm. now apply m_piece_inv in Hm as (-> & _).
Qed.

Ltac keeps_lit_A :=
  match goal with
  | |- contains fence (replace ?old ?new _) = false =>
      let H := fresh in
      assert (H : lit_ok_A old new = true) by by_check;
      apply (keepsA_replace old new H); clear H
  | |- contains fence (re_sub (m_literal ?old ?new) _) = false =>
      let H := fresh in
      assert (H : lit_ok_A old new = true) by by_check;
      apply (keepsA_replace old new H); clear H
  end.

Ltac keeps_tail_A :=
  match goal with
  | |- contains fence (rstrip_semicolon _ ++ ?z) = false =>
      apply (keepsA_rstrip_append z eq_refl)
  end.

Lemma avoids_fence_digits (ds : str) :
  forallb isdecimal ds = true -> avoids fence ds = true.
Proof.
  intros H. unfold avoids. apply forallb_forall. intros c Hc.
  rewrite forallb_forall in H. specialize (H c Hc). revert H. each_char c.
Qed.

(** Pass 1. *)
Lemma fix_facility_id_format_keepsA : keepsA _fix_facility_id_format.
Proof.
  intros s Hs.
  apply absent_sub; [discriminate | | exact m_facility_id_wf | exact Hs].
  intros p t n rep Hm.
  apply m_facility_id_rep in Hm as (ds & Hd & ->).
  split; [discriminate|]. unfold replace_facility_id.
  rewrite !avoids_app, (avoids_fence_digits _ (zfill4_digits ds Hd)).
  reflexivity.
Qed.

(** Pass 2. *)
Lemma add_group_by_keepsA : keepsA add_group_by.
Proof.
  intros s Hs. unfold add_group_by.
  destruct (contains (L "ORDER BY") (upper s)).
  - now keeps_lit_A.
  - now keeps_tail_A.
Qed.

Lemma fix_sql_functions_keepsA : keepsA _fix_sql_functions.
Proof.
  intros s Hs. unfold _fix_sql_functions.
  assert (H1 : contains fence (fix_countif s) = false).
  { apply keepsA_sub_const with (rep := L "countIf");
      [exact m_countif_wf | | reflexivity | exact Hs].
    intros p t n rep Hm. now apply m_countif_inv in Hm as (_ & -> & _). }
  assert (H2 : contains fence (fix_priority (fix_countif s)) = false).
  { unfold fix_priority. destruct (contains (L "priority > 0") _);
      [now keeps_lit_A | exact H1]. }
  assert (H3 : contains fence (fix_avg_time (fix_priority (fix_countif s)))
               = false).
  { unfold fix_avg_time.
    match goal with |- context [if ?c then _ else _] => destruct c end;
      [|exact H2].
    apply keepsA_piece; [exact m_avg_time_wf | reflexivity | exact H2]. }
  assert (H4 : contains fence
                 (fix_count_group_by
                    (fix_avg_time (fix_priority (fix_countif s)))) = false).
  { unfold fix_count_group_by.
    match goal with |- context [if ?c then _ else _] => destruct c end;
      [now apply add_group_by_keepsA | exact H3]. }
  unfold fix_round_group_by.
  match goal with |- context [if ?c then _ else _] => destruct c end;
    [now apply add_group_by_keepsA | exact H4].
Qed.

(** Pass 3. *)
Lemma null_rewrites_keepsA (field : str) :
  field <> [] -> avoids fence (both_conditions field) = true ->
  keepsA (re_sub (m_is_null field)) /\ keepsA (re_sub (m_eq_empty field)).
Proof.
  intros Hf Hok.
  split; apply keepsA_piece;
    first [now apply m_is_null_wf | now apply m_eq_empty_wf | idtac];
    rewrite Hok; reflexivity.
Qed.

Lemma fix_field_keepsA (question_lower field : str) :
  In field nullable_fields ->
  keepsA (fun s => fix_field question_lower s field).
Proof.
  intros Hin s Hs. unfold fix_field.
  destruct (contains field question_lower); [|exact Hs].
  assert (H : field <> [] /\ avoids fence (both_conditions field) = true).
  { simpl in Hin.
    repeat (destruct Hin as [<-|Hin]; [split; [discriminate | by_check]|]).
    contradiction. }
  destruct H as [Hf Hok].
  destruct (null_rewrites_keepsA field Hf Hok) as [H1 H2].
  now apply H2, H1.
Qed.

Lemma fold_fix_field_keepsA (question_lower : str) (fields : list str) :
  (forall f, In f fields -> In f nullable_fields) ->
  keepsA (fun s => fold_left (fix_field question_lower) fields s).
Proof.
  induction fields as [|f fields IH]; intros Hin s Hs; [exact Hs|].
  simpl. apply IH.
  - intros g Hg. apply Hin. now right.
  - apply (fix_field_keepsA question_lower f); [apply Hin; now left | exact Hs].
Qed.

Lemma fix_null_empty_handling_keepsA (user_question : str) :
  keepsA (fun s => _fix_null_empty_handling s user_question).
Proof.
  intros s Hs. unfold _fix_null_empty_handling.
  destruct (contains (L "null") (lower user_question)
            || contains (L "empty") (lower user_question)); [|exact Hs].
  apply (fold_fix_field_keepsA _ nullable_fields (fun _ H => H)).
  unfold fix_comp_manually.
  destruct (null_rewrites_keepsA (L "comp_manually")
              ltac:(discriminate) eq_refl) as [H1 H2].
  destruct (contains (L "comp_manually") (lower user_question)); [|exact Hs].
  destruct (contains (L "null") (lower user_question)); [now apply H1|].
  destruct (contains (L "empty") (lower user_question));
    [now apply H2 | exact Hs].
Qed.

(** Pass 4. *)
Lemma localize_keepsA (cols : list str) :
  (forall col, In col cols -> In col localized_columns) ->
  keepsA (fun s => fold_left localize_to_date cols s).
Proof.
  induction cols as [|col cols IH]; intros Hin s Hs; [exact Hs|].
  assert (Hok : lit_ok_A (to_date col) (to_date_tz col) = true).
  { assert (Hc : In col localized_columns) by (apply Hin; now left).
    simpl in Hc.
    repeat (destruct Hc as [<-|Hc]; [by_check|]). contradiction. }
  simpl. apply (IH (fun c H => Hin c (or_intror H))).
  now apply (keepsA_replace _ _ Hok).
Qed.

Lemma enhance_date_queries_keepsA (user_question : str) :
  keepsA (fun s => _enhance_date_queries s user_question).
Proof.
  intros s Hs. unfold _enhance_date_queries. cbv zeta.
  set (ql := lower user_question).
  pose proof (localize_keepsA localized_columns (fun _ H => H) s Hs) as H1.
  set (s1 := fold_left localize_to_date localized_columns s) in *.
  assert (H2 : contains fence (expand_select_star ql s1) = false).
  { unfold expand_select_star.
    match goal with |- context [if ?c then _ else _] => destruct c end;
      [now keeps_lit_A | exact H1]. }
  set (s2 := expand_select_star ql s1) in *.
  assert (H3 : contains fence (fix_june_2 ql s2) = false).
  { unfold fix_june_2, lit_sub.
    destruct (contains (L "june 2") ql); [|exact H2].
    match goal with |- context [if ?c then _ else _] => destruct c end.
    - now do 4 keeps_lit_A.
    - now do 3 keeps_lit_A. }
  set (s3 := fix_june_2 ql s2) in *.
  assert (H4 : contains fence (fix_june_1 ql s3) = false).
  { unfold fix_june_1, lit_sub.
    destruct (contains (L "june 1") ql); [|exact H3].
    now do 2 keeps_lit_A. }
  set (s4 := fix_june_1 ql s3) in *.
  assert (H5 : contains fence (fix_may_31 ql s4) = false).
  { unfold fix_may_31, lit_sub.
    destruct (contains (L "may 31") ql); [|exact H4].
    apply keepsA_sub_const with (rep := L "'2025-05-31'");
      [apply m_literal_ci_wf; discriminate | | reflexivity |].
    - intros p t n rep Hm. now apply m_literal_ci_inv in Hm as (_ & -> & _).
    - now keeps_lit_A. }
  set (s5 := fix_may_31 ql s4) in *.
  assert (H6 : contains fence (fix_last_request ql s5) = false).
  { unfold fix_last_request.
    match goal with |- context [if ?c then _ else _] => destruct c end;
      [now keeps_tail_A | exact H5]. }
  set (s6 := fix_last_request ql s5) in *.
  assert (H7 : contains fence (fix_hourly ql s6) = false).
  { unfold fix_hourly.
    destruct (contains (L "hourly") ql || contains (L "hour by hour") ql);
      [|exact H6].
    destruct (contains hour_select s6); [|exact H6].
    now do 2 keeps_lit_A. }
  set (s7 := fix_hourly ql s6) in *.
  assert (Hok : forall n, month_search ql = Some n ->
    lit_ok_A (L "FROM fact_porter_request")
      (L "FROM fact_porter_request WHERE toYear(toTimeZone(scheduled_time, 'Asia/Kolkata')) = 2025 AND toMonth(toTimeZone(scheduled_time, 'Asia/Kolkata')) = "
       ++ str_of_int n) = true).
  { intros n Hn. apply month_search_In in Hn. simpl in Hn.
    repeat (destruct Hn as [<-|Hn]; [by_check|]). contradiction. }
  unfold fix_month.
  destruct (month_search ql) as [n|]; [|exact H7].
  destruct (contains (L "per day") ql
            && negb (contains (L "GROUP BY") (upper s7))); [|exact H7].
  match goal with |- context [if ?c then _ else _] => destruct c end.
  - keeps_lit_A. now apply (keepsA_replace _ _ (Hok n eq_refl)).
  - now apply (keepsA_replace _ _ (Hok n eq_refl)).
Qed.

Lemma repair_keepsA (user_question : str) :
  keepsA (fun s => repair s user_question).
Proof.
  intros s Hs. unfold repair.
  apply enhance_date_queries_keepsA, fix_null_empty_handling_keepsA,
    fix_sql_functions_keepsA, fix_facility_id_format_keepsA.
  exact Hs.
Qed.

(** X7.  No Markdown fence reaches the database: whatever the backend
    answers, the query that [convert_to_sql] returns holds no [```]. *)
Theorem convert_to_sql_no_fence (env : Env) (user_question : str) :
  contains fence (fst (convert_to_sql env user_question)) = false.
Proof.
  unfold convert_to_sql.
  destruct (chat_completion env user_question) as [content|e];
    [|reflexivity].
  cbn [fst]. apply repair_keepsA, absent_strip, replace_fence_removed.
Qed.

(* ===================================================================== *)
(** ** The error analysis                                                 *)
(* ===================================================================== *)

Lemma isdigit_lower (c : ascii) : isdigit (lower_char c) = isdigit c.
Proof. each_char c. Qed.

Lemma existsb_isdigit_lower (s : str) :
  existsb isdigit (lower s) = existsb isdigit s.
Proof.
  induction s as [|c s IH]; [reflexivity|]. simpl.
  now rewrite isdigit_lower, IH.
Qed.

(** X8.  The error analysis looks at its three arguments through their
    lower-case forms only: texts that differ in letter case get the same
    analysis. *)
Theorem analyze_error_ignores_case (q1 s1 e1 q2 s2 e2 : str) :
  lower q1 = lower q2 -> lower s1 = lower s2 -> lower e1 = lower e2 ->
  analyze_error q1 s1 e1 = analyze_error q2 s2 e2.
Proof.
  intros Hq Hs He. unfold analyze_error.
  rewrite <- (existsb_isdigit_lower q1), <- (existsb_isdigit_lower q2).
  now rewrite Hq, Hs, He.
Qed.

Lemma analyze_error_ignores_case_witness :
  analyze_error (L "Requests of PORTER 12") (L "select CountIf(x) from t")
    (L "NO RESULTS")
  = analyze_error (L "requests of porter 12") (L "SELECT COUNTIF(X) FROM T")
      (L "no results").
Proof.
  apply analyze_error_ignores_case; reflexivity.
Defined.

Lemma analyze_error_early_returns (question sql : str) :
  analyze_error question sql (L "Failed to generate SQL query")
  = L "An unexpected database error occurred."
  /\ analyze_error question sql (L "Query execution failed")
     = L "An unexpected database error occurred.".
Proof. split; vm_compute; reflexivity. Qed.

Lemma analyze_error_without_sql (question error : str) :
  analyze_error question [] error
  <> L "The database doesn't support the COUNTIf function. Try rephrasing the query.".
Proof.
  unfold analyze_error. cbv zeta.
  change (contains (L "countif") (lower [])) with false. cbv iota.
  repeat match goal with
         | |- context [if ?c then _ else _] => destruct c
         end;
    discriminate.
Qed.

(** X9.  What the page can say of a failed request.  The response of a
    failure that [process_query] returns early (no query generated, or the
    database refused it) carries a fixed error text that none of the key
    words of the analysis occurs in: the page shows the catch-all message,
    whatever went wrong.  And since only those responses carry the query,
    the message about [COUNTIf] is never shown. *)
Theorem failed_request_analysis (env : Env) (user_input : str)
  (row_limit : option Z) (st st' : Session) (error summary : str)
  (sql : option str) :
  process_query env (strip user_input) row_limit st
  = (Failed error summary sql, st') ->
  exists shown,
    error_analysis user_input (Failed error summary sql) = Some shown
    /\ shown
       <> L "The database doesn't support the COUNTIf function. Try rephrasing the query."
    /\ (summary <> summary_exception ->
        shown = L "An unexpected database error occurred.").
Proof.
  intros H. unfold process_query in H.
  destruct (convert_to_sql env (strip user_input)) as [sql_query explanation].
  destruct sql_query as [|c sql_query].
  - injection H as <- <- <- _.
    destruct (analyze_error_early_returns user_input []) as [E _].
    exists (L "An unexpected database error occurred.").
    cbn [error_analysis].
    split; [exact (f_equal Some E) | split; [discriminate | reflexivity]].
  - destruct (execute_query env (c :: sql_query) row_limit st)
      as [[df ok] st1].
    destruct ok; cbn [negb] in H.
    + destruct (present env df (strip user_input))
        as [[[dff summary'] chart]|e]; [discriminate|].
      injection H as <- <- <- _.
      exists (analyze_error user_input [] e). cbn [error_analysis].
      split; [reflexivity|].
      split; [apply analyze_error_without_sql | congruence].
    + injection H as <- <- <- _.
      destruct (analyze_error_early_returns user_input (c :: sql_query))
        as [_ E].
      exists (L "An unexpected database error occurred.").
      cbn [error_analysis].
      split; [exact (f_equal Some E) | split; [discriminate | reflexivity]].
Qed.

Lemma failed_request_analysis_witness :
  exists shown,
    error_analysis (L " Which requests have high priority ")
      (Failed (L "Query execution failed") summary_query_failed
         (Some (L "SELECT * FROM fact_porter_request WHERE priority = 1")))
    = Some shown
    /\ shown
       <> L "The database doesn't support the COUNTIf function. Try rephrasing the query."
    /\ (summary_query_failed <> summary_exception ->
        shown = L "An unexpected database error occurred.").
Proof.
  apply (failed_request_analysis env_database_down
           (L " Which requests have high priority ")
           (Some 100%Z) no_session
           {| conversation_history := [];
              queries_run := [L "SELECT * FROM fact_porter_request WHERE priority = 1 LIMIT 100"] |}).
  vm_compute. reflexivity.
Defined.

(* ===================================================================== *)
(** ** The summary and the figure                                         *)
(* ===================================================================== *)

Lemma any_in_cons (w : str) (ws : list str) (s : str) :
  any_in (w :: ws) s = contains w s || any_in ws s.
Proof. reflexivity. Qed.

(** X10.  The key word [min] of the summary is looked for as a substring,
    and [minutes] holds it: for a question in minutes that is neither a
    counting nor an averaging question, the summary of a result that is not
    empty announces a minimum, whatever was asked. *)
Theorem summary_of_minutes_question
  (count_text : DataFrame -> str -> raising str) (df : DataFrame)
  (question : str) :
  empty df = false ->
  contains (L "minutes") (lower question) = true ->
  any_in [L "count"; L "how many"; L "number"] (lower question) = false ->
  any_in [L "average"; L "avg"; L "mean"] (lower question) = false ->
  ResultFormatter.generate_summary count_text df question
  = inl (ResultFormatter.check_mark
         ++ L " Found the minimum value from the dataset.").
Proof.
  intros He Hm Hc Ha. unfold ResultFormatter.generate_summary.
  rewrite He. cbv zeta. rewrite Hc, Ha.
  assert (H : any_in [L "minimum"; L "min"; L "lowest"] (lower question)
              = true).
  { rewrite !any_in_cons.
    rewrite (contains_trans (L "min") (L "minutes") _ eq_refl Hm).
    now rewrite orb_true_r. }
  now rewrite H.
Qed.

Lemma summary_of_minutes_question_witness :
  ResultFormatter.generate_summary (fun _ _ => inr [])
    {| columns := [(L "id", dt_int)]; index_length := 42 |}
    (L "Which requests took over 30 minutes?")
  = inl (ResultFormatter.check_mark
         ++ L " Found the minimum value from the dataset.").
Proof.
  apply summary_of_minutes_question; reflexivity.
Defined.

(** X11.  The summary starts with the cross mark exactly for an empty
    result, and with the check mark otherwise; it can only fail on the
    formatted cell of a single-row count. *)
Theorem summary_marks (count_text : DataFrame -> str -> raising str)
  (df : DataFrame) (question : str) :
  (empty df = true ->
   ResultFormatter.generate_summary count_text df question
   = inl (cross_mark ++ L " No results found for your query."))
  /\ (empty df = false ->
      forall text,
        ResultFormatter.generate_summary count_text df question = inl text ->
        startswith ResultFormatter.check_mark text = true)
  /\ (empty df = false ->
      (len df <> 1
       \/ any_in [L "count"; L "how many"; L "number"] (lower question)
          = false) ->
      exists text,
        ResultFormatter.generate_summary count_text df question = inl text).
Proof.
  unfold ResultFormatter.generate_summary. cbv zeta.
  split; [intros ->; reflexivity|]. split.
  - intros -> text.
    repeat match goal with
           | |- context [if ?c then _ else _] => destruct c
           end;
      try (intros H; injection H as <-; reflexivity).
    destruct (find ResultFormatter.count_column (columns df)) as [col|];
      [|discriminate].
    unfold bind_raising. destruct (count_text df (fst col)) as [v|e];
      [|discriminate].
    intros H. injection H as <-. reflexivity.
  - intros -> H.
    destruct (any_in [L "count"; L "how many"; L "number"] (lower question))
      eqn:Hc.
    + destruct H as [H|H]; [|discriminate].
      apply Nat.eqb_neq in H. rewrite H. cbn [andb]. eexists. reflexivity.
    + repeat match goal with
             | |- context [if ?c then _ else _] => destruct c
             end; eexists; reflexivity.
Qed.


(** The loop of [create_chart] keeps the last column of each kind. *)
Lemma find_step_time (b : list str) :
  forall init,
    forallb (fun col => negb (ResultFormatter.time_column col)) b = true ->
    fst (fold_left ResultFormatter.find_step b init) = fst init.
Proof.
  induction b as [|col b IH]; intros init H; [reflexivity|].
  simpl in H. apply andb_true_iff in H as [Hc H]. apply negb_true_iff in Hc.
  simpl. rewrite (IH _ H). unfold ResultFormatter.find_step. rewrite Hc.
  now destruct (contains (L "count") (lower col)).
Qed.

Lemma find_step_count (b : list str) :
  forall init,
    forallb (fun col => ResultFormatter.time_column col
                        || negb (contains (L "count") (lower col))) b = true ->
    snd (fold_left ResultFormatter.find_step b init) = snd init.
Proof.
  induction b as [|col b IH]; intros init H; [reflexivity|].
  cbn [forallb] in H. apply andb_true_iff in H as [Hc H].
  cbn [fold_left]. rewrite (IH _ H). unfold ResultFormatter.find_step.
  destruct (ResultFormatter.time_column col); [reflexivity|].
  cbn [orb] in Hc. apply negb_true_iff in Hc. now rewrite Hc.
Qed.

Lemma find_columns_last (cols a b a' b' : list str) (t c : str) :
  cols = a ++ t :: b -> ResultFormatter.time_column t = true ->
  forallb (fun col => negb (ResultFormatter.time_column col)) b = true ->
  cols = a' ++ c :: b' -> ResultFormatter.time_column c = false ->
  contains (L "count") (lower c) = true ->
  forallb (fun col => ResultFormatter.time_column col
                      || negb (contains (L "count") (lower col))) b' = true ->
  ResultFormatter.find_columns cols = (Some t, Some c).
Proof.
  intros Ht Htt Hb Hc Hct Hcc Hb'. unfold ResultFormatter.find_columns.
  apply injective_projections.
  - rewrite Ht, fold_left_app. simpl. rewrite (find_step_time b _ Hb).
    unfold ResultFormatter.find_step. now rewrite Htt.
  - rewrite Hc, fold_left_app. simpl. rewrite (find_step_count b' _ Hb').
    unfold ResultFormatter.find_step. now rewrite Hct, Hcc.
Qed.

(** X12.  The axes of the chart of an hourly question do not depend on the
    order of the columns: the x axis is the last column named after a time
    or an hour, the y axis the last other column named after a count. *)
Theorem hourly_chart_axes (df : DataFrame) (question : str)
  (a b a' b' : list str) (t c : str) :
  contains (L "hour") (lower question) = true ->
  map fst (columns df) = a ++ t :: b ->
  ResultFormatter.time_column t = true ->
  forallb (fun col => negb (ResultFormatter.time_column col)) b = true ->
  map fst (columns df) = a' ++ c :: b' ->
  ResultFormatter.time_column c = false ->
  contains (L "count") (lower c) = true ->
  forallb (fun col => ResultFormatter.time_column col
                      || negb (contains (L "count") (lower col))) b' = true ->
  exists fig,
    ResultFormatter.create_chart df question = Some fig
    /\ fig_x fig = t /\ fig_y fig = c.
Proof.
  intros Hh Ht Htt Hb Hc Hct Hcc Hb'.
  pose proof (find_columns_last _ a b a' b' t c Ht Htt Hb Hc Hct Hcc Hb')
    as Hfind.
  assert (Htne : t <> []) by (intros ->; discriminate Htt).
  assert (Hcne : c <> []) by (intros ->; discriminate Hcc).
  unfold ResultFormatter.create_chart. cbv zeta.
  remember (map fst (columns df)) as cols eqn:E. clear E.
  destruct cols as [|first [|second rest]].
  - destruct a; discriminate Ht.
  - exfalso.
    assert (t = first)
      by (destruct a as [|x [|y a]]; simpl in Ht; congruence).
    assert (c = first)
      by (destruct a' as [|x [|y a']]; simpl in Hc; congruence).
    congruence.
  - rewrite Hh, orb_true_r, Hfind.
    destruct t as [|t0 t]; [congruence|].
    destruct c as [|c0 c]; [congruence|].
    cbn [ResultFormatter.truthy andb].
    repeat match goal with
           | |- context [if ?c then _ else _] => destruct c
           end;
      eexists; repeat split; reflexivity.
Qed.

Lemma hourly_chart_axes_witness :
  exists fig,
    ResultFormatter.create_chart
      {| columns := [(L "request_count", dt_int); (L "request_hour", dt_int)];
         index_length := 24 |}
      (L "Show hourly request patterns")
    = Some fig
    /\ fig_x fig = L "request_hour" /\ fig_y fig = L "request_count".
Proof.
  apply (hourly_chart_axes _ _ [L "request_count"] [] [] [L "request_hour"]);
    reflexivity.
Defined.

Lemma create_chart_none (df : DataFrame) (question : str) :
  ResultFormatter.create_chart df question = None
  <-> length (columns df) < 2.
Proof.
  unfold ResultFormatter.create_chart. cbv zeta.
  rewrite <- (length_map fst (columns df)).
  destruct (map fst (columns df)) as [|first [|second rest]]; simpl.
  - split; [lia | reflexivity].
  - split; [lia | reflexivity].
  - match goal with
    | |- context [match ?e with pair _ _ => _ end] => destruct e
    end.
    split; [discriminate | lia].
Qed.

(** X13.  The chart decision and the chart maker do not agree on what can be
    charted: a chart that [should_create_chart] asks for is not made exactly
    when the result has a single column, which only happens for a question
    about patterns over time. *)
Theorem chart_wanted_but_not_made (df : DataFrame) (question : str) :
  should_create_chart df question = true ->
  (ResultFormatter.create_chart df question = None
   <-> length (columns df) = 1)
  /\ (ResultFormatter.create_chart df question = None ->
      any_in [L "daily"; L "hourly"; L "per day"; L "trends";
              L "distribution"; L "patterns"] (lower question) = true).
Proof.
  intros H. rewrite create_chart_none.
  unfold should_create_chart, empty in H.
  destruct (length (columns df)) as [|[|n]] eqn:En.
  - discriminate H.
  - split; [split; lia|]. intros _.
    destruct ((1 =? 0) || (index_length df =? 0) || (100 <? len df));
      [discriminate|].
    destruct (any_in [L "daily"; L "hourly"; L "per day"; L "trends";
                      L "distribution"; L "patterns"] (lower question));
      [reflexivity|].
    change (2 <=? 1) with false in H.
    rewrite andb_false_r in H. discriminate H.
  - split; [split; lia | lia].
Qed.

Lemma chart_wanted_but_not_made_witness :
  should_create_chart
    {| columns := [(L "day", dt_datetime)]; index_length := 7 |}
    (L "Show daily requests") = true
  /\ ResultFormatter.create_chart
       {| columns := [(L "day", dt_datetime)]; index_length := 7 |}
       (L "Show daily requests") = None.
Proof.
  destruct (chart_wanted_but_not_made
              {| columns := [(L "day", dt_datetime)]; index_length := 7 |}
              (L "Show daily requests") eq_refl) as [[_ H] _].
  split; [reflexivity | apply H; reflexivity].
Defined.

(* ===================================================================== *)
(** ** The configuration                                                  *)
(* ===================================================================== *)

Lemma nonempty_true (s : str) : nonempty s = true <-> s <> [].
Proof. destruct s; simpl; split; congruence. Qed.


(** X15.  A configuration that [validate_config] accepts never makes the
    converter fail for want of a backend; Azure is chosen whenever both its
    settings are there, also when the OpenAI key is set as well. *)
Theorem accepted_config_has_backend (cls : Config) :
  validate_config cls = inl true ->
  exists converter,
    NLPToSQLConverter_init cls = inl converter
    /\ (is_azure converter = true
        <-> AZURE_OPENAI_ENDPOINT cls <> [] /\ AZURE_OPENAI_API_KEY cls <> [])
    /\ (is_azure converter = false ->
        client converter = OpenAI (OPENAI_API_KEY cls)
        /\ OPENAI_API_KEY cls <> []).
Proof.
  destruct cls as [ep key dep ver ok om host pw]. cbn.
  destruct ep as [|? ?], key as [|? ?], ok as [|? ?], host as [|? ?],
    pw as [|? ?]; cbv; intros H; try discriminate H;
    eexists; (split; [reflexivity|]); cbn;
    repeat split; try discriminate; try congruence;
    try (intros [? ?]; congruence).
Qed.

Lemma accepted_config_has_backend_witness :
  exists converter,
    NLPToSQLConverter_init openai_only = inl converter
    /\ is_azure converter = false.
Proof.
  destruct (accepted_config_has_backend openai_only eq_refl)
    as (converter & H & Ha & _).
  exists converter. split; [exact H|].
  destruct (is_azure converter); [|reflexivity].
  destruct (proj1 Ha eq_refl) as [E _]. exfalso. now apply E.
Defined.

(** X21.  The configuration read from the environment.  The class body
    converts six numeric settings; it ends without an error exactly when
    each of them, at the value read for it (its default when unset), is a
    text the conversion accepts, and otherwise it raises and there is no
    configuration to validate.  When it ends, the configuration is accepted
    exactly when the host and the password of the database are not set to
    the empty text (unset is fine: they have defaults) and one backend is
    complete, each of its settings being set to a text that is not empty. *)
Theorem validate_config_of_environment (builtins : Builtins)
  (environ : str -> option str) :
  let is_set name := exists v, environ name = Some v /\ v <> [] in
  (numeric_settings_convert builtins environ
   <-> exists cls, Config_of builtins environ = inl cls)
  /\ (forall cls,
        Config_of builtins environ = inl cls ->
        (validate_config cls = inl true
         <-> environ (L "CLICKHOUSE_HOST") <> Some []
             /\ environ (L "CLICKHOUSE_PASSWORD") <> Some []
             /\ ((is_set (L "AZURE_OPENAI_ENDPOINT")
                  /\ is_set (L "AZURE_OPENAI_API_KEY"))
                 \/ is_set (L "OPENAI_API_KEY")))).
Proof.
  cbv zeta. unfold numeric_settings_convert, converts, Config_of.
  destruct (py_float builtins _) as [t|e1];
  [destruct (py_int builtins (getenv environ (L "OPENAI_MAX_TOKENS") _))
     as [n1|e2];
   [destruct (py_int builtins (getenv environ (L "CLICKHOUSE_PORT") _))
      as [n2|e3];
    [destruct (py_int builtins (getenv environ (L "MAX_QUERY_TIMEOUT") _))
       as [n3|e4];
     [destruct (py_int builtins (getenv environ (L "DEFAULT_ROW_LIMIT") _))
        as [n4|e5];
      [destruct (py_int builtins (getenv environ (L "FLASK_PORT") _))
         as [n5|e6]|]|]|]|]|];
  cbn [bind_raising];
  try (split;
       [split;
        [intros ((x1 & H1) & (x2 & H2) & (x3 & H3) & (x4 & H4) & (x5 & H5)
                 & (x6 & H6)); congruence
        | intros (cls & H); discriminate H]
       | intros cls H; discriminate H]).
  split; [split; [intros _; eexists; reflexivity
                 | intros _; repeat split; eexists; reflexivity]|].
  intros cls Hcls.
  pose proof (f_equal (fun r : raising Config =>
                         match r with inl c => c | inr _ => cls end) Hcls)
    as E.
  cbv beta iota in E. subst cls. clear Hcls. unfold getenv.
  destruct (environ (L "AZURE_OPENAI_ENDPOINT")) as [[|? ?]|] eqn:E1;
  destruct (environ (L "AZURE_OPENAI_API_KEY")) as [[|? ?]|] eqn:E2;
  destruct (environ (L "OPENAI_API_KEY")) as [[|? ?]|] eqn:E3;
  destruct (environ (L "CLICKHOUSE_HOST")) as [[|? ?]|] eqn:E4;
  destruct (environ (L "CLICKHOUSE_PASSWORD")) as [[|? ?]|] eqn:E5;
  (split;
   [ intros H; vm_compute in H; try discriminate H;
     (split; [discriminate|]); (split; [discriminate|]);
     first [ left; split; eexists; split; try reflexivity; discriminate
           | right; eexists; split; try reflexivity; discriminate ]
   | intros (H1 & H2 & H3);
     first [ exfalso; apply H1; reflexivity
           | exfalso; apply H2; reflexivity
           | vm_compute; reflexivity
           | exfalso;
             destruct H3 as [[(v1 & Hv1 & Hn1) (v2 & Hv2 & Hn2)]
                            |(v3 & Hv3 & Hn3)];
             congruence ] ]).
Qed.

(** A port that is no number: with conversions that read plain decimal
    numerals, the class body raises, whatever the other settings are. *)
Lemma malformed_port_raises :
  Config_of plain_builtins
    (fun name =>
       if str_eqb name (L "CLICKHOUSE_PORT") then Some (L "abc")
       else if str_eqb name (L "OPENAI_API_KEY") then Some (L "sk-test")
       else None)
  = inr (L "invalid literal for int() with base 10: 'abc'").
Proof. vm_compute. reflexivity. Qed.

(* ===================================================================== *)
(** ** The HTTP interface                                                 *)
(* ===================================================================== *)



(** X17.  The HTTP interface never limits a query: whatever the request
    says (its [limit] is read and dropped), the database is handed at most
    one query, and that is the query generated for the stripped question of
    the request as it is, with no [LIMIT] added. *)
Theorem api_query_is_never_limited (chatbot : option Env) (flask : Flask)
  (st : Session) :
  queries_run (snd (api.process_query chatbot flask st)) = queries_run st
  \/ exists env members s,
       chatbot = Some env
       /\ get_json flask = inl (JObject members)
       /\ get_default members (L "question") (JString []) = JString s
       /\ queries_run (snd (api.process_query chatbot flask st))
          = queries_run st ++ [fst (convert_to_sql env (strip s))].
Proof.
  unfold api.process_query.
  destruct chatbot as [env|]; [|now left].
  destruct (get_json flask) as [data|e] eqn:Hj; [|now left].
  destruct (negb (json_truthy data)); [now left|].
  destruct data as [| | | | |items|members]; try (now left).
  destruct (get_default members (L "question") (JString []))
    as [| | | |s| |] eqn:Hg; try (now left).
  destruct (negb (nonempty (strip s))); [now left|].
  pose proof (process_query_queries env (strip s) None st) as Hq.
  unfold api.chatbot_process_query.
  destruct (process_query env (strip s) None st) as [result st1].
  cbn [snd] in Hq.
  assert (Hst : queries_run st1 = queries_run st
                \/ queries_run st1
                   = queries_run st ++ [fst (convert_to_sql env (strip s))]).
  { rewrite Hq. destruct (fst (convert_to_sql env (strip s))) as [|c q];
      [left; apply app_nil_r | right; reflexivity]. }
  assert (Hdone : forall st2 : Session, queries_run st2 = queries_run st1 ->
            queries_run st2 = queries_run st
            \/ exists env0 members0 s0,
                 Some env = Some env0
                 /\ @inl json str (JObject members) = inl (JObject members0)
                 /\ get_default members0 (L "question") (JString [])
                    = JString s0
                 /\ queries_run st2
                    = queries_run st ++ [fst (convert_to_sql env0 (strip s0))]).
  { intros st2 E. rewrite E. destruct Hst as [H|H]; [now left|].
    right. now exists env, members, s. }
  destruct result as [summary data chart explanation sql row_count
                     |error summary sql].
  - cbv zeta.
    destruct (jsonify_data flask _); cbn [snd]; now apply Hdone.
  - cbn [snd]. now apply Hdone.
Qed.

(** X18.  The status of an answer to [/query] goes with its [success]: 200
    exactly for a success, which carries data and no error; every failure
    is answered 400 or 500 and carries no data. *)
Theorem api_status_matches_success (chatbot : option Env) (flask : Flask)
  (st : Session) :
  let response := fst (fst (api.process_query chatbot flask st)) in
  let status := snd (fst (api.process_query chatbot flask st)) in
  (r_success response = true <-> status = 200)
  /\ (r_success response = true ->
      r_data response <> None /\ r_error response = None)
  /\ (r_success response = false ->
      r_data response = None /\ (status = 400 \/ status = 500)).
Proof.
  cbv zeta. unfold api.process_query.
  assert (Hf : forall error status (s0 : Session),
            status = 400 \/ status = 500 ->
            let r := ((api.format_response (now flask) false
                         (@None QueryData) [] error, status), s0) in
            (r_success (fst (fst r)) = true <-> snd (fst r) = 200)
            /\ (r_success (fst (fst r)) = true ->
                r_data (fst (fst r)) <> None /\ r_error (fst (fst r)) = None)
            /\ (r_success (fst (fst r)) = false ->
                r_data (fst (fst r)) = None
                /\ (snd (fst r) = 400 \/ snd (fst r) = 500))).
  { intros error status s0 Hs. cbn.
    repeat split; try discriminate; try (intros; exact Hs);
      destruct Hs; subst; discriminate. }
  destruct chatbot as [env|]; [|apply Hf; now right].
  destruct (get_json flask) as [data|e]; [|apply Hf; now right].
  destruct (negb (json_truthy data)); [apply Hf; now left|].
  destruct data as [| | | | |items|members]; try (apply Hf; now right).
  destruct (get_default members (L "question") (JString []))
    as [| | | |s| |]; try (apply Hf; now right).
  destruct (negb (nonempty (strip s))); [apply Hf; now left|].
  destruct (api.chatbot_process_query env (strip s) None st)
    as [result st1].
  destruct result as [summary data chart explanation sql row_count
                     |error summary sql].
  - cbv zeta. destruct (jsonify_data flask _); [|apply Hf; now right].
    cbn. repeat split; try discriminate.
  - cbn. repeat split; try discriminate; try (now left).
Qed.

(** X19.  An outage of the text-generation backend is answered like a bad
    request: status 400, the fixed error [Failed to generate SQL query], and
    the text of the exception is in neither the error nor the message. *)
Theorem api_backend_outage (env : Env) (flask : Flask) (st : Session)
  (members : list (str * json)) (s e : str) :
  get_json flask = inl (JObject members) ->
  get_default members (L "question") (JString []) = JString s ->
  strip s <> [] ->
  chat_completion env (strip s) = inr e ->
  api.process_query (Some env) flask st
  = ((api.format_response (now flask) false None summary_not_understood
        (L "Failed to generate SQL query"), 400), st).
Proof.
  intros Hj Hq Hs He. unfold api.process_query. rewrite Hj.
  assert (Hm : json_truthy (JObject members) = true).
  { destruct members as [|m members]; [|reflexivity].
    cbn in Hq. injection Hq as <-. now elim Hs. }
  rewrite Hm, Hq. cbn [negb].
  destruct (strip s) as [|c q] eqn:E; [congruence|]. cbn [nonempty negb].
  unfold api.chatbot_process_query, process_query.
  rewrite (convert_to_sql_backend_failure env (c :: q) e He).
  reflexivity.
Qed.

Lemma api_backend_outage_witness :
  api.process_query (Some env_backend_down)
    (flask_request (inl (JObject [(L "question",
                                   JString (L "Show cancelled requests"))])))
    no_session
  = ((api.format_response (L "2025-06-23T10:30:00") false None
        summary_not_understood (L "Failed to generate SQL query"), 400),
     no_session).
Proof.
  apply (api_backend_outage env_backend_down
           (flask_request
              (inl (JObject [(L "question",
                              JString (L "Show cancelled requests"))])))
           no_session
           [(L "question", JString (L "Show cancelled requests"))]
           (L "Show cancelled requests") (L "Connection error."));
    [reflexivity | reflexivity | discriminate | reflexivity].
Defined.

(** X20.  The health check answers 200 and [success] whatever the state of
    the database; that state is only in [database_status], which says
    [connected] exactly when the probe query was answered. *)
Theorem health_check_always_succeeds (chatbot : option Env) (flask : Flask)
  (st : Session) :
  let response := fst (fst (api.health_check chatbot flask st)) in
  snd (fst (api.health_check chatbot flask st)) = 200
  /\ r_success response = true
  /\ exists data,
       r_data response = Some data
       /\ (database_status data = L "connected"
           <-> exists env df,
                 chatbot = Some env
                 /\ query_df env (L "SELECT 1 as test_connection LIMIT 1")
                    = inl df).
Proof.
  cbv zeta. unfold api.health_check.
  destruct chatbot as [env|].
  - unfold execute_query.
    change (sent_query (L "SELECT 1 as test_connection LIMIT 1") None)
      with (L "SELECT 1 as test_connection LIMIT 1").
    destruct (query_df env (L "SELECT 1 as test_connection LIMIT 1"))
      as [df|e] eqn:Hq; cbn.
    + repeat split. eexists. split; [reflexivity|]. cbn.
      split; [intros _; now exists env, df | reflexivity].
    + repeat split. eexists. split; [reflexivity|]. cbn.
      split; [discriminate|].
      intros (env0 & df & H1 & H2). injection H1 as <-.
      exfalso. pose proof (eq_trans (eq_sym Hq) H2) as H. discriminate H.
  - cbn. repeat split. eexists. split; [reflexivity|]. cbn.
    split; [discriminate|]. intros (env0 & df & H1 & _). discriminate.
Qed.

(* ===================================================================== *)
(** ** The clean-up of the answer of the backend                          *)
(* ===================================================================== *)

Lemma strip_blank (s : str) : forallb isspace s = true -> strip s = [].
Proof.
  intros H. unfold strip, lstrip.
  replace (dropwhile isspace s) with (@nil ascii); [reflexivity|].
  induction s as [|c s IH]; [reflexivity|]. simpl in *.
  apply andb_true_iff in H as [-> H]. now apply IH.
Qed.

(** X22.  An answer of the backend that is empty or white space only gives
    the empty query, which [process_query] reports as a failure to generate
    SQL, unless the question mentions a [last request]: then the date pass
    appends its ORDER BY clause to the empty text, and that clause alone is
    the query. *)
Theorem blank_answer_repaired (env : Env) (user_question content : str) :
  chat_completion env user_question = inl content ->
  forallb isspace content = true ->
  fst (convert_to_sql env user_question)
  = if contains (L "last request") (lower user_question)
    then L " ORDER BY scheduled_time DESC LIMIT 1"
    else [].
Proof.
  intros Hc Hb. unfold convert_to_sql. rewrite Hc, (strip_blank _ Hb).
  cbn [fst].
  change (strip (replace (L "```") [] (replace (L "```sql") [] [])))
    with (@nil ascii).
  unfold repair.
  change (_fix_sql_functions (_fix_facility_id_format [])) with (@nil ascii).
  assert (H3 : _fix_null_empty_handling [] user_question = []).
  { unfold _fix_null_empty_handling, fix_comp_manually. cbv zeta.
    destruct (_ || _); [|reflexivity].
    assert (Hf : forall fields, fold_left (fix_field (lower user_question))
                                  fields [] = []).
    { induction fields as [|f fields IH]; [reflexivity|]. simpl.
      replace (fix_field (lower user_question) [] f) with (@nil ascii);
        [exact IH|].
      unfold fix_field. now destruct (contains f (lower user_question)). }
    repeat match goal with
           | |- context [if ?c then _ else _] => destruct c
           end; apply Hf. }
  rewrite H3. unfold _enhance_date_queries. cbv zeta.
  set (ql := lower user_question).
  change (fold_left localize_to_date localized_columns []) with (@nil ascii).
  change (expand_select_star ql []) with (@nil ascii).
  assert (H2 : fix_june_2 ql [] = []).
  { unfold fix_june_2. now destruct (contains (L "june 2") ql). }
  assert (H1 : fix_june_1 ql [] = []).
  { unfold fix_june_1. now destruct (contains (L "june 1") ql). }
  assert (H5 : fix_may_31 ql [] = []).
  { unfold fix_may_31. now destruct (contains (L "may 31") ql). }
  rewrite H2, H1, H5. unfold fix_last_request.
  change (contains (L "order by") (lower [])) with false.
  cbn [negb]. rewrite andb_true_r.
  destruct (contains (L "last request") ql).
  - change (rstrip_semicolon [] ++ L " ORDER BY scheduled_time DESC LIMIT 1")
      with (L " ORDER BY scheduled_time DESC LIMIT 1").
    assert (H7 : fix_hourly ql (L " ORDER BY scheduled_time DESC LIMIT 1")
                 = L " ORDER BY scheduled_time DESC LIMIT 1").
    { unfold fix_hourly. now destruct (_ || _). }
    rewrite H7. unfold fix_month.
    destruct (month_search ql) as [n|]; [|reflexivity].
    destruct (contains (L "per day") ql); [|reflexivity].
    vm_compute. reflexivity.
  - assert (H7 : fix_hourly ql [] = []).
    { unfold fix_hourly. now destruct (_ || _). }
    rewrite H7. unfold fix_month.
    destruct (month_search ql) as [n|]; [|reflexivity].
    destruct (contains (L "per day") ql); reflexivity.
Qed.

Lemma blank_answer_repaired_witness :
  fst (convert_to_sql env_blank_answer (L "Show me the last request"))
  = L " ORDER BY scheduled_time DESC LIMIT 1".
Proof.
  exact (blank_answer_repaired env_blank_answer
           (L "Show me the last request") (L "  ") eq_refl eq_refl).
Defined.

(** Text without the first character of a literal is copied by the scan for
    that literal. *)
Lemma sub_scan_copies (old new : str) (a : ascii) (old' : str) (body : str) :
  old = a :: old' -> (forall c, In c body -> c <> a) ->
  forall p z,
    sub_scan (m_literal old new) 0 p (body ++ z)
    = body ++ sub_scan (m_literal old new) 0 (prev_after p body) z.
Proof.
  intros -> Hb. induction body as [|c body IH]; intros p z; [reflexivity|].
  assert (Hm : m_literal (a :: old') new p ((c :: body) ++ z) = None).
  { unfold m_literal. simpl.
    destruct (Ascii.eqb a c) eqn:E; [|reflexivity].
    apply Ascii.eqb_eq in E. subst c. exfalso.
    apply (Hb a); [now left | reflexivity]. }
  change ((c :: body) ++ z) with (c :: (body ++ z)) in Hm |- *.
  rewrite (sub_scan_copy _ p c _ Hm). simpl. f_equal.
  apply IH. intros d Hd. apply Hb. now right.
Qed.

Lemma strip_ticked (s : str) :
  strip (L "`" ++ s ++ L "`") = L "`" ++ s ++ L "`".
Proof.
  unfold strip, lstrip.
  change (dropwhile isspace (L "`" ++ s ++ L "`")) with (L "`" ++ s ++ L "`").
  replace (L "`" ++ s ++ L "`") with (((L "`" ++ s) ++ ["`"%char]) ++ [])
    by (now rewrite app_nil_r, <- app_assoc).
  now rewrite (rstrip_by_app_keep isspace (L "`" ++ s) "`"%char [] eq_refl).
Qed.

(** X23.  The clean-up knows the fence tag [sql] in lower case only.  For an
    answer that is one fenced block, the tag [sql] goes with the fences,
    and the tag [SQL] stays: the query handed to the repair passes then
    starts with the three letters of the tag. *)
Theorem fence_tag_removed_in_lower_case_only (env : Env)
  (user_question body : str) :
  (forall c, In c body -> c <> "`"%char) ->
  (chat_completion env user_question = inl (L "```sql" ++ body ++ L "```") ->
   fst (convert_to_sql env user_question)
   = repair (strip body) user_question)
  /\ (chat_completion env user_question = inl (L "```SQL" ++ body ++ L "```") ->
      fst (convert_to_sql env user_question)
      = repair (strip (L "SQL" ++ body)) user_question).
Proof.
  intros Hb.
  assert (Htag : forall tag, (forall c, In c tag -> c <> "`"%char) ->
            forall c, In c (tag ++ body) -> c <> "`"%char).
  { intros tag Ht c Hc. apply in_app_or in Hc as [Hc|Hc];
      [now apply Ht | now apply Hb]. }
  split; intros Hc; unfold convert_to_sql; rewrite Hc; cbn [fst].
  - replace (L "```sql" ++ body ++ L "```")
      with (L "`" ++ (L "``sql" ++ body ++ L "``") ++ L "`")
      by (now rewrite <- !app_assoc).
    rewrite strip_ticked.
    replace (L "`" ++ (L "``sql" ++ body ++ L "``") ++ L "`")
      with (L "```sql" ++ body ++ L "```")
      by (now rewrite <- !app_assoc).
    assert (H1 : replace (L "```sql") [] (L "```sql" ++ body ++ L "```")
                 = body ++ L "```").
    { unfold replace, re_sub.
      rewrite (sub_scan_match (m_literal (L "```sql") []) None (L "```sql")
                 (body ++ L "```") [] ltac:(discriminate));
        [|unfold m_literal; now rewrite startswith_app].
      cbn [app].
      now rewrite (sub_scan_copies (L "```sql") [] "`"%char (L "``sql") body
                     eq_refl Hb). }
    rewrite H1.
    assert (H2 : replace (L "```") [] (body ++ L "```") = body).
    { unfold replace, re_sub.
      rewrite (sub_scan_copies (L "```") [] "`"%char (L "``") body eq_refl Hb).
      change (sub_scan (m_literal (L "```") []) 0 (prev_after None body)
                (L "```")) with (@nil ascii).
      apply app_nil_r. }
    now rewrite H2.
  - replace (L "```SQL" ++ body ++ L "```")
      with (L "`" ++ (L "``SQL" ++ body ++ L "``") ++ L "`")
      by (now rewrite <- !app_assoc).
    rewrite strip_ticked.
    replace (L "`" ++ (L "``SQL" ++ body ++ L "``") ++ L "`")
      with (L "```" ++ (L "SQL" ++ body) ++ L "```")
      by (now rewrite <- !app_assoc).
    assert (Hsql : forall c, In c (L "SQL" ++ body) -> c <> "`"%char).
    { apply Htag. intros c Hc0. simpl in Hc0.
      repeat (destruct Hc0 as [<-|Hc0]; [discriminate|]). contradiction. }
    assert (H1 : replace (L "```sql") []
                   (L "```" ++ (L "SQL" ++ body) ++ L "```")
                 = L "```" ++ (L "SQL" ++ body) ++ L "```").
    { unfold replace, re_sub.
      change (L "```" ++ (L "SQL" ++ body) ++ L "```")
        with ("`"%char :: "`"%char :: "`"%char
              :: ((L "SQL" ++ body) ++ L "```")).
      rewrite (sub_scan_copy (m_literal (L "```sql") []) None "`"%char
                 ("`"%char :: "`"%char :: (L "SQL" ++ body) ++ L "```")
                 eq_refl).
      rewrite (sub_scan_copy (m_literal (L "```sql") []) (Some "`"%char)
                 "`"%char ("`"%char :: (L "SQL" ++ body) ++ L "```")
                 eq_refl).
      rewrite (sub_scan_copy (m_literal (L "```sql") []) (Some "`"%char)
                 "`"%char ((L "SQL" ++ body) ++ L "```") eq_refl).
      rewrite (sub_scan_copies (L "```sql") [] "`"%char (L "``sql")
                 (L "SQL" ++ body) eq_refl Hsql).
      reflexivity. }
    rewrite H1.
    assert (H2 : replace (L "```") []
                   (L "```" ++ (L "SQL" ++ body) ++ L "```")
                 = L "SQL" ++ body).
    { unfold replace, re_sub.
      rewrite (sub_scan_match (m_literal (L "```") []) None (L "```")
                 ((L "SQL" ++ body) ++ L "```") [] ltac:(discriminate));
        [|unfold m_literal; now rewrite startswith_app].
      cbn [app].
      rewrite (sub_scan_copies (L "```") [] "`"%char (L "``")
                 (L "SQL" ++ body) eq_refl Hsql).
      change (sub_scan (m_literal (L "```") []) 0 _ (L "```"))
        with (@nil ascii).
      apply app_nil_r. }
    now rewrite H2.
Qed.

Lemma fence_tag_removed_in_lower_case_only_witness :
  fst (convert_to_sql env_upper_case_tag (L "one")) = L "SQL SELECT 1".
Proof.
  assert (Hb : forall c, In c (L " SELECT 1 ") -> c <> "`"%char).
  { intros c Hc. simpl in Hc.
    repeat (destruct Hc as [<-|Hc]; [discriminate|]). contradiction. }
  destruct (fence_tag_removed_in_lower_case_only env_upper_case_tag
              (L "one") (L " SELECT 1 ") Hb) as [_ H].
  rewrite (H eq_refl). vm_compute. reflexivity.
Defined.
